(** * LMSFileGenie: command tokenizer, content sanitizer, sandboxed handlers

    A shallow embedding of [LMSFileGenie_V0.7.py].  Python [str] values are
    sequences of Unicode code points, so text is modelled as [list N]; the
    character classes the program relies on ([str.isspace], the [re] classes
    [\s], [\w], [\d], the line boundaries of [str.splitlines]) are written out
    for the code points CPython fixes by enumeration, and the two Unicode
    database tables that cannot be enumerated here (alphanumeric and decimal
    code points above ASCII) are fields of the class [UnicodeData]. *)

From stdpp Require Import base option list gmap strings pretty sorting.
From Stdlib Require Import ZArith NArith Lia Ascii.

Open Scope N_scope.
Open Scope list_scope.

(** ** Python strings *)

Abbreviation pychar := N (only parsing).
Abbreviation pystr := (list N) (only parsing).

(** [u "abc"] is the Python string with the code points of the ASCII literal. *)
Definition u (s : string) : pystr :=
  N_of_ascii <$> String.list_ascii_of_string s.

Definition LF : N := 10.
Definition CR : N := 13.
Definition SLASH : N := 47.
Definition BACKSLASH : N := 92.
Definition DQUOTE : N := 34.
Definition SQUOTE : N := 39.
Definition BACKTICK : N := 96.
Definition UNDERSCORE : N := 95.
Definition SPACE : N := 32.
Definition DOT : N := 46.
Definition PLUS : N := 43.
Definition MINUS : N := 45.

(** The Unicode tables of the interpreter that are not enumerated below. *)
Class UnicodeData := {
  (** [Py_UNICODE_ISALNUM] on code points above 127 *)
  uni_alnum : N → bool;
  (** [Py_UNICODE_TODECIMAL] on code points above 127 *)
  uni_decimal : N → option N;
}.

(** A table under which no code point above ASCII is alphanumeric. *)
Definition ascii_tables : UnicodeData :=
  {| uni_alnum := λ _, false; uni_decimal := λ _, None |}.

Definition in_range (lo hi c : N) : bool := (lo <=? c) && (c <=? hi).

(** [Py_UNICODE_ISSPACE]: [str.isspace] on one character, [\s], [str.strip()]. *)
Definition isspace (c : N) : bool :=
  in_range 9 13 c || in_range 28 32 c || (c =? 133) || (c =? 160)
  || (c =? 5760) || in_range 8192 8202 c || (c =? 8232) || (c =? 8233)
  || (c =? 8239) || (c =? 8287) || (c =? 12288).

(** [Py_UNICODE_ISLINEBREAK]: the boundaries of [str.splitlines]. *)
Definition is_linebreak (c : N) : bool :=
  in_range 10 13 c || in_range 28 30 c || (c =? 133) || (c =? 8232) || (c =? 8233).

Definition ascii_alpha (c : N) : bool := in_range 65 90 c || in_range 97 122 c.
Definition ascii_digit (c : N) : bool := in_range 48 57 c.

(** [[a-zA-Z_]] *)
Definition name_start (c : N) : bool := ascii_alpha c || (c =? UNDERSCORE).

Section Text.
Context `{UD : UnicodeData}.

(** [\w] of a [str] pattern: alphanumeric or underscore. *)
Definition is_word (c : N) : bool :=
  if c <? 128 then ascii_alpha c || ascii_digit c || (c =? UNDERSCORE)
  else uni_alnum c.

(** Decimal value of a [\d] character. *)
Definition decimal_value (c : N) : option N :=
  if c <? 128 then (if ascii_digit c then Some (c - 48) else None)
  else uni_decimal c.

Definition is_decimal (c : N) : bool := bool_decide (is_Some (decimal_value c)).

End Text.

(** [s.startswith(p)] *)
Fixpoint startswith (p s : pystr) : bool :=
  match p, s with
  | [], _ => true
  | a :: p', b :: s' => (a =? b) && startswith p' s'
  | _ :: _, [] => false
  end.

(** [s.endswith(p)] *)
Definition endswith (p s : pystr) : bool := startswith (reverse p) (reverse s).

(** [sep.join(l)] *)
Fixpoint join (sep : pystr) (l : list pystr) : pystr :=
  match l with
  | [] => []
  | [x] => x
  | x :: l' => x ++ sep ++ join sep l'
  end.

Fixpoint dropwhile (f : N → bool) (s : pystr) : pystr :=
  match s with
  | c :: s' => if f c then dropwhile f s' else s
  | [] => []
  end.

(** [s.lstrip()], [s.rstrip()], [s.strip()] on whitespace. *)
Definition lstrip (s : pystr) : pystr := dropwhile isspace s.
Definition rstrip (s : pystr) : pystr := reverse (lstrip (reverse s)).
Definition strip (s : pystr) : pystr := rstrip (lstrip s).

(** [s.lstrip(chars)], [s.strip(chars)] *)
Definition mem_char (cs : pystr) (c : N) : bool := bool_decide (c ∈ cs).
Definition lstrip_chars (cs s : pystr) : pystr := dropwhile (mem_char cs) s.
Definition strip_chars (cs s : pystr) : pystr :=
  reverse (lstrip_chars cs (reverse (lstrip_chars cs s))).

(** [s.splitlines()]: [cur] is the line being read, most recent character
    first.  A carriage return directly followed by a line feed is one boundary;
    a final line without a boundary is kept unless it is empty. *)
Fixpoint splitlines_from (cur s : pystr) : list pystr :=
  match s with
  | [] => match cur with [] => [] | _ => [reverse cur] end
  | c :: s' =>
      if is_linebreak c then
        reverse cur ::
          match s' with
          | d :: s'' => if (c =? CR) && (d =? LF) then splitlines_from [] s''
                        else splitlines_from [] s'
          | [] => splitlines_from [] s'
          end
      else splitlines_from (c :: cur) s'
  end.

Definition splitlines (s : pystr) : list pystr := splitlines_from [] s.

(** ** Content sanitation *)

Section Sanitizer.

(** [_normalize_content_for_writing_from_fence]; [None] is Python's [None]. *)
Definition _normalize_content_for_writing_from_fence (content : option pystr) : pystr :=
  match content with
  | None => []
  | Some c => match c with
              | x :: c' => if x =? LF then c' else c
              | [] => c
              end
  end.

(** Whether the pattern [^\s*/[a-zA-Z_]\w* ] matches at the start of [ln]:
    the greedy run of whitespace never has to give characters back since a
    slash is not whitespace, and the trailing run of word characters may be
    empty. *)
Definition command_line_match (ln : pystr) : bool :=
  match lstrip ln with
  | c :: d :: _ => (c =? SLASH) && name_start d
  | _ => false
  end.

Definition _strip_command_lines (content : option pystr) : pystr :=
  match content with
  | None => []
  | Some c =>
      let lines := splitlines c in
      let kept := filter (λ ln, command_line_match ln = false) lines in
      join [LF] kept
  end.

Definition _content_has_command_lines (content : option pystr) : bool :=
  match content with
  | None => false
  | Some [] => false
  | Some c => existsb command_line_match (splitlines c)
  end.

End Sanitizer.

(** ** Command parsing *)

Fixpoint takewhile (f : N → bool) (s : pystr) : pystr :=
  match s with
  | c :: s' => if f c then c :: takewhile f s' else []
  | [] => []
  end.

(** [s] is the suffix of the text at offset [k]; first offset at or after [k]
    where [sub] occurs. *)
Fixpoint find_at (sub s : pystr) (k : nat) : option nat :=
  if startswith sub s then Some k
  else match s with
       | [] => None
       | _ :: s' => find_at sub s' (S k)
       end.

(** [text.find(sub, start)]; [None] is Python's [-1]. *)
Definition find (sub text : pystr) (start : nat) : option nat :=
  find_at sub (drop start text) start.

(** [text[a:b]] for [0 <= a] *)
Definition slice (a b : nat) (text : pystr) : pystr := take (b - a) (drop a text).

(** A command with the offsets of the region it was read from: [sp_start] is
    the index [m] of its slash and [sp_end] the value of [pos] when its
    argument loop ends.  The offsets are not part of the program's result;
    [find_commands_in_text] drops them. *)
Record span := Span {
  sp_start : nat;
  sp_name : pystr;
  sp_args : list pystr;
  sp_end : nat;
}.

Definition FENCE : pystr := [BACKTICK; BACKTICK; BACKTICK].

Section Tokenizer.
Context `{UD : UnicodeData}.

(** Group 1 of the pattern [/([a-zA-Z_]\w* )] matched at the start of [s]. *)
Definition command_name_match (s : pystr) : option pystr :=
  match s with
  | c :: d :: s' =>
      if (c =? SLASH) && name_start d then Some (d :: takewhile is_word s')
      else None
  | _ => None
  end.

(** [while pos < L and text[pos].isspace(): pos += 1] *)
Definition skip_space (text : pystr) (pos : nat) : nat :=
  (pos + length (takewhile isspace (drop pos text)))%nat.

(** The quoted-string loop: [s] is the text from index [j] on, [val_chars]
    is kept most recent first; returns the value and the final [j]. *)
Fixpoint read_quoted (quote : N) (s : pystr) (escaped : bool) (j : nat)
    (val_chars : pystr) : pystr * nat :=
  match s with
  | [] => (reverse val_chars, j)
  | c :: s' =>
      if escaped then read_quoted quote s' false (S j) (c :: val_chars)
      else if c =? BACKSLASH then read_quoted quote s' true (S j) val_chars
      else if c =? quote then (reverse val_chars, j)
      else read_quoted quote s' false (S j) (c :: val_chars)
  end.

Definition bare_char (c : N) : bool := negb (isspace c) && negb (c =? SLASH).

(** The fenced-block branch: value and next [pos]. *)
Definition read_fence (text : pystr) (pos : nat) : pystr * nat :=
  let L := length text in
  let pos_start := (pos + 3)%nat in
  match find [LF] text pos_start with
  | Some newline_idx =>
      match find FENCE text (newline_idx + 1) with
      | None => (drop (newline_idx + 1) text, L)
      | Some end_idx => (slice (newline_idx + 1) end_idx text, (end_idx + 3)%nat)
      end
  | None =>
      match find FENCE text pos_start with
      | None => (drop pos_start text, L)
      | Some end_idx => (slice pos_start end_idx text, (end_idx + 3)%nat)
      end
  end.

(** The argument loop of one command; [None] only when [fuel] runs out. *)
Fixpoint read_args (fuel : nat) (text : pystr) (pos : nat) (args : list pystr)
    : option (list pystr * nat) :=
  match fuel with
  | O => None
  | S fuel' =>
      let L := length text in
      let pos := skip_space text pos in
      match text !! pos with
      | None => Some (args, pos)
      | Some ch =>
          if ch =? SLASH then Some (args, pos)
          else if (ch =? BACKTICK) && bool_decide (pos + 2 < L)%nat
                  && bool_decide (slice pos (pos + 3) text = FENCE) then
            let '(val, pos') := read_fence text pos in
            read_args fuel' text pos' (args ++ [val])
          else if (ch =? DQUOTE) || (ch =? SQUOTE) then
            let '(val, j) := read_quoted ch (drop (pos + 1) text) false (pos + 1) [] in
            read_args fuel' text (if bool_decide (j < L)%nat then j + 1 else j)%nat
                      (args ++ [val])
          else
            let token_chars := takewhile bare_char (drop pos text) in
            let j := (pos + length token_chars)%nat in
            read_args fuel' text j
                      (match token_chars with [] => args | _ => args ++ [token_chars] end)
      end
  end.

(** The outer loop from index [i]; [None] only when [fuel] runs out. *)
Fixpoint scan_commands (fuel : nat) (text : pystr) (i : nat) (commands : list span)
    : option (list span) :=
  match fuel with
  | O => None
  | S fuel' =>
      match find [SLASH] text i with
      | None => Some commands
      | Some m =>
          if bool_decide (0 < m)%nat
             && negb (bool_decide (text !! (m - 1)%nat = Some LF)
                      || bool_decide (text !! (m - 1)%nat = Some CR))
          then scan_commands fuel' text (m + 1) commands
          else
            match command_name_match (drop m text) with
            | None => scan_commands fuel' text (m + 1) commands
            | Some cmd =>
                let pos := (m + (1 + length cmd))%nat in
                match read_args (S (length text)) text pos [] with
                | None => None
                | Some (args, pos') =>
                    scan_commands fuel' text pos' (commands ++ [Span m cmd args pos'])
                end
            end
      end
  end.

(** The commands of a text with their offsets.  Every iteration of either loop
    moves its index forward, so [S (length text)] iterations are enough
    (lemma [scan_commands_total]). *)
Definition command_spans (text : pystr) : list span :=
  match text with
  | [] => []
  | _ => default [] (scan_commands (S (length text)) text 0 [])
  end.

Definition find_commands_in_text (text : pystr) : list (pystr * list pystr) :=
  (λ s, (sp_name s, sp_args s)) <$> command_spans text.

End Tokenizer.

(** ** Line-level edits: the list manipulation of [/set line], [/remove_line]
    and [/patch] *)

(** [s.replace(old, new)] *)
Fixpoint replace_from (old new s : pystr) (skip : nat) : pystr :=
  match s with
  | [] => []
  | c :: s' =>
      match skip with
      | S k => replace_from old new s' k
      | O => if startswith old s
             then new ++ replace_from old new s' (length old - 1)
             else c :: replace_from old new s' 0
      end
  end.

Definition str_replace (old new s : pystr) : pystr :=
  match old with
  | [] => new ++ flat_map (λ c, c :: new) s
  | _ => replace_from old new s 0
  end.

(** [l.pop(idx)] for [0 <= idx < len(l)] is stdpp's [delete idx l];
    [l.insert(idx, x)] for [0 <= idx]: *)
Definition list_insert_at {A} (idx : nat) (x : A) (l : list A) : list A :=
  take idx l ++ x :: drop idx l.

(** The loop that appends empty lines while [len(lines) < idx]. *)
Definition pad_lines (idx : nat) (lines : list pystr) : list pystr :=
  lines ++ replicate (idx - length lines) [].

(** [sorted(l, key=...)]: a stable insertion sort; [before y x] tells that [y]
    must come strictly before [x]. *)
Section Sorted.
Context {A : Type} (before : A → A → bool).

Fixpoint insert_sorted (x : A) (l : list A) : list A :=
  match l with
  | [] => [x]
  | y :: l' => if before y x then y :: insert_sorted x l' else x :: l
  end.

Definition sorted (l : list A) : list A := foldr insert_sorted [] l.

End Sorted.

Section Lines.
Context `{UD : UnicodeData}.

(** *** [int(s)] in base ten *)

(** The characters [int] skips around the number: the ASCII ones of the C
    locale and every Unicode space above ASCII. *)
Definition int_space (c : N) : bool :=
  if c <? 128 then in_range 9 13 c || (c =? SPACE) else isspace c.

(** Digits with single underscores between them. *)
Fixpoint parse_digits (s : pystr) (acc : N) (after_digit : bool) : option N :=
  match s with
  | [] => if after_digit then Some acc else None
  | c :: s' =>
      match decimal_value c with
      | Some d => parse_digits s' (10 * acc + d) true
      | None => if (c =? UNDERSCORE) && after_digit then parse_digits s' acc false
                else None
      end
  end.

(** [int(s)]; [None] is [ValueError].  The interpreter's limit on the number
    of digits of the literal is not modelled. *)
Definition py_int (s : pystr) : option Z :=
  let t := reverse (dropwhile int_space (reverse (dropwhile int_space s))) in
  match t with
  | c :: t' =>
      if c =? MINUS then (λ n, - Z.of_N n)%Z <$> parse_digits t' 0 false
      else if c =? PLUS then Z.of_N <$> parse_digits t' 0 false
      else Z.of_N <$> parse_digits t 0 false
  | [] => None
  end.

(** *** [/set line] *)

(** The list [lines] after the edit of line [line_num]. *)
Definition set_line_lines (lines : list pystr) (line_num : Z) (new_line : pystr)
    : list pystr :=
  let idx := Z.to_nat (Z.max 0 (line_num - 1)) in
  let lines := pad_lines idx lines in
  if bool_decide (idx < length lines)%nat then <[idx := new_line]> lines
  else lines ++ [new_line].

Definition set_line_text (text : pystr) (line_num : Z) (new_line : pystr) : pystr :=
  join [LF] (set_line_lines (splitlines text) line_num new_line)
  ++ (if endswith [LF] new_line then [LF] else []).

(** *** [/remove_line] *)

(** The new text, or [None] when the number is out of range. *)
Definition remove_line_text (text : pystr) (line_num : Z) : option pystr :=
  let lines := splitlines text in
  let idx := (line_num - 1)%Z in
  if bool_decide (0 ≤ idx)%Z && bool_decide (idx < Z.of_nat (length lines))%Z then
    let lines := delete (Z.to_nat idx) lines in
    Some (join [LF] lines
          ++ match last lines with
             | Some l => if endswith [LF] l then [LF] else []
             | None => []
             end)
  else None.

(** *** [/patch] *)

Record patch_op := PatchOp { op_lineno : Z; op_kind : N; op_text : pystr }.

(** The pattern [^\s*(\d+)\s*([+-])\s*(.* )$] on one line of the patch: the
    character classes of adjacent pieces are disjoint, so each greedy run is
    final; the dot does not match a line feed and the dollar accepts one line
    feed before the end. *)
Definition parse_patch_line (raw : pystr) : option patch_op :=
  let r0 := lstrip raw in
  let digits := takewhile is_decimal r0 in
  let r1 := lstrip (drop (length digits) r0) in
  match digits, r1 with
  | _ :: _, op :: r2 =>
      if (op =? PLUS) || (op =? MINUS) then
        let r3 := lstrip r2 in
        let text := takewhile (λ c, negb (c =? LF)) r3 in
        let rest := drop (length text) r3 in
        if bool_decide (rest = []) || bool_decide (rest = [LF]) then
          (λ n, PatchOp n op text) <$> py_int digits
        else None
      else None
  | _, _ => None
  end.

(** The loop that reads the patch: blank lines and lines that do not match
    are skipped. *)
Definition parse_patch (patches : pystr) : list patch_op :=
  omap (λ raw,
          let raw := reverse (dropwhile (λ c, c =? LF) (reverse raw)) in
          match strip raw with
          | [] => None
          | _ => parse_patch_line raw
          end)
       (splitlines patches).

(** One iteration of the removal loop. *)
Definition apply_remove (lines : list pystr) (o : patch_op) : list pystr :=
  let idx := (op_lineno o - 1)%Z in
  if bool_decide (0 ≤ idx)%Z && bool_decide (idx < Z.of_nat (length lines))%Z then
    match op_text o, lines !! Z.to_nat idx with
    | _ :: _, Some ln =>
        if bool_decide (strip ln ≠ strip (op_text o)) then lines
        else delete (Z.to_nat idx) lines
    | _, _ => delete (Z.to_nat idx) lines
    end
  else lines.

(** One iteration of the insertion loop. *)
Definition apply_insert (lines : list pystr) (o : patch_op) : list pystr :=
  let idx := Z.to_nat (if bool_decide (op_lineno o - 1 < 0)%Z then 0 else op_lineno o - 1)%Z in
  list_insert_at idx (op_text o) (pad_lines idx lines).

Definition patch_removes (ops : list patch_op) : list patch_op :=
  sorted (λ y x, (op_lineno x <? op_lineno y)%Z)
         (filter (λ o, op_kind o = MINUS) ops).

Definition patch_inserts (ops : list patch_op) : list patch_op :=
  sorted (λ y x, (op_lineno y <? op_lineno x)%Z)
         (filter (λ o, op_kind o = PLUS) ops).

(** The lines after all operations. *)
Definition patch_lines (lines : list pystr) (ops : list patch_op) : list pystr :=
  foldl apply_insert (foldl apply_remove lines (patch_removes ops)) (patch_inserts ops).

(** The text [handle_patch] writes, before sanitation, for a file holding
    [text]. *)
Definition patch_text (text patches : pystr) : pystr :=
  let lines := patch_lines (splitlines text) (parse_patch patches) in
  join [LF] lines
  ++ match last lines with
     | Some l => if endswith [LF] l then [] else [LF]
     | None => []
     end.

End Lines.

(** ** Paths

    [pathlib] paths of the POSIX flavour: a root flag and the components.
    Parsing drops empty components and single dots and keeps double dots, as
    [PurePosixPath] does.  (The POSIX special case of a root written with
    exactly two slashes is not modelled.) *)

Record PurePath := Path { anchored : bool; parts : list pystr }.

Global Instance PurePath_eq_dec : EqDecision PurePath.
Proof. solve_decision. Defined.

Definition DOTDOT : pystr := [DOT; DOT].

(** [s.split(sep)] on a one-character separator; [cur] is the piece being
    read, most recent character first. *)
Fixpoint split_from (sep : N) (cur s : pystr) : list pystr :=
  match s with
  | [] => [reverse cur]
  | c :: s' => if c =? sep then reverse cur :: split_from sep [] s'
               else split_from sep (c :: cur) s'
  end.

Definition parse_path (s : pystr) : PurePath :=
  Path (startswith [SLASH] s)
       (filter (λ c, c ≠ [] ∧ c ≠ [DOT]) (split_from SLASH [] s)).

(** [p.joinpath(s)] *)
Definition joinpath (p : PurePath) (s : pystr) : PurePath :=
  let q := parse_path s in
  if anchored q then q else Path (anchored p) (parts p ++ parts q).

(** [p.name] *)
Definition path_name (p : PurePath) : pystr := default [] (last (parts p)).

(** [p.parent] *)
Definition path_parent (p : PurePath) : PurePath :=
  Path (anchored p) (removelast (parts p)).

(** [s.rfind(c)] for a character [c] *)
Fixpoint rfind_char (c : N) (s : pystr) (k : nat) : option nat :=
  match s with
  | [] => None
  | d :: s' => match rfind_char c s' (S k) with
               | Some i => Some i
               | None => if d =? c then Some k else None
               end
  end.

(** [p.suffix] *)
Definition path_suffix (p : PurePath) : pystr :=
  let name := path_name p in
  match rfind_char DOT name 0 with
  | Some i => if bool_decide (0 < i < length name - 1)%nat then drop i name else []
  | None => []
  end.

(** ** Errors *)

Inductive errno := ENOENT | ENOTDIR | EISDIR | EEXIST | ENOTEMPTY | EINVAL | EIO.

Inductive exn :=
  | PermissionError (msg : pystr)
  | ValueError
  | OSError (e : errno)
  | ShutilError.

Global Instance errno_eq_dec : EqDecision errno.
Proof. solve_decision. Defined.
Global Instance exn_eq_dec : EqDecision exn.
Proof. solve_decision. Defined.

Inductive res (A : Type) := Ok (a : A) | Raise (e : exn).
Arguments Ok {A} a.
Arguments Raise {A} e.

(** [p.with_name(n)]: the path must have a name and [n] must be one
    component. *)
Definition with_name (p : PurePath) (n : pystr) : res PurePath :=
  match path_name p with
  | [] => Raise ValueError
  | _ => if bool_decide (parse_path n = Path false [n])
         then Ok (Path (anchored p) (removelast (parts p) ++ [n]))
         else Raise ValueError
  end.

(** [p.with_suffix(suf)] for a suffix that starts with a dot *)
Definition with_suffix (p : PurePath) (suf : pystr) : res PurePath :=
  let name := path_name p in
  match name with
  | [] => Raise ValueError
  | _ =>
      if bool_decide (SLASH ∈ suf) || negb (startswith [DOT] suf) || bool_decide (suf = [DOT])
      then Raise ValueError
      else
        let old := path_suffix p in
        let name' := match old with
                     | [] => name ++ suf
                     | _ => take (length name - length old) name ++ suf
                     end in
        Ok (Path (anchored p) (removelast (parts p) ++ [name']))
  end.

(** ** The file system

    A tree of directories and regular text files without links, keyed by the
    canonical absolute component list; the root [[]] is always a directory.
    Files hold text as written with the UTF-8 codec. *)

Inductive node := File (content : pystr) | Dir.

Global Instance node_eq_dec : EqDecision node.
Proof. solve_decision. Defined.

Abbreviation key := (list (list N)) (only parsing).
Abbreviation fsmap := (gmap (list (list N)) node) (only parsing).

(** Every change of the file system is one of these events; [trace] records
    them in order. *)
Inductive event :=
  | EvMkdir (k : key)
  | EvWrite (k : key) (content : pystr)   (** a completed [write_text] *)
  | EvTorn (k : key) (content : pystr)    (** an interrupted write: what reached the file *)
  | EvCopy (src dst : key)                (** a completed copy of a regular file *)
  | EvRename (src dst : key)
  | EvUnlink (k : key).

Global Instance event_eq_dec : EqDecision event.
Proof. solve_decision. Defined.

Definition node_at (fs : fsmap) (k : key) : option node :=
  match k with [] => Some Dir | _ => fs !! k end.

Definition under (d k : key) : bool := bool_decide (d `prefix_of` k).

(** Moving the tree at [src] to [dst]. *)
Definition rename_tree (src dst : key) (fs : fsmap) : fsmap :=
  let moved := (λ kv : key * node, (dst ++ drop (length src) kv.1, kv.2))
               <$> map_to_list (filter (λ kv : key * node, src `prefix_of` kv.1) fs) in
  list_to_map moved
  ∪ filter (λ kv : key * node, ¬ src `prefix_of` kv.1 ∧ ¬ dst `prefix_of` kv.1) fs.

Definition apply_event (e : event) (fs : fsmap) : fsmap :=
  match e with
  | EvMkdir k => <[k := Dir]> fs
  | EvWrite k c | EvTorn k c => <[k := File c]> fs
  | EvCopy src dst => match fs !! src with
                      | Some n => <[dst := n]> fs
                      | None => fs
                      end
  | EvRename src dst =>
      match fs !! src with
      | Some (File c) => <[dst := File c]> (delete src fs)
      | Some Dir => rename_tree src dst fs
      | None => fs
      end
  | EvUnlink k => delete k fs
  end.

(** How a failing I/O call fails: before it changed anything, or, for a
    write, after [n] characters reached the file. *)
Inductive fault := FailEarly | FailAfter (n : nat).

Record world := World {
  files : fsmap;
  cwd : key;                          (** the working directory, canonical *)
  now : pystr;                        (** [datetime.now().strftime("%Y%m%d%H%M%S")] *)
  faults : list (option fault);        (** outcome of the coming I/O calls, see [io_fault] *)
  clipboard : option pystr * option PurePath;   (** [_internal_clipboard] *)
  trace : list event;
}.

(** ** Effects: state and exceptions *)

Definition M (A : Type) : Type := world → res A * world.

Definition ret {A} (a : A) : M A := λ w, (Ok a, w).
Definition raise {A} (e : exn) : M A := λ w, (Raise e, w).
Definition bind {A B} (m : M A) (k : A → M B) : M B :=
  λ w, match m w with
       | (Ok a, w') => k a w'
       | (Raise e, w') => (Raise e, w')
       end.
(** [try: m  except Exception as e: h e] *)
Definition try_except {A} (m : M A) (h : exn → M A) : M A :=
  λ w, match m w with
       | (Ok a, w') => (Ok a, w')
       | (Raise e, w') => h e w'
       end.
Definition lift {A} (r : res A) : M A := λ w, (r, w).
Definition gets {A} (f : world → A) : M A := λ w, (Ok (f w), w).

(** stdpp's notations [x ← m; k] and [m;; k] stand for [bind]. *)
Global Instance M_ret : MRet M := @ret.
Global Instance M_bind : MBind M := λ A B k m, bind m k.

(** The only way the file system changes. *)
Definition emit (e : event) : M unit :=
  λ w, (Ok tt, World (apply_event e (files w)) (cwd w) (now w) (faults w)
                     (clipboard w) (trace w ++ [e])).

(** Each I/O call that can fail takes the next entry of [faults]: [None], or
    no entry, lets it run; [Some f] makes it fail with an I/O error. *)
Definition io_fault : M (option fault) :=
  λ w, match faults w with
       | [] => (Ok None, w)
       | f :: fs => (Ok f, World (files w) (cwd w) (now w) fs (clipboard w) (trace w))
       end.

Definition set_clipboard (c : option pystr * option PurePath) : M unit :=
  λ w, (Ok tt, World (files w) (cwd w) (now w) (faults w) c (trace w)).

(** ** Path resolution *)

Definition abs_parts (w : world) (p : PurePath) : list pystr :=
  if anchored p then parts p else cwd w ++ parts p.

(** Follows [comps] from the directory [cur]; every component must be an
    existing directory. *)
Fixpoint walk_dirs (fs : fsmap) (cur : key) (comps : list pystr) : errno + key :=
  match comps with
  | [] => inr cur
  | c :: rest =>
      if decide (c = DOTDOT) then walk_dirs fs (removelast cur) rest
      else match fs !! (cur ++ [c]) with
           | Some Dir => walk_dirs fs (cur ++ [c]) rest
           | Some (File _) => inl ENOTDIR
           | None => inl ENOENT
           end
  end.

(** Where the last component of a path lives, provided the directories before
    it exist. *)
Definition locate_parts (fs : fsmap) (comps : list pystr) : errno + key :=
  match last comps with
  | None => inr []
  | Some l =>
      match walk_dirs fs [] (removelast comps) with
      | inl e => inl e
      | inr d => if decide (l = DOTDOT) then inr (removelast d) else inr (d ++ [l])
      end
  end.

Definition locate (w : world) (p : PurePath) : errno + key :=
  locate_parts (files w) (abs_parts w p).

(** [os.stat] *)
Definition stat (w : world) (p : PurePath) : errno + node :=
  match locate w p with
  | inl e => inl e
  | inr k => match node_at (files w) k with
             | Some n => inr n
             | None => inl ENOENT
             end
  end.

(** [p.exists()], [p.is_dir()], [p.is_file()] *)
Definition path_exists (w : world) (p : PurePath) : bool :=
  match stat w p with inr _ => true | inl _ => false end.
Definition is_dir (w : world) (p : PurePath) : bool :=
  match stat w p with inr Dir => true | _ => false end.
Definition is_file (w : world) (p : PurePath) : bool :=
  match stat w p with inr (File _) => true | _ => false end.

(** The component list without double dots. *)
Fixpoint normalize_from (cur : key) (comps : list pystr) : key :=
  match comps with
  | [] => cur
  | c :: rest =>
      if decide (c = DOTDOT) then normalize_from (removelast cur) rest
      else normalize_from (cur ++ [c]) rest
  end.

(** [p.resolve()]: without links the canonical path is the absolute path with
    its double dots folded, whether or not it exists. *)
Definition resolve (w : world) (p : PurePath) : PurePath :=
  Path true (normalize_from [] (abs_parts w p)).

(** [a.is_relative_to(b)] *)
Definition is_relative_to (a b : PurePath) : bool :=
  bool_decide (anchored a = anchored b) && bool_decide (parts b `prefix_of` parts a).

(** A character the file system takes in a name: not the null character, and
    no surrogate but those that [os.fsencode] turns back into a byte (U+DC80
    to U+DCFF).  On a path with another character [os.stat] and [os.lstat]
    raise [ValueError] before the file system is asked; so [Path.resolve]
    raises and [Path.exists] is [False].  The handlers reach the file system
    only with paths that passed the sandbox check, which refuses such a
    path.  Limits on the length of a name or of a path depend on the file
    system and are not modelled. *)
Definition fs_char (c : N) : bool :=
  negb (c =? 0)%N && negb (in_range 55296 56447 c) && negb (in_range 56576 57343 c).

Definition fs_encodable (comps : list pystr) : bool := forallb (forallb fs_char) comps.

(** [path_in_sandbox]: [False] when a [resolve()] raises, which it does on a
    path that cannot be encoded ([except Exception: return False]). *)
Definition path_in_sandbox (w : world) (target base_dir : PurePath) : bool :=
  fs_encodable (abs_parts w target) && fs_encodable (abs_parts w base_dir)
  && is_relative_to (resolve w target) (resolve w base_dir).

(** ** I/O primitives

    Each primitive checks the state of the tree as the system call does, then
    either fails as [io_fault] says or emits its event. *)

Definition get_world : M world := gets id.

Definition failed (f : option fault) : bool := bool_decide (is_Some f).

(** Lone surrogates cannot be encoded as UTF-8. *)
Definition has_surrogate (c : pystr) : bool := existsb (in_range 55296 57343) c.

(** Reading in text mode turns [\r\n] and [\r] into [\n]. *)
Fixpoint universal_newlines (s : pystr) : pystr :=
  match s with
  | [] => []
  | c :: s' =>
      if c =? CR then
        LF :: match s' with
              | d :: s'' => if d =? LF then universal_newlines s'' else universal_newlines s'
              | [] => []
              end
      else c :: universal_newlines s'
  end.

Definition dir_nonempty (fs : fsmap) (k : key) : bool :=
  negb (bool_decide (filter (λ kv : key * node, k `prefix_of` kv.1 ∧ kv.1 ≠ k) fs = ∅)).

(** [os.mkdir(p)] *)
Definition os_mkdir (p : PurePath) : M unit :=
  f ← io_fault;
  w ← get_world;
  match last (abs_parts w p), locate w p with
  | None, _ => raise (OSError EEXIST)
  | Some _, inl e => raise (OSError e)
  | Some l, inr k =>
      if decide (l = DOTDOT) then raise (OSError EEXIST)
      else match node_at (files w) k with
           | Some _ => raise (OSError EEXIST)
           | None => if failed f then raise (OSError EIO) else emit (EvMkdir k)
           end
  end.

(** The second half of [Path.mkdir]: an [OSError] other than
    [FileNotFoundError] is dropped when the path is a directory. *)
Definition mkdir_exist_ok (p : PurePath) (e : exn) : M unit :=
  match e with
  | OSError _ => w ← get_world; if is_dir w p then ret tt else raise e
  | _ => raise e
  end.

(** [p.mkdir(exist_ok=True)] *)
Definition mkdir_one (p : PurePath) : M unit :=
  try_except (os_mkdir p)
    (λ e, match e with
          | OSError ENOENT => raise e
          | _ => mkdir_exist_ok p e
          end).

(** [p.mkdir(parents=True, exist_ok=True)]; the recursion on the parent is
    bounded by the number of components. *)
Fixpoint mkdir_p (fuel : nat) (p : PurePath) : M unit :=
  try_except (os_mkdir p)
    (λ e, match e with
          | OSError ENOENT =>
              if decide (path_parent p = p) then raise e
              else match fuel with
                   | O => raise e
                   | S fuel' => mkdir_p fuel' (path_parent p);; mkdir_one p
                   end
          | _ => mkdir_exist_ok p e
          end).

Definition mkdir_parents (p : PurePath) : M unit := mkdir_p (length (parts p)) p.

(** [p.write_text(content, encoding="utf-8")]: the file is opened, which
    empties it, before the text is encoded and written. *)
Definition write_text (p : PurePath) (content : pystr) : M unit :=
  f ← io_fault;
  w ← get_world;
  match last (abs_parts w p), locate w p with
  | None, _ => raise (OSError EISDIR)
  | Some _, inl e => raise (OSError e)
  | Some l, inr k =>
      if decide (l = DOTDOT) then raise (OSError EISDIR)
      else match node_at (files w) k with
           | Some Dir => raise (OSError EISDIR)
           | _ =>
               match f with
               | Some FailEarly => raise (OSError EIO)
               | Some (FailAfter n) =>
                   if has_surrogate content then emit (EvTorn k []);; raise ValueError
                   else emit (EvTorn k (take n content));; raise (OSError EIO)
               | None =>
                   if has_surrogate content then emit (EvTorn k []);; raise ValueError
                   else emit (EvWrite k content)
               end
           end
  end.

(** [p.read_text(encoding="utf-8")] *)
Definition read_text (p : PurePath) : M pystr :=
  f ← io_fault;
  w ← get_world;
  match stat w p with
  | inl e => raise (OSError e)
  | inr Dir => raise (OSError EISDIR)
  | inr (File c) => if failed f then raise (OSError EIO) else ret (universal_newlines c)
  end.

(** [src.replace(dst)], that is [os.replace] *)
Definition path_replace (src dst : PurePath) : M unit :=
  f ← io_fault;
  w ← get_world;
  match locate w src, locate w dst with
  | inl e, _ => raise (OSError e)
  | inr ks, inl e =>
      match node_at (files w) ks with
      | None => raise (OSError ENOENT)
      | Some _ => raise (OSError e)
      end
  | inr ks, inr kd =>
      match node_at (files w) ks with
      | None => raise (OSError ENOENT)
      | Some ns =>
          if decide (ks = kd) then ret tt
          else if decide (ks = [] ∨ kd = []) then raise (OSError EINVAL)
          else
            let go : M unit :=
              if failed f then raise (OSError EIO) else emit (EvRename ks kd) in
            match ns, node_at (files w) kd with
            | File _, Some Dir => raise (OSError EISDIR)
            | File _, _ => go
            | Dir, Some (File _) => raise (OSError ENOTDIR)
            | Dir, o =>
                if under ks kd then raise (OSError EINVAL)
                else match o with
                     | Some _ => if dir_nonempty (files w) kd
                                 then raise (OSError ENOTEMPTY) else go
                     | None => go
                     end
            end
      end
  end.

(** [shutil.copy(src, dst)]; returns the path written. *)
Definition shutil_copy (src dst : PurePath) : M PurePath :=
  f ← io_fault;
  w ← get_world;
  let dst := if is_dir w dst then joinpath dst (path_name src) else dst in
  match locate w src, stat w src with
  | inl e, _ | _, inl e => raise (OSError e)
  | inr ks, inr Dir => raise (OSError EISDIR)
  | inr ks, inr (File c) =>
      match last (abs_parts w dst), locate w dst with
      | None, _ => raise (OSError EISDIR)
      | Some _, inl e => raise (OSError e)
      | Some l, inr kd =>
          if decide (ks = kd) then raise ShutilError
          else if decide (l = DOTDOT) then raise (OSError EISDIR)
          else match node_at (files w) kd with
               | Some Dir => raise (OSError EISDIR)
               | _ => match f with
                      | Some FailEarly => raise (OSError EIO)
                      | Some (FailAfter n) =>
                          emit (EvTorn kd (take n c));; raise (OSError EIO)
                      | None => emit (EvCopy ks kd);; ret dst
                      end
               end
      end
  end.

(** [p.unlink()] *)
Definition path_unlink (p : PurePath) : M unit :=
  f ← io_fault;
  w ← get_world;
  match locate w p with
  | inl e => raise (OSError e)
  | inr k =>
      match node_at (files w) k with
      | None => raise (OSError ENOENT)
      | Some Dir => raise (OSError EISDIR)
      | Some (File _) => if failed f then raise (OSError EIO) else emit (EvUnlink k)
      end
  end.

(** [p.unlink(missing_ok=True)] *)
Definition unlink_missing_ok (p : PurePath) : M unit :=
  try_except (path_unlink p)
    (λ e, match e with OSError ENOENT => ret tt | _ => raise e end).

(** [shutil.move(src, dst)] inside one file system: a rename into [dst], or
    into [dst/name] when [dst] is a directory.  When the rename fails the
    library copies a regular file and removes the source; its fallback for a
    directory tree is not modelled and the error is raised. *)
Definition shutil_move (src dst : PurePath) : M unit :=
  w ← get_world;
  real_dst ←
    (if is_dir w dst then
       if bool_decide (locate w src = locate w dst) then ret dst
       else let d := joinpath dst (path_name src) in
            if path_exists w d then raise ShutilError else ret d
     else ret dst);
  try_except (path_replace src real_dst)
    (λ e, match e with
          | OSError _ =>
              w ← get_world;
              if is_dir w src then raise e
              else shutil_copy src real_dst;; path_unlink src
          | _ => raise e
          end).

(** ** Configuration and helpers *)

Definition KEEP_BACKUPS : bool := false.
Definition ATOMIC_WRITE : bool := true.
Definition ALLOWED_FILE_EXTENSIONS : list pystr :=
  [u ".py"; u ".js"; u ".json"; u ".md"; u ".txt"; []].

Definition ensure_parent_dir (path : PurePath) : M unit :=
  mkdir_parents (path_parent path).

Definition atomic_write (path : PurePath) (content : pystr) : M unit :=
  ensure_parent_dir path;;
  if negb ATOMIC_WRITE then write_text path content
  else
    tmp ← lift (with_suffix path (path_suffix path ++ u ".tmp"));
    write_text tmp content;;
    path_replace tmp path.

(** Returns the path of the backup, [None] when there is nothing to back up
    or the copy failed. *)
Definition make_timestamped_backup (path : PurePath) : M (option PurePath) :=
  w ← get_world;
  if negb (path_exists w path) then ret None
  else
    backup ← lift (with_name path (path_name path ++ u ".bak." ++ now w));
    try_except (shutil_copy path backup;; ret (Some backup)) (λ _, ret None).

Definition remove_file_safe (path : PurePath) : M unit :=
  try_except (path_unlink path) (λ _, ret tt).

(** [if backup and not KEEP_BACKUPS: try: backup.unlink(missing_ok=True)
    except Exception: pass] *)
Definition discard_backup (backup : option PurePath) : M unit :=
  match backup with
  | Some b => if negb KEEP_BACKUPS
              then try_except (unlink_missing_ok b) (λ _, ret tt)
              else ret tt
  | None => ret tt
  end.

(** [if backup and backup.exists(): shutil.copy(str(backup), str(target))] *)
Definition restore_backup (backup : option PurePath) (target : PurePath) : M unit :=
  match backup with
  | Some b => w ← get_world;
              if path_exists w b then shutil_copy b target;; ret tt else ret tt
  | None => ret tt
  end.

(** The sanitation every handler applies to content it received. *)
Definition sanitize (content : pystr) : pystr :=
  let content := _normalize_content_for_writing_from_fence (Some content) in
  if _content_has_command_lines (Some content)
  then _strip_command_lines (Some content) else content.

(** [_strip_command_lines] applied when [_content_has_command_lines] holds,
    without the fence normalisation. *)
Definition strip_if_commands (text : pystr) : pystr :=
  if _content_has_command_lines (Some text)
  then _strip_command_lines (Some text) else text.

(** ** The sandbox *)

(** [candidate.exists()] is [False] on a path that cannot be encoded, so such
    a candidate is not resolved and [path_in_sandbox] refuses it. *)
Definition _safe_target (base_dir : PurePath) (ai_path : pystr) : M PurePath :=
  let original := strip_chars [SQUOTE] (strip_chars [DQUOTE] (strip ai_path)) in
  let p := str_replace [BACKSLASH] [SLASH] original in
  let candidate :=
    if negb (startswith [SLASH] p) then joinpath base_dir p
    else joinpath base_dir (lstrip_chars [SLASH; BACKSLASH] p) in
  w ← get_world;
  let candidate :=
    if fs_encodable (abs_parts w candidate) && path_exists w candidate
    then resolve w candidate else candidate in
  if negb (path_in_sandbox w candidate base_dir) then raise (PermissionError ai_path)
  else ret candidate.

(** ** Command handlers *)

Section Handlers.
Context `{UD : UnicodeData}.

Definition handle_create_folder (args : list pystr) (base_dir : PurePath) : M unit :=
  match args with
  | [] => ret tt
  | folder_name :: _ =>
      target ← _safe_target base_dir folder_name;
      mkdir_parents target
  end.

(** The target and the content [handle_create_file] computes from its
    arguments; the content is [None] when no argument holds a line feed. *)
Definition create_file_plan (w : world) (args : list pystr) (base_dir : PurePath)
    : PurePath * option pystr :=
  match args with
  | [] => (base_dir, None)
  | name :: rest =>
      let target := joinpath base_dir name in
      match rest with
      | [] => (target, None)
      | second :: rest' =>
          if bool_decide (LF ∈ second) then (target, Some (join [LF] rest))
          else
            let mapped := joinpath base_dir second in
            let target :=
              if endswith [SLASH] second || endswith [BACKSLASH] second || is_dir w mapped
              then joinpath mapped name
              else match path_suffix mapped with
                   | [] => joinpath mapped name
                   | _ => mapped
                   end in
            match rest' with
            | third :: _ =>
                if bool_decide (LF ∈ third) then (target, Some (join [LF] rest'))
                else (target, None)
            | [] => (target, None)
            end
      end
  end.

Definition handle_create_file (args : list pystr) (base_dir : PurePath) : M unit :=
  match args with
  | [] => ret tt
  | _ =>
      w ← get_world;
      let '(target, content) := create_file_plan w args base_dir in
      if negb (path_in_sandbox w target base_dir) then ret tt
      else
        ensure_parent_dir target;;
        match content with
        | None =>
            w ← get_world;
            if negb (path_exists w target) then atomic_write target [] else ret tt
        | Some content =>
            let content := sanitize content in
            match content with
            | [] => ret tt
            | _ =>
                if negb (bool_decide (path_suffix target ∈ ALLOWED_FILE_EXTENSIONS))
                then ret tt
                else
                  w ← get_world;
                  backup ← (if path_exists w target
                            then make_timestamped_backup target else ret None);
                  try_except (atomic_write target content;; discard_backup backup)
                             (λ _, ret tt)
            end
        end
  end.

(** [content_parts]/[content] of [handle_set] and [handle_append]; [rest] is
    [args[1:]]. *)
Definition content_of_args (rest : list pystr) : pystr :=
  match filter (λ a, LF ∈ a) rest with
  | [] => join [SPACE] rest
  | content_parts => join [LF] content_parts
  end.

Definition handle_set (args : list pystr) (base_dir : PurePath) : M unit :=
  match args with
  | [] => ret tt
  | first :: rest =>
      if bool_decide (first = u "line") then
        match rest with
        | num :: path_arg :: ((_ :: _) as texts) =>
            match py_int num with
            | None => ret tt
            | Some line_num =>
                let new_line := join [SPACE] texts in
                target ← _safe_target base_dir path_arg;
                ensure_parent_dir target;;
                w ← get_world;
                (if negb (path_exists w target) then write_text target [] else ret tt);;
                backup ← make_timestamped_backup target;
                text ← read_text target;
                let new_text := set_line_text text line_num new_line in
                try_except (atomic_write target new_text;; discard_backup backup)
                           (λ _, restore_backup backup target)
            end
        | _ => ret tt
        end
      else
        let content := content_of_args rest in
        target ← _safe_target base_dir first;
        ensure_parent_dir target;;
        w ← get_world;
        backup ← (if path_exists w target then make_timestamped_backup target else ret None);
        let content := sanitize content in
        w ← get_world;
        if bool_decide (content = []) && path_exists w target then ret tt
        else
          try_except (atomic_write target content;; discard_backup backup)
                     (λ _, restore_backup backup target)
  end.

Definition handle_append (args : list pystr) (base_dir : PurePath) : M unit :=
  match args with
  | [] => ret tt
  | path_arg :: rest =>
      let content := content_of_args rest in
      target ← _safe_target base_dir path_arg;
      ensure_parent_dir target;;
      let content := sanitize content in
      match content with
      | [] => ret tt
      | _ =>
          try_except
            (w ← get_world;
             existing ← (if path_exists w target then read_text target else ret []);
             atomic_write target (existing ++ content))
            (λ _, ret tt)
      end
  end.

Definition handle_replace (args : list pystr) (base_dir : PurePath) : M unit :=
  match args with
  | path_arg :: old :: ((_ :: _) as news) =>
      let new := join [SPACE] news in
      target ← _safe_target base_dir path_arg;
      w ← get_world;
      if negb (path_exists w target) then ret tt
      else
        let old_n := _normalize_content_for_writing_from_fence (Some old) in
        let new_n := _normalize_content_for_writing_from_fence (Some new) in
        backup ← make_timestamped_backup target;
        try_except
          (text ← read_text target;
           let new_text := strip_if_commands (str_replace old_n new_n text) in
           atomic_write target new_text;;
           discard_backup backup)
          (λ _, restore_backup backup target)
  | _ => ret tt
  end.

Definition handle_delete_file (args : list pystr) (base_dir : PurePath) : M unit :=
  match args with
  | [] => ret tt
  | path_arg :: _ =>
      target ← _safe_target base_dir path_arg;
      w ← get_world;
      if path_exists w target && is_file w target then
        make_timestamped_backup target;;
        remove_file_safe target
      else ret tt
  end.

Definition handle_delete_folder (args : list pystr) (base_dir : PurePath) : M unit :=
  match args with
  | [] => ret tt
  | path_arg :: _ =>
      target ← _safe_target base_dir path_arg;
      w ← get_world;
      if path_exists w target && is_dir w target then
        let trash := joinpath base_dir (u ".trash") in
        mkdir_one trash;;
        w ← get_world;
        let dest := joinpath trash (path_name target ++ u ".deleted." ++ now w) in
        try_except (shutil_move target dest) (λ _, ret tt)
      else ret tt
  end.

Definition handle_remove_line (args : list pystr) (base_dir : PurePath) : M unit :=
  match args with
  | num :: path_arg :: _ =>
      match py_int num with
      | None => ret tt
      | Some line_num =>
          target ← _safe_target base_dir path_arg;
          w ← get_world;
          if negb (path_exists w target) then ret tt
          else
            backup ← make_timestamped_backup target;
            try_except
              (text ← read_text target;
               match remove_line_text text line_num with
               | Some new_text => atomic_write target new_text
               | None => ret tt
               end)
              (λ _, restore_backup backup target)
      end
  | _ => ret tt
  end.

Definition handle_move_file (args : list pystr) (base_dir : PurePath) : M unit :=
  match args with
  | src_arg :: dst_arg :: _ =>
      src ← _safe_target base_dir src_arg;
      dst ← _safe_target base_dir dst_arg;
      w ← get_world;
      if negb (path_exists w src) then ret tt
      else
        ensure_parent_dir dst;;
        try_except
          (backup ← make_timestamped_backup src;
           shutil_move src dst;;
           discard_backup backup)
          (λ _, ret tt)
  | _ => ret tt
  end.

Definition handle_copy_file (args : list pystr) (base_dir : PurePath) : M unit :=
  match args with
  | [] => ret tt
  | path_arg :: _ =>
      src ← _safe_target base_dir path_arg;
      w ← get_world;
      if negb (path_exists w src) || negb (is_file w src) then ret tt
      else
        try_except
          (content ← read_text src;
           set_clipboard (Some content, Some src))
          (λ _, ret tt)
  end.

Definition handle_paste_file (args : list pystr) (base_dir : PurePath) : M unit :=
  match args with
  | [] => ret tt
  | path_arg :: _ =>
      w ← get_world;
      match (clipboard w).1 with
      | None | Some [] => ret tt
      | Some (_ :: _) =>
          dst ← _safe_target base_dir path_arg;
          ensure_parent_dir dst;;
          if negb (bool_decide (path_suffix dst ∈ ALLOWED_FILE_EXTENSIONS)) then ret tt
          else
            w ← get_world;
            backup ← (if path_exists w dst then make_timestamped_backup dst else ret None);
            try_except
              (w ← get_world;
               atomic_write dst (default [] (clipboard w).1);;
               discard_backup backup)
              (λ _, restore_backup backup dst)
      end
  end.

Definition handle_patch (args : list pystr) (base_dir : PurePath) : M unit :=
  match args with
  | path_arg :: ((_ :: _) as rest) =>
      let patches := join [LF] rest in
      target ← _safe_target base_dir path_arg;
      w ← get_world;
      if negb (path_exists w target) then ret tt
      else
        backup ← make_timestamped_backup target;
        try_except
          (text ← read_text target;
           let new_text := strip_if_commands (patch_text text patches) in
           atomic_write target new_text;;
           discard_backup backup)
          (λ _, restore_backup backup target)
  | _ => ret tt
  end.

(** [COMMAND_HANDLERS] without [cmd], which runs an external process and
    takes no path. *)
Definition COMMAND_HANDLERS : list (pystr * (list pystr → PurePath → M unit)) :=
  [ (u "create_folder", handle_create_folder);
    (u "create_file", handle_create_file);
    (u "create_script", handle_create_file);
    (u "screate_script", handle_create_file);
    (u "set", handle_set);
    (u "append", handle_append);
    (u "replace", handle_replace);
    (u "delete_file", handle_delete_file);
    (u "delete_folder", handle_delete_folder);
    (u "remove_line", handle_remove_line);
    (u "move_file", handle_move_file);
    (u "copy_file", handle_copy_file);
    (u "paste_file", handle_paste_file);
    (u "patch", handle_patch) ].

End Handlers.

(** ** Task queue and reprocessing state *)

(** A queued call: the command whose handler was looked up, its arguments and
    the base directory. *)
Record task := Task { t_cmd : pystr; t_args : list pystr; t_base : PurePath }.

(** One entry of the state: [hashes] maps [str(idx)] to a digest. *)
Record entry := Entry { hashes : gmap string (list N); last_mtime : N }.

(** [state] is the dictionary the driver keeps in memory, [saved] the content
    of the state file, [queue] the tasks put on [_task_queue] so far. *)
Record pstate := PState {
  state : gmap (list (list N)) entry;
  saved : gmap (list (list N)) entry;
  queue : list task;
}.

Definition ASSISTANT_ROLES : list pystr :=
  [u "assistant"; u "system"; u "bot"; u "model"].

Section Processing.
Context `{UD : UnicodeData}.
(** The message type with [extract_text_from_message] (role, content), the
    digest [sha256_hex] and the command names of [COMMAND_HANDLERS] once the
    plugins are loaded. *)
Context {Msg : Type} (extract_text_from_message : Msg → pystr * pystr).
Context (sha256_hex : pystr → list N).
Context (registry : list pystr).

(** The tasks [process_assistant_message_text] puts on the queue. *)
Definition process_assistant_message_text (text : pystr) (base_dir : PurePath)
    : list task :=
  omap (λ '(cmd, args),
          if bool_decide (cmd ∈ registry) then Some (Task cmd args base_dir) else None)
       (find_commands_in_text text).

(** One iteration of the loop over [enumerate(messages)]: the digests, the
    flag [updated] and the queue. *)
Definition process_message (base_dir : PurePath) (idx : nat) (msg : Msg)
    (acc : gmap string (list N) * bool * list task)
    : gmap string (list N) * bool * list task :=
  let '(hs, updated, q) := acc in
  let '(role, content) := extract_text_from_message msg in
  if negb (bool_decide (role ∈ ASSISTANT_ROLES)) then
    (<[pretty idx := sha256_hex content]> hs, updated, q)
  else
    let fp := sha256_hex content in
    let prev_fp := hs !! pretty idx in
    if bool_decide (prev_fp = Some fp) then (hs, updated, q)
    else
      let q := match content with
               | [] => q
               | _ => q ++ process_assistant_message_text content base_dir
               end in
      (<[pretty idx := fp]> hs, true, q).

Fixpoint process_messages (base_dir : PurePath) (idx : nat) (msgs : list Msg)
    (acc : gmap string (list N) * bool * list task)
    : gmap string (list N) * bool * list task :=
  match msgs with
  | [] => acc
  | msg :: msgs' =>
      process_messages base_dir (S idx) msgs' (process_message base_dir idx msg acc)
  end.

(** [process_updates_for_file] for the conversation stored under [key];
    [messages] is [None] when the file cannot be read as JSON or holds no list
    of messages.  The dictionary [hashes] is the one stored in [state] when
    the conversation has an entry, so what the loop writes into it is seen
    there even when [updated] stays false. *)
Definition process_updates_for_file (key : list (list N)) (messages : option (list Msg))
    (base_dir : PurePath) (mtime : N) (s : pstate) : pstate :=
  match messages with
  | None => s
  | Some msgs =>
      let hs := match state s !! key with Some e => hashes e | None => ∅ end in
      let '(hs', updated, q) := process_messages base_dir 0 msgs (hs, false, queue s) in
      if updated then
        let st := <[key := Entry hs' mtime]> (state s) in
        PState st st q
      else
        let st := match state s !! key with
                  | Some e => <[key := Entry hs' (last_mtime e)]> (state s)
                  | None => state s
                  end in
        PState st (saved s) q
  end.

End Processing.

(** ** Notions used in the statements *)

(** A line without line boundary, as [str.splitlines] returns them. *)
Definition line_clean (ln : pystr) : Prop := Forall (λ c, is_linebreak c = false) ln.

(** The list without its last element when that is the empty line. *)
Definition drop_trailing_empty (ls : list pystr) : list pystr :=
  match last ls with
  | Some [] => removelast ls
  | _ => ls
  end.

(** The text without its final line feed, when it has one. *)
Definition chomp (t : pystr) : pystr :=
  if endswith [LF] t then removelast t else t.

(** The lines [_strip_command_lines] keeps. *)
Definition kept_lines (s : pystr) : list pystr :=
  filter (λ ln, command_line_match ln = false) (splitlines s).

(** Index [m] starts a line of [text]: it is the first index or follows a
    line feed or a carriage return. *)
Definition line_leading (text : pystr) (m : nat) : Prop :=
  m = 0%nat ∨ text !! (m - 1)%nat = Some LF ∨ text !! (m - 1)%nat = Some CR.

Global Instance line_leading_dec text m : Decision (line_leading text m).
Proof. unfold line_leading. apply _. Defined.

(** The region of a command starts at a slash that starts a line and is
    followed by a command name, and ends at the end of the text or at a
    slash. *)
Definition span_ok `{UD : UnicodeData} (text : pystr) (s : span) : Prop :=
  text !! sp_start s = Some SLASH
  ∧ line_leading text (sp_start s)
  ∧ command_name_match (drop (sp_start s) text) = Some (sp_name s)
  ∧ (sp_start s < sp_end s ≤ length text)%nat
  ∧ (sp_end s = length text ∨ text !! sp_end s = Some SLASH).

(** The regions follow one another from index [i] on without overlap. *)
Fixpoint spans_ordered (i : nat) (l : list span) : Prop :=
  match l with
  | [] => True
  | s :: l' => (i ≤ sp_start s)%nat ∧ spans_ordered (sp_end s) l'
  end.

(** What C5 states about the end of a region: the end of the text or a
    slash that starts a line. *)
Definition stops_at_line_start (text : pystr) (s : span) : Prop :=
  sp_end s = length text
  ∨ (text !! sp_end s = Some SLASH ∧ line_leading text (sp_end s)).

Global Instance stops_at_line_start_dec text s : Decision (stops_at_line_start text s).
Proof. unfold stops_at_line_start. apply _. Defined.

(** Where the last region of [l] ends; [i] when there is none. *)
Definition last_end (i : nat) (l : list span) : nat :=
  match last l with Some s => sp_end s | None => i end.

(** A conversation directory [/conv] holding [f.txt] with the three lines
    [a], [b], [c]; no fault is scheduled. *)
Definition example_world : world :=
  World (<[ [u "conv"] := Dir ]>
         (<[ [u "conv"; u "f.txt"] := File (u "a
b
c
") ]> ∅))
        [] (u "20240101000000") [] (None, None) [].

Definition example_base : PurePath := parse_path (u "/conv").

(** The content of the regular file stored under [k]. *)
Definition file_content (w : world) (k : list (list N)) : option pystr :=
  match files w !! k with
  | Some (File c) => Some c
  | _ => None
  end.

(** Every message of [msgs], numbered from [idx], has its digest in [hs]. *)
Definition fingerprints_recorded {Msg} (extract : Msg → pystr * pystr)
    (sha : pystr → list N) (hs : gmap string (list N)) (idx : nat) (msgs : list Msg)
    : Prop :=
  ∀ k msg, msgs !! k = Some msg → hs !! pretty (idx + k)%nat = Some (sha (extract msg).2).

(** The events a run added to the trace. *)
Definition new_events (w w' : world) : list event :=
  drop (length (trace w)) (trace w').

(** [m] only adds events that satisfy [P], in every world. *)
Definition emits {A} (P : event → Prop) (m : M A) : Prop :=
  ∀ w, ∃ evs, trace (m w).2 = trace w ++ evs ∧ Forall P evs.

Definition is_mkdir (e : event) : Prop :=
  match e with EvMkdir _ => True | _ => False end.

(** A completed write holds no command line. *)
Definition clean_write (e : event) : Prop :=
  match e with
  | EvWrite _ c => _content_has_command_lines (Some c) = false
  | _ => True
  end.

Definition no_write (e : event) : Prop :=
  match e with EvWrite _ _ => False | _ => True end.

(** A completed write holds [existing ++ added] for some [existing]. *)
Definition appends (added : pystr) (e : event) : Prop :=
  match e with
  | EvWrite _ c => ∃ existing, c = existing ++ added
  | _ => True
  end.

(** [example_world] with a file [src.txt] that holds the line [/rm -rf]. *)
Definition example_world_rm : world :=
  World (<[ [u "conv"; u "src.txt"] := File (u "/rm -rf
") ]> (files example_world))
        [] (u "20240101000000") [] (None, None) [].

(** The path [_safe_target] forms from its input before it resolves it. *)
Definition sandbox_candidate (base_dir : PurePath) (ai_path : pystr) : PurePath :=
  let original := strip_chars [SQUOTE] (strip_chars [DQUOTE] (strip ai_path)) in
  let p := str_replace [BACKSLASH] [SLASH] original in
  if negb (startswith [SLASH] p) then joinpath base_dir p
  else joinpath base_dir (lstrip_chars [SLASH; BACKSLASH] p).


(** Every directory on the way to [k], and [k] itself, is a directory of
    [fs]. *)
Definition dirs_ok (fs : gmap (list (list N)) node) (k : list (list N)) : Prop :=
  ∀ p, p `prefix_of` k → p ≠ [] → fs !! p = Some Dir.

(** [fs'] keeps every entry of [fs]. *)
Definition fs_grows (fs fs' : gmap (list (list N)) node) : Prop :=
  ∀ k n, fs !! k = Some n → fs' !! k = Some n.

(** [fs'] keeps every directory of [fs]. *)
Definition fs_ext (fs fs' : gmap (list (list N)) node) : Prop :=
  ∀ k, fs !! k = Some Dir → fs' !! k = Some Dir.

(** The content of the regular file a path leads to. *)
Definition read_path (w : world) (p : PurePath) : option pystr :=
  match stat w p with
  | inr (File c) => Some c
  | _ => None
  end.

(** [w'] keeps every entry of the tree of [w], its working directory, its
    clock and its clipboard. *)
Definition world_grows (w w' : world) : Prop :=
  fs_grows (files w) (files w') ∧ cwd w' = cwd w ∧ now w' = now w
  ∧ clipboard w' = clipboard w.

(** [m] leaves a world related by [R] to the one it started in. *)
Definition preserves {A} (R : world → world → Prop) (m : M A) : Prop :=
  ∀ w, R w (m w).2.

(** The world after some I/O calls: the tree is [fs], [n] entries of the
    fault schedule are used up and [evs] is added to the trace. *)
Definition step_world (w : world) (fs : gmap (list (list N)) node)
    (evs : list event) (n : nat) : world :=
  World fs (cwd w) (now w) (drop n (faults w)) (clipboard w) (trace w ++ evs).

(** What the schedule holds for the I/O call number [i] from now. *)
Definition fault_at (w : world) (i : nat) : option fault :=
  default None (faults w !! i).

(** The world with the next entry of the schedule used up. *)
Definition pop_fault (w : world) : world := step_world w (files w) [] 1.

(** [target] names the entry [l] of the directory [d]: its components but
    the last lead to [d] and the last one is the name [l], which holds no
    slash. *)
Definition sited (fs : gmap (list (list N)) node) (cw : list (list N))
    (target : PurePath) (d : list (list N)) (l : pystr) : Prop :=
  ∃ ps, parts target = ps ++ [l] ∧ l ≠ DOTDOT ∧ l ≠ [] ∧ (SLASH ∉ l)
        ∧ walk_dirs fs [] (if anchored target then ps else cw ++ ps) = inr d.

(** The target is the regular file [l] of the directory [d] and holds [c0];
    no entry of [d] has the name of its temporary sibling or of its backup,
    and the clock gives a time stamp without slash. *)
Definition ready (w : world) (target : PurePath) (d : list (list N)) (l c0 : pystr)
    : Prop :=
  sited (files w) (cwd w) target d l
  ∧ files w !! (d ++ [l]) = Some (File c0)
  ∧ files w !! (d ++ [l ++ u ".tmp"]) = None
  ∧ files w !! (d ++ [l ++ u ".bak." ++ now w]) = None
  ∧ (SLASH ∉ now w).

(** [/conv/f.txt] holds the two lines [a] and [b]. *)
Definition example_world_two : world :=
  World (<[ [u "conv"] := Dir ]>
         (<[ [u "conv"; u "f.txt"] := File (u "a
b
") ]> ∅))
        [] (u "20240101000000") [] (None, None) [].

(** The regular files of [w'] are those of [w], with the same content. *)
Definition same_files (w w' : world) : Prop :=
  ∀ k, file_content w' k = file_content w k.

(** An event that writes to the file [k]. *)
Definition writes_to (k : list (list N)) (e : event) : Prop :=
  match e with
  | EvWrite k' _ | EvTorn k' _ => k' = k
  | _ => False
  end.

(** No file is copied: neither a backup is made nor one restored. *)
Definition no_copy (e : event) : Prop :=
  match e with EvCopy _ _ => False | _ => True end.

(** The guarded write step of set, replace, patch and paste_file:
    [try: atomic_write(target, new); discard the backup
     except Exception: restore the backup]. *)
Definition write_or_restore (backup : option PurePath) (target : PurePath)
    (new : pystr) : M unit :=
  try_except (atomic_write target new;; discard_backup backup)
             (λ _, restore_backup backup target).

(** The run [h] in [w] follows the protocol for the regular file [l] of the
    directory [d], which holds [c0], and the new content [new]; the write of
    the temporary file is the I/O call number [i] of the run.  Without a
    fault: the backup, the write of the temporary file, the rename over the
    target, the removal of the backup, and nothing but the target has
    changed.  When the write of the temporary file or the rename is the one
    call that fails: the backup, what the write left in the temporary file,
    the copy of the backup over the target, which holds [c0], as the backup
    does. *)
Definition follows_protocol (h : M unit) (w : world) (d : list (list N))
    (l new c0 : pystr) (i : nat) : Prop :=
  let K := d ++ [l] in
  let kb := d ++ [l ++ u ".bak." ++ now w] in
  let kt := d ++ [l ++ u ".tmp"] in
  (faults w = [] →
     ∃ w', h w = (Ok tt, w')
       ∧ new_events w w' = [EvCopy K kb; EvWrite kt new; EvRename kt K; EvUnlink kb]
       ∧ files w' = <[K := File new]> (files w))
  ∧ (∀ j f, j = i ∨ j = S i → faults w = replicate j None ++ [Some f] →
     ∃ w' evs, h w = (Ok tt, w')
       ∧ new_events w w' = EvCopy K kb :: evs ++ [EvCopy kb K]
       ∧ Forall (writes_to kt) evs
       ∧ file_content w' K = Some c0
       ∧ file_content w' kb = Some c0).

(** The run [h] in [w] makes the backup of the regular file [l] of the
    directory [d] and does not restore it: when the write of the temporary
    file (the I/O call number [i]) or the rename is the one call that fails,
    the run ends after what the write left in the temporary file; the target
    holds [c0], as the backup does. *)
Definition backup_not_restored (h : M unit) (w : world) (d : list (list N))
    (l c0 : pystr) (i : nat) : Prop :=
  let K := d ++ [l] in
  let kb := d ++ [l ++ u ".bak." ++ now w] in
  let kt := d ++ [l ++ u ".tmp"] in
  ∀ j f, j = i ∨ j = S i → faults w = replicate j None ++ [Some f] →
    ∃ w' evs, h w = (Ok tt, w')
      ∧ new_events w w' = EvCopy K kb :: evs
      ∧ Forall (writes_to kt) evs
      ∧ file_content w' K = Some c0
      ∧ file_content w' kb = Some c0.

(** [example_world] with a schedule on which the fourth I/O call, a write,
    stops after one character. *)
Definition example_world_torn : world :=
  World (files example_world) (cwd example_world) (now example_world)
        [None; None; None; Some (FailAfter 1)] (None, None) [].

(** ** Quoted arguments

    The text a caller writes to pass [s] as one quoted argument: a backslash
    before every backslash and every [quote] character of [s].  The
    tokenizer has no function of this kind; [escape] is the encoding its
    quoted-string loop inverts. *)
Definition escape (quote : N) (s : pystr) : pystr :=
  flat_map (λ c, if (c =? BACKSLASH) || (c =? quote) then [BACKSLASH; c] else [c]) s.

(** A space and the quoted form of each argument. *)
Definition quoted_args (quote : N) (args : list pystr) : pystr :=
  flat_map (λ a, [SPACE; quote] ++ escape quote a ++ [quote]) args.

(** Some slash of [text] starts a line. *)
Definition has_line_leading_slash (text : pystr) : bool :=
  bool_decide (Exists (λ m, text !! m = Some SLASH ∧ line_leading text m)
                      (seq 0 (length text))).

(** ** Further statement-level notions *)

(** The target is the regular file [l] of the directory [d], holds [c0] and
    can be backed up: no entry of [d] has the name of the backup and the time
    stamp holds no slash. *)
Definition can_back_up (w : world) (target : PurePath) (d : list (list N))
    (l c0 : pystr) : Prop :=
  sited (files w) (cwd w) target d l
  ∧ files w !! (d ++ [l]) = Some (File c0)
  ∧ files w !! (d ++ [l ++ u ".bak." ++ now w]) = None
  ∧ (SLASH ∉ now w).

(** [target] names the entry [l] of the existing directory [d], and no entry
    of [d] has that name or the name of its temporary sibling. *)
Definition can_create (w : world) (target : PurePath) (d : list (list N))
    (l : pystr) : Prop :=
  sited (files w) (cwd w) target d l
  ∧ files w !! (d ++ [l]) = None
  ∧ files w !! (d ++ [l ++ u ".tmp"]) = None.

(** The relative path [_safe_target] joins to the base directory: the input
    without surrounding whitespace and quotes, backslashes turned into
    slashes, and leading slashes dropped. *)
Definition sandbox_relative (ai_path : pystr) : pystr :=
  let original := strip_chars [SQUOTE] (strip_chars [DQUOTE] (strip ai_path)) in
  let p := str_replace [BACKSLASH] [SLASH] original in
  if negb (startswith [SLASH] p) then p else lstrip_chars [SLASH; BACKSLASH] p.

(** The directory [target], entry [l] of the directory [d], can go to the
    trash of the base directory, whose key is [B]: the trash is a directory
    or does not exist, the target is neither the trash nor above it, the
    trash has no entry of the name the target gets there, and the time stamp
    holds no slash. *)
Definition can_trash (w : world) (base_dir target : PurePath)
    (B d : list (list N)) (l : pystr) : Prop :=
  sited (files w) (cwd w) target d l
  ∧ files w !! (d ++ [l]) = Some Dir
  ∧ walk_dirs (files w) []
      (if anchored base_dir then parts base_dir else cwd w ++ parts base_dir) = inr B
  ∧ (files w !! (B ++ [u ".trash"]) = None ∨ files w !! (B ++ [u ".trash"]) = Some Dir)
  ∧ ¬ (d ++ [l]) `prefix_of` (B ++ [u ".trash"])
  ∧ files w !! (B ++ [u ".trash"; l ++ u ".deleted." ++ now w]) = None
  ∧ (SLASH ∉ now w).

(** [example_world] with a directory [/conv/old] that holds [x.txt]. *)
Definition example_world_dir : world :=
  World (<[ [u "conv"; u "old"] := Dir ]>
         (<[ [u "conv"; u "old"; u "x.txt"] := File (u "x") ]> (files example_world)))
        [] (u "20240101000000") [] (None, None) [].

(** What a copy leaves of the content [c] at [kd] when the fault [f] stops
    it: nothing when it fails at once, the first [n] characters otherwise. *)
Definition torn_copy (f : fault) (kd : list (list N)) (c : pystr) : list event :=
  match f with
  | FailEarly => []
  | FailAfter n => [EvTorn kd (take n c)]
  end.

Definition torn_content (f : fault) (c : pystr) : option pystr :=
  match f with
  | FailEarly => None
  | FailAfter n => Some (take n c)
  end.

(** [example_world] with a schedule on which the first I/O call fails at
    once. *)
Definition example_world_fail_first : world :=
  World (files example_world) (cwd example_world) (now example_world)
        [Some FailEarly] (None, None) [].

(** A completed write holds exactly [t]. *)
Definition writes_text (t : pystr) (e : event) : Prop :=
  match e with
  | EvWrite _ c => c = t
  | _ => True
  end.

(** In the world [w], [m] only adds events that satisfy [P]. *)
Definition emits_from {A} (P : event → Prop) (m : M A) (w : world) : Prop :=
  ∃ evs, trace (m w).2 = trace w ++ evs ∧ Forall P evs.

(** [w'] has the clipboard of [w]. *)
Definition same_clipboard (w w' : world) : Prop := clipboard w' = clipboard w.

(** [example_world] with a schedule on which the fourth I/O call, a write,
    fails at once and the fifth, a copy, stops before its first character. *)
Definition example_world_two_faults : world :=
  World (files example_world) (cwd example_world) (now example_world)
        [None; None; None; Some FailEarly; Some (FailAfter 0)] (None, None) [].

(** ** [/cmd]: the whitelist

    [handle_cmd] joins its arguments with spaces, strips the result and
    matches it against the two patterns of [CMD_WHITELIST_PATTERNS]; only a
    command line that matches one of them is split and run.  The patterns
    are matched here piece by piece.  No piece ever has to give characters
    back: the optional [3] is followed by whitespace, each run of whitespace
    by a character that is no whitespace, and the run of package characters
    by the end of the text or an equals sign, which is no package
    character. *)

(** [[A-Za-z0-9_.\-\[\]\(\)]] *)
Definition pkg_char (c : N) : bool :=
  ascii_alpha c || ascii_digit c || (c =? UNDERSCORE) || (c =? DOT) || (c =? MINUS)
  || (c =? 91) || (c =? 93) || (c =? 40) || (c =? 41).

(** [[0-9A-Za-z.+-]] *)
Definition ver_char (c : N) : bool :=
  ascii_digit c || ascii_alpha c || (c =? DOT) || (c =? PLUS) || (c =? MINUS).

(** A literal at the start of [s]; returns what follows it. *)
Definition eat (lit s : pystr) : option pystr :=
  if startswith lit s then Some (drop (length lit) s) else None.

(** An optional character, as in [(?:3)?]. *)
Definition eat_opt (c : N) (s : pystr) : pystr :=
  match s with
  | x :: s' => if x =? c then s' else s
  | [] => s
  end.

(** [\s+] *)
Definition eat_spaces (s : pystr) : option pystr :=
  match s with
  | c :: s' => if isspace c then Some (lstrip s') else None
  | [] => None
  end.

(** The dollar of a pattern without flags: the end of the text, or a line
    feed that ends it. *)
Definition at_end (s : pystr) : bool := bool_decide (s = []) || bool_decide (s = [LF]).

(** The tail of both patterns: package characters, then optionally two
    equals signs and version characters, then the end. *)
Definition match_package (s : pystr) : bool :=
  let name := takewhile pkg_char s in
  let rest := drop (length name) s in
  match name with
  | [] => false
  | _ =>
      at_end rest
      || match eat [61; 61] rest with
         | Some r =>
             let ver := takewhile ver_char r in
             match ver with
             | [] => false
             | _ => at_end (drop (length ver) r)
             end
         | None => false
         end
  end.

(** The first pattern: [pip] or [pip3], [install], a package. *)
Definition match_pip (s : pystr) : bool :=
  match eat (u "pip") s with
  | Some r =>
      match eat_spaces (eat_opt 51 r) with
      | Some r =>
          match eat (u "install") r with
          | Some r => match eat_spaces r with
                      | Some r => match_package r
                      | None => false
                      end
          | None => false
          end
      | None => false
      end
  | None => false
  end.

(** The second pattern: [python] or [python3], [-m], [pip], [install], a
    package. *)
Definition match_python_pip (s : pystr) : bool :=
  match eat (u "python") s with
  | Some r =>
      match eat_spaces (eat_opt 51 r) with
      | Some r =>
          match eat (u "-m") r with
          | Some r =>
              match eat_spaces r with
              | Some r =>
                  match eat (u "pip") r with
                  | Some r =>
                      match eat_spaces r with
                      | Some r =>
                          match eat (u "install") r with
                          | Some r => match eat_spaces r with
                                      | Some r => match_package r
                                      | None => false
                                      end
                          | None => false
                          end
                      | None => false
                      end
                  | None => false
                  end
              | None => false
              end
          | None => false
          end
      | None => false
      end
  | None => false
  end.

(** The loop over [CMD_WHITELIST_PATTERNS]. *)
Definition cmd_allowed (cmdline : pystr) : bool :=
  match_pip cmdline || match_python_pip cmdline.

(** [handle_cmd] up to the call of the external process: the command line
    that is split and run, [None] when there is no argument or the whitelist
    refuses.  Running the process is outside this model. *)
Definition handle_cmd (args : list pystr) : option pystr :=
  match args with
  | [] => None
  | _ =>
      let cmdline := strip (join [SPACE] args) in
      if cmd_allowed cmdline then Some cmdline else None
  end.

(** The characters an accepted command line is made of. *)
Definition cmd_char (c : N) : bool :=
  isspace c || pkg_char c || ver_char c || (c =? 61).

(** The characters of a package specification. *)
Definition spec_char (c : N) : bool := pkg_char c || ver_char c || (c =? 61).

(** The words before the package of an accepted command line. *)
Definition cmd_head (pre : pystr) : Prop :=
  ∃ three w1,
    (three = [] ∨ three = [51]) ∧ forallb isspace w1 = true ∧ w1 ≠ []
    ∧ (pre = u "pip" ++ three ++ w1
       ∨ ∃ w2 w3, forallb isspace w2 = true ∧ w2 ≠ [] ∧ forallb isspace w3 = true
                  ∧ w3 ≠ []
                  ∧ pre = u "python" ++ three ++ w1 ++ u "-m" ++ w2 ++ u "pip" ++ w3).


(** ** Plugins

    [load_plugins] imports each file of the plugin directory and calls its
    [register]; what the import of one file gives is taken as given here:
    [None] when the import or [register] raises, when the module has no
    callable [register] or when [register] returns no dict, else the items of
    the dict in order, each value with its handler when it is callable.  (Keys
    are taken to be strings, as the names looked up in [COMMAND_HANDLERS]
    are.) *)
Section Plugins.
Context {H : Type}.

(** [for k, v in reg.items(): if callable(v) and k not in command_handlers:
    command_handlers[k] = v] *)
Definition register_items (items : list (pystr * option H))
    (command_handlers : gmap (list N) H) : gmap (list N) H :=
  foldl (λ hs kv,
           match kv.2 with
           | Some h => if bool_decide (is_Some (hs !! kv.1)) then hs else <[kv.1 := h]> hs
           | None => hs
           end)
        command_handlers items.

Definition load_plugins (plugins : list (option (list (pystr * option H))))
    (command_handlers : gmap (list N) H) : gmap (list N) H :=
  foldl (λ hs p, match p with
                 | Some items => register_items items hs
                 | None => hs
                 end)
        command_handlers plugins.

End Plugins.

(** ** Conversation directories *)

(** [p.stem]: the name without its suffix. *)
Definition path_stem (p : PurePath) : pystr :=
  let name := path_name p in
  match rfind_char DOT name 0 with
  | Some i => if bool_decide (0 < i < length name - 1)%nat then take i name else name
  | None => name
  end.

Section Conversation.
Context `{UD : UnicodeData}.

(** [TEMP_NAME_REGEX.match(s)] for the pattern [^\d{10,}\.conversation$]: the
    run of digits is followed by a dot, which is no digit, so it never gives
    characters back. *)
Definition temp_name_match (s : pystr) : bool :=
  let digits := takewhile is_decimal s in
  bool_decide (10 ≤ length digits)%nat
  && match eat (u ".conversation") (drop (length digits) s) with
     | Some r => at_end r
     | None => false
     end.

Definition is_temp_conversation_name (name : pystr) : bool :=
  match name with
  | [] => false
  | _ => temp_name_match (strip name)
  end.

(** Returns the directory of the conversation stored in [conv_path] and
    named [conv_name]; [Path.cwd()] is the working directory of the world. *)
Definition get_or_create_conversation_dir (conv_path : PurePath) (conv_name : pystr)
    : M PurePath :=
  w ← get_world;
  let conversations_root := Path true (cwd w) in
  let temp_name := path_stem conv_path in
  let temp_dir := joinpath conversations_root temp_name in
  let final_dir := joinpath conversations_root conv_name in
  if path_exists w final_dir then ret final_dir
  else if path_exists w temp_dir && negb (is_temp_conversation_name conv_name) then
    try_except (path_replace temp_dir final_dir;; ret final_dir) (λ _, ret temp_dir)
  else if is_temp_conversation_name conv_name then
    mkdir_one temp_dir;; ret temp_dir
  else
    mkdir_one final_dir;; ret final_dir.

End Conversation.

(** A name that is one path component: not empty, without slash, and
    neither a dot nor two. *)
Definition plain_name (n : pystr) : Prop :=
  n ≠ [] ∧ (SLASH ∉ n) ∧ n ≠ [DOT] ∧ n ≠ DOTDOT.

(** ** Directories to create *)

(** The keys of the directories [new] names one below the other, from the
    directory [root] on. *)
Definition new_dirs (root : list (list N)) (new : list pystr) : list (list (list N)) :=
  (λ i, root ++ take i new) <$> seq 1 (length new).

Definition add_dirs (keys : list (list (list N))) (fs : gmap (list (list N)) node)
    : gmap (list (list N)) node :=
  foldl (λ fs k, <[k := Dir]> fs) fs keys.

(** The components [pp ++ new] of [target] lead through the existing
    directory with key [root], reached after [pp], and none of the
    directories that [new] names below it exists. *)
Definition dirs_missing (w : world) (target : PurePath) (pp new : list pystr)
    (root : list (list N)) : Prop :=
  parts target = pp ++ new
  ∧ walk_dirs (files w) [] (if anchored target then pp else cwd w ++ pp) = inr root
  ∧ (DOTDOT ∉ new)
  ∧ Forall (λ k, files w !! k = None) (new_dirs root new).

(** ** The region of the arguments of a command *)



(** ** [/patch]: what the two loops log, and the lines the removals keep *)









(** * Properties *)

Open Scope nat_scope.

(** ** Strings and lines *)

Lemma join_cons_cons sep x y l : join sep (x :: y :: l) = x ++ sep ++ join sep (y :: l).
Proof. reflexivity. Qed.

Lemma join_snoc sep l x : l ≠ [] → join sep (l ++ [x]) = join sep l ++ sep ++ x.
Proof.
  induction l as [|a l IH]; [done|]; intros _.
  destruct l as [|b l]; [done|].
  change ((a :: b :: l) ++ [x]) with (a :: b :: (l ++ [x])).
  rewrite !join_cons_cons. change (b :: l ++ [x]) with ((b :: l) ++ [x]).
  rewrite IH by done. by rewrite <- !app_assoc.
Qed.

Lemma LF_linebreak : is_linebreak LF = true.
Proof. reflexivity. Qed.

Lemma splitlines_from_LF cur rest :
  splitlines_from cur (LF :: rest) = reverse cur :: splitlines_from [] rest.
Proof. by destruct rest. Qed.

Lemma splitlines_from_app_clean l rest cur :
  line_clean l → splitlines_from cur (l ++ rest) = splitlines_from (reverse l ++ cur) rest.
Proof.
  revert cur. induction l as [|c l IH]; intros cur Hl; [done|].
  apply Forall_cons in Hl as [Hc Hl]. simpl. rewrite Hc, IH by done.
  by rewrite reverse_cons, <- app_assoc.
Qed.

Lemma splitlines_from_clean_len n : ∀ s cur,
  length s ≤ n → line_clean cur → Forall line_clean (splitlines_from cur s).
Proof.
  induction n as [|n IH]; intros [|c s] cur Hn Hcur; simpl in *; try lia.
  - destruct cur; [constructor|]. repeat constructor. by apply Forall_reverse.
  - destruct cur; [constructor|]. repeat constructor. by apply Forall_reverse.
  - destruct (is_linebreak c) eqn:Hc.
    + constructor; [by apply Forall_reverse|].
      destruct s as [|d s'']; [constructor|].
      destruct (_ && _); apply IH; simpl in *; try lia; constructor.
    + apply IH; [lia|]. by constructor.
Qed.

Lemma splitlines_clean s : Forall line_clean (splitlines s).
Proof. eapply splitlines_from_clean_len; [done|constructor]. Qed.

Lemma splitlines_clean_line l : line_clean l → splitlines l = match l with [] => [] | _ => [l] end.
Proof.
  intros Hl. unfold splitlines.
  rewrite <- (app_nil_r l) at 1. rewrite splitlines_from_app_clean by done.
  rewrite app_nil_r. simpl. destruct l as [|c l]; [done|].
  destruct (reverse (c :: l)) eqn:E.
  - apply (f_equal length) in E. rewrite length_reverse in E. done.
  - by rewrite <- E, reverse_involutive.
Qed.

Lemma drop_trailing_empty_cons x y l :
  drop_trailing_empty (x :: y :: l) = x :: drop_trailing_empty (y :: l).
Proof.
  unfold drop_trailing_empty. rewrite last_cons_cons.
  destruct (last (y :: l)) as [[|]|]; try done.
Qed.

Lemma splitlines_join ls :
  Forall line_clean ls → splitlines (join [LF] ls) = drop_trailing_empty ls.
Proof.
  induction ls as [|x ls IH]; intros Hls; [done|].
  apply Forall_cons in Hls as [Hx Hls].
  destruct ls as [|y ls].
  - simpl. rewrite splitlines_clean_line by done. by destruct x.
  - rewrite join_cons_cons, drop_trailing_empty_cons, <- IH by done.
    unfold splitlines. rewrite splitlines_from_app_clean by done.
    simpl app. rewrite splitlines_from_LF, app_nil_r, reverse_involutive. done.
Qed.

Lemma drop_trailing_empty_subseteq ls : drop_trailing_empty ls ⊆ ls.
Proof.
  unfold drop_trailing_empty. destruct (last ls) as [[|]|] eqn:E; try done.
  apply last_Some in E as [l' ->]. rewrite removelast_last.
  intros x Hx. apply elem_of_app. by left.
Qed.

Lemma endswith_LF_snoc t c : endswith [LF] (t ++ [c]) = (LF =? c)%N.
Proof. unfold endswith. rewrite reverse_snoc. simpl. apply andb_true_r. Qed.

Lemma endswith_LF_app_clean pre x :
  line_clean x → x ≠ [] → endswith [LF] (pre ++ x) = false.
Proof.
  intros Hx Hne. destruct x as [|c x _] using rev_ind; [done|].
  rewrite app_assoc, endswith_LF_snoc.
  apply Forall_app in Hx as [_ Hc]. apply Forall_inv in Hc.
  destruct (N.eqb_spec LF c) as [<-|]; [vm_compute in Hc; discriminate | done].
Qed.

(** A joined text ends with a line feed exactly when its last line is empty
    and is not the only one. *)
Lemma join_drop_trailing_empty ls :
  Forall line_clean ls → join [LF] (drop_trailing_empty ls) = chomp (join [LF] ls).
Proof.
  intros Hls. unfold drop_trailing_empty, chomp.
  destruct (last ls) as [x|] eqn:E.
  2:{ apply last_None in E as ->. done. }
  apply last_Some in E as [l' ->].
  apply Forall_app in Hls as [_ Hx]. apply Forall_inv in Hx.
  destruct (decide (l' = [])) as [->|Hl'].
  - simpl. destruct x as [|c x]; [done|].
    pose proof (endswith_LF_app_clean [] (c :: x) Hx) as E. simpl in E.
    by rewrite E.
  - rewrite join_snoc by done. destruct x as [|c x].
    + rewrite app_nil_r, endswith_LF_snoc. simpl. by rewrite !removelast_last.
    + rewrite join_snoc by done. by rewrite app_assoc, endswith_LF_app_clean.
Qed.

Lemma filter_Forall_id {A} (P : A → Prop) `{!∀ x, Decision (P x)} (l : list A) :
  Forall P l → filter P l = l.
Proof.
  induction 1 as [|x l Hx _ IH]; [done|]. by rewrite filter_cons_True, IH.
Qed.

(** ** The sanitizer *)

Lemma kept_lines_clean s : Forall line_clean (kept_lines s).
Proof.
  apply Forall_forall. intros x [_ Hx]%list_elem_of_filter.
  revert x Hx. apply Forall_forall, splitlines_clean.
Qed.

Lemma kept_lines_no_command s : Forall (λ ln, command_line_match ln = false) (kept_lines s).
Proof. apply Forall_forall. by intros x [Hx _]%list_elem_of_filter. Qed.

Lemma strip_command_lines_eq s : _strip_command_lines (Some s) = join [LF] (kept_lines s).
Proof. reflexivity. Qed.

Lemma splitlines_strip_command_lines s :
  splitlines (_strip_command_lines (Some s)) = drop_trailing_empty (kept_lines s).
Proof. rewrite strip_command_lines_eq. apply splitlines_join, kept_lines_clean. Qed.

Lemma existsb_Forall_false {A} (f : A → bool) l :
  Forall (λ x, f x = false) l → existsb f l = false.
Proof. induction 1 as [|x l Hx _ IH]; [done|]. simpl. by rewrite Hx, IH. Qed.

(** One pass leaves nothing for the predicate to find. *)
Lemma strip_command_lines_clean s :
  _content_has_command_lines (Some (_strip_command_lines (Some s))) = false.
Proof.
  unfold _content_has_command_lines.
  destruct (_strip_command_lines (Some s)) eqn:E; [done|]. rewrite <- E.
  rewrite splitlines_strip_command_lines. apply existsb_Forall_false.
  apply Forall_forall. intros x Hx%drop_trailing_empty_subseteq.
  revert x Hx. apply Forall_forall, kept_lines_no_command.
Qed.

(** A second pass removes no line; it only drops a final line feed. *)
Lemma strip_command_lines_twice s :
  _strip_command_lines (Some (_strip_command_lines (Some s)))
  = chomp (_strip_command_lines (Some s)).
Proof.
  rewrite (strip_command_lines_eq (_strip_command_lines _)). unfold kept_lines at 1.
  rewrite splitlines_strip_command_lines, filter_Forall_id.
  - rewrite strip_command_lines_eq. apply join_drop_trailing_empty, kept_lines_clean.
  - apply Forall_forall. intros x Hx%drop_trailing_empty_subseteq.
    revert x Hx. apply Forall_forall, kept_lines_no_command.
Qed.

(** C10 (as amended): for every string, the predicate finds no command line
    in the stripped text, and stripping the stripped text again removes no
    further line: the result is the stripped text without its final line feed
    when it has one, and the stripped text itself otherwise. *)
Theorem strip_command_lines_sound (s : pystr) :
  _content_has_command_lines (Some (_strip_command_lines (Some s))) = false
  ∧ _strip_command_lines (Some (_strip_command_lines (Some s)))
    = (if endswith [LF] (_strip_command_lines (Some s))
       then removelast (_strip_command_lines (Some s))
       else _strip_command_lines (Some s)).
Proof. split; [apply strip_command_lines_clean | apply strip_command_lines_twice]. Qed.

(** C10 (as stated) fails: stripping the letter [a] followed by two line
    feeds gives [a] and one line feed, and stripping that gives [a]. *)
Lemma strip_command_lines_not_idempotent :
  _strip_command_lines (Some (_strip_command_lines (Some [97; 10; 10]%N)))
  ≠ _strip_command_lines (Some [97; 10; 10]%N).
Proof. vm_compute. discriminate. Qed.

(** ** The tokenizer *)

Lemma length_takewhile_le f s : length (takewhile f s) ≤ length s.
Proof. induction s as [|c s IH]; simpl; [done|]. destruct (f c); simpl; lia. Qed.

Lemma takewhile_stop f s c :
  s !! length (takewhile f s) = Some c → f c = false.
Proof.
  induction s as [|d s IH]; simpl; [done|].
  destruct (f d) eqn:E; simpl; [done|]. by intros [= <-].
Qed.

Lemma takewhile_nonempty f s c : s !! 0 = Some c → f c = true → takewhile f s ≠ [].
Proof. destruct s as [|d s]; simpl; [done|]. intros [= ->] ->. done. Qed.

Lemma startswith_length p s : startswith p s = true → length p ≤ length s.
Proof.
  revert s. induction p as [|a p IH]; intros [|b s]; simpl; try done; try lia.
  intros [_ H]%andb_prop. apply IH in H. lia.
Qed.

Lemma startswith_head a p s : startswith (a :: p) s = true → s !! 0 = Some a.
Proof.
  destruct s as [|b s]; simpl; [done|].
  intros [H _]%andb_prop. apply N.eqb_eq in H. by subst.
Qed.

Lemma find_at_spec sub s k r :
  find_at sub s k = Some r → ∃ d, r = k + d ∧ startswith sub (drop d s) = true.
Proof.
  revert k. induction s as [|c s IH]; intros k; simpl.
  - destruct (startswith sub []) eqn:E; [|done].
    intros [= <-]. exists 0. split; [lia|done].
  - destruct (startswith sub (c :: s)) eqn:E.
    + intros [= <-]. exists 0. split; [lia|done].
    + intros (d & -> & Hd)%IH. exists (S d). split; [lia|done].
Qed.

Lemma find_spec sub text start r :
  find sub text start = Some r →
  start ≤ r ∧ startswith sub (drop r text) = true.
Proof.
  unfold find. intros (d & -> & Hd)%find_at_spec.
  rewrite drop_drop in Hd. split; [lia|done].
Qed.

Lemma find_bound sub text start r :
  sub ≠ [] → find sub text start = Some r → r + length sub ≤ length text.
Proof.
  intros Hsub [_ H%startswith_length]%find_spec. rewrite length_drop in H.
  destruct sub; [done|]. simpl in *. lia.
Qed.

Lemma find_char_lookup c text start r :
  find [c] text start = Some r → text !! r = Some c.
Proof.
  intros [_ H%startswith_head]%find_spec. rewrite lookup_drop in H.
  by rewrite Nat.add_0_r in H.
Qed.

Lemma skip_space_ge text pos : pos ≤ skip_space text pos.
Proof. unfold skip_space. lia. Qed.

Lemma skip_space_le text pos : pos ≤ length text → skip_space text pos ≤ length text.
Proof.
  unfold skip_space. intros H.
  pose proof (length_takewhile_le isspace (drop pos text)) as Hl.
  rewrite length_drop in Hl. lia.
Qed.

Lemma skip_space_stop text pos c :
  text !! skip_space text pos = Some c → isspace c = false.
Proof.
  unfold skip_space. rewrite <- lookup_drop. apply takewhile_stop.
Qed.

Lemma read_quoted_bound quote s escaped j acc v j' :
  read_quoted quote s escaped j acc = (v, j') → j ≤ j' ≤ j + length s.
Proof.
  revert escaped j acc. induction s as [|c s IH]; intros escaped j acc; simpl.
  - intros [= _ <-]. lia.
  - destruct escaped; [intros H%IH; lia|].
    destruct (_ =? BACKSLASH)%N; [intros H%IH; lia|].
    destruct (_ =? quote)%N; [intros [= _ <-]; lia|intros H%IH; lia].
Qed.

Lemma read_fence_bound text pos v pos' :
  pos + 2 < length text → read_fence text pos = (v, pos') →
  pos + 3 ≤ pos' ≤ length text.
Proof.
  intros Hpos. unfold read_fence.
  destruct (find [LF] text (pos + 3)) as [nl|] eqn:Enl.
  - apply find_spec in Enl as [Hnl _].
    destruct (find FENCE text (nl + 1)) as [e|] eqn:Ee.
    + pose proof (find_bound FENCE _ _ _ ltac:(by unfold FENCE) Ee) as Hb. apply find_spec in Ee as [He _].
      intros [= _ <-]. simpl in Hb. lia.
    + intros [= _ <-]. lia.
  - destruct (find FENCE text (pos + 3)) as [e|] eqn:Ee.
    + pose proof (find_bound FENCE _ _ _ ltac:(by unfold FENCE) Ee) as Hb. apply find_spec in Ee as [He _].
      intros [= _ <-]. simpl in Hb. lia.
    + intros [= _ <-]. lia.
Qed.

Section TokenizerFacts.
Context `{UD : UnicodeData}.

(** What one run of the argument loop guarantees about its final [pos]. *)
Lemma read_args_spec fuel : ∀ text pos args args' pos',
  pos ≤ length text →
  read_args fuel text pos args = Some (args', pos') →
  pos ≤ pos' ≤ length text
  ∧ (pos' = length text ∨ text !! pos' = Some SLASH).
Proof.
  induction fuel as [|fuel IH]; intros text pos args args' pos' Hpos; simpl; [done|].
  pose proof (skip_space_ge text pos) as Hge.
  pose proof (skip_space_le text pos Hpos) as Hle.
  destruct (text !! skip_space text pos) as [ch|] eqn:Ech.
  2:{ intros [= _ <-]. apply lookup_ge_None in Ech. split; [lia|left; lia]. }
  pose proof (lookup_lt_Some _ _ _ Ech) as Hlt.
  destruct (N.eqb_spec ch SLASH) as [->|Hsl].
  { intros [= _ <-]. split; [lia|by right]. }
  destruct (_ && _) eqn:Ef.
  { destruct (read_fence text (skip_space text pos)) as [val p1] eqn:Erf.
    apply andb_prop in Ef as [[_ Hf%bool_decide_eq_true]%andb_prop _].
    apply read_fence_bound in Erf as Hb; [|done].
    intros H%IH; [|lia]. destruct H as [H1 H2]. split; [lia|done]. }
  destruct (_ || _).
  { destruct (read_quoted _ _ _ _ _) as [val j] eqn:Erq.
    apply read_quoted_bound in Erq. rewrite length_drop in Erq.
    intros H%IH; [|destruct (bool_decide_reflect (j < length text)); lia].
    destruct H as [H1 H2].
    split; [|done]. destruct (bool_decide_reflect (j < length text)); lia. }
  pose proof (length_takewhile_le bare_char (drop (skip_space text pos) text)) as Hl.
  rewrite length_drop in Hl.
  intros H%IH; [|lia]. destruct H as [H1 H2]. split; [lia|done].
Qed.

(** Every iteration of the argument loop moves [pos] forward, so fuel beyond
    the distance to the end of the text is never used up. *)
Lemma read_args_total fuel : ∀ text pos args,
  pos ≤ length text → length text - pos < fuel →
  is_Some (read_args fuel text pos args).
Proof.
  induction fuel as [|fuel IH]; intros text pos args Hpos Hfuel; simpl; [lia|].
  pose proof (skip_space_ge text pos) as Hge.
  pose proof (skip_space_le text pos Hpos) as Hle.
  destruct (text !! skip_space text pos) as [ch|] eqn:Ech; [|done].
  pose proof (lookup_lt_Some _ _ _ Ech) as Hlt.
  destruct (N.eqb_spec ch SLASH) as [->|Hsl]; [done|].
  destruct (_ && _) eqn:Ef.
  { destruct (read_fence text (skip_space text pos)) as [val p1] eqn:Erf.
    apply andb_prop in Ef as [[_ Hf%bool_decide_eq_true]%andb_prop _].
    apply read_fence_bound in Erf as Hb; [|done]. apply IH; lia. }
  destruct (_ || _).
  { destruct (read_quoted _ _ _ _ _) as [val j] eqn:Erq.
    apply read_quoted_bound in Erq. rewrite length_drop in Erq.
    apply IH; destruct (bool_decide_reflect (j < length text)); lia. }
  pose proof (length_takewhile_le bare_char (drop (skip_space text pos) text)) as Hl.
  rewrite length_drop in Hl.
  assert (takewhile bare_char (drop (skip_space text pos) text) ≠ []) as Hne.
  { eapply takewhile_nonempty.
    - by rewrite lookup_drop, Nat.add_0_r.
    - unfold bare_char. rewrite (skip_space_stop _ _ _ Ech). simpl.
      apply negb_true_iff. by apply N.eqb_neq. }
  destruct (takewhile bare_char _) as [|t ts] eqn:Et; [done|].
  apply IH; simpl in *; lia.
Qed.

End TokenizerFacts.

Lemma spans_ordered_snoc i l s :
  spans_ordered i l → last_end i l ≤ sp_start s → spans_ordered i (l ++ [s]).
Proof.
  revert i. induction l as [|x l IH]; intros i; simpl.
  - unfold last_end. simpl. auto.
  - intros [H1 H2] H3. split; [done|]. apply IH; [done|].
    unfold last_end in *. destruct l as [|y l]; [done|].
    rewrite last_cons_cons in H3.
    destruct (last (y :: l)) eqn:E; [done|]. by apply last_None in E.
Qed.

Lemma last_end_snoc i l s : last_end i (l ++ [s]) = sp_end s.
Proof. unfold last_end. by rewrite last_snoc. Qed.

Section ScanFacts.
Context `{UD : UnicodeData}.

Lemma command_name_match_length s cmd :
  command_name_match s = Some cmd → 1 + length cmd ≤ length s ∧ 1 ≤ length cmd.
Proof.
  destruct s as [|c [|d s]]; simpl; try done.
  destruct (_ && _); [|done]. intros [= <-]. simpl.
  pose proof (length_takewhile_le is_word s). lia.
Qed.

Lemma scan_commands_total fuel : ∀ text i acc,
  i ≤ length text → length text - i < fuel →
  is_Some (scan_commands fuel text i acc).
Proof.
  induction fuel as [|fuel IH]; intros text i acc Hi Hfuel; cbn [scan_commands]; [lia|].
  destruct (find [SLASH] text i) as [m|] eqn:Em; [|done].
  pose proof (find_bound [SLASH] _ _ _ ltac:(done) Em) as Hm. simpl in Hm.
  apply find_spec in Em as [Him _].
  destruct (_ && _); [apply IH; lia|].
  destruct (command_name_match (drop m text)) as [cmd|] eqn:Ecmd; [|apply IH; lia].
  apply command_name_match_length in Ecmd as [Hc1 Hc2]. rewrite length_drop in Hc1.
  destruct (read_args_total (S (length text)) text (m + (1 + length cmd)) [])
    as [[args pos'] Hra]; [lia..|].
  rewrite Hra. apply read_args_spec in Hra as [Hp _]; [|lia].
  apply IH; lia.
Qed.

Lemma scan_commands_spec fuel : ∀ text i acc l,
  i ≤ length text →
  Forall (span_ok text) acc → spans_ordered 0 acc → last_end 0 acc ≤ i →
  scan_commands fuel text i acc = Some l →
  Forall (span_ok text) l ∧ spans_ordered 0 l.
Proof.
  induction fuel as [|fuel IH]; intros text i acc l Hi Hok Hord Hlast;
    cbn [scan_commands]; [done|].
  destruct (find [SLASH] text i) as [m|] eqn:Em; [|by intros [= <-]].
  pose proof (find_bound [SLASH] _ _ _ ltac:(done) Em) as Hm. simpl in Hm.
  pose proof (find_char_lookup _ _ _ _ Em) as Hsl.
  apply find_spec in Em as [Him _].
  destruct (_ && _) eqn:Elead; [apply IH; first [done|lia]|].
  destruct (command_name_match (drop m text)) as [cmd|] eqn:Ecmd;
    [|apply IH; first [done|lia]].
  pose proof (command_name_match_length _ _ Ecmd) as [Hc1 Hc2].
  rewrite length_drop in Hc1.
  destruct (read_args _ _ _ _) as [[args pos']|] eqn:Hra; [|done].
  apply read_args_spec in Hra as [Hp Hend]; [|lia].
  apply IH.
  - lia.
  - apply Forall_app. split; [done|]. apply Forall_singleton.
    repeat split; simpl; try done; try lia.
    apply andb_false_iff in Elead as [E|E].
    + apply bool_decide_eq_false in E. left. lia.
    + apply negb_false_iff, orb_true_iff in E as [E|E];
        apply bool_decide_eq_true in E; right; [by left|by right].
  - apply spans_ordered_snoc; [done|]. simpl. lia.
  - rewrite last_end_snoc. simpl. lia.
Qed.

(** The scan of a whole text never runs out of fuel. *)
Lemma scan_commands_returns text :
  is_Some (scan_commands (S (length text)) text 0 []).
Proof. apply scan_commands_total; lia. Qed.

Lemma command_spans_ok text :
  Forall (span_ok text) (command_spans text) ∧ spans_ordered 0 (command_spans text).
Proof.
  unfold command_spans. destruct text as [|c text]; [by split|].
  destruct (scan_commands_returns (c :: text)) as [l Hl]. rewrite Hl. simpl default.
  eapply scan_commands_spec in Hl; try done. lia.
Qed.

(** C4: the text [/create_file a.txt], a fence, [hello], a fence, each on
    its own line, yields exactly one command, [create_file], with the
    arguments [a.txt] and [hello] followed by a line feed. *)
Theorem find_commands_create_file_fence :
  find_commands_in_text (u "/create_file a.txt
```
hello
```
") = [(u "create_file", [u "a.txt"; u "hello
"])].
Proof. vm_compute. reflexivity. Qed.

End ScanFacts.



(** ** Sorting and the patch operations *)

Section SortedFacts.
Context {A : Type} (before : A → A → bool).
Hypothesis before_asym : ∀ a b, before a b = true → before b a = false.






End SortedFacts.


Section PatchFacts.
Context `{UD : UnicodeData}.






End PatchFacts.

(** ** Reprocessing state *)

Section ProcessingFacts.
Context `{UD : UnicodeData}.
Context {Msg : Type} (extract : Msg → pystr * pystr).
Context (sha : pystr → list N) (registry : list pystr).

Local Abbreviation step := (process_message extract sha registry).
Local Abbreviation run := (process_messages extract sha registry).
Local Abbreviation tasks_of := (process_assistant_message_text registry).

Lemma tasks_of_nil base : tasks_of [] base = [].
Proof. reflexivity. Qed.

(** What one message does to the digests, the flag and the queue. *)
Lemma process_message_spec base idx msg hs updated q :
  step base idx msg (hs, updated, q) =
  let fp := sha (extract msg).2 in
  if bool_decide ((extract msg).1 ∈ ASSISTANT_ROLES) then
    if bool_decide (hs !! pretty idx = Some fp) then (hs, updated, q)
    else (<[pretty idx := fp]> hs, true, q ++ tasks_of (extract msg).2 base)
  else (<[pretty idx := fp]> hs, updated, q).
Proof.
  unfold process_message. destruct (extract msg) as [role content]. simpl.
  destruct (bool_decide (role ∈ ASSISTANT_ROLES)); simpl; [|done].
  destruct (bool_decide (hs !! pretty idx = Some (sha content))); [done|].
  destruct content; [|done]. by rewrite tasks_of_nil, app_nil_r.
Qed.

Lemma process_message_other_key base idx msg hs updated q j :
  j ≠ idx → (step base idx msg (hs, updated, q)).1.1 !! pretty j = hs !! pretty j.
Proof.
  intros Hj. rewrite process_message_spec. simpl.
  assert (pretty idx ≠ pretty j) by (intros ?%(inj pretty); done).
  repeat case_bool_decide; simpl; by rewrite ?lookup_insert_ne.
Qed.

Lemma process_message_own_key base idx msg hs updated q :
  (step base idx msg (hs, updated, q)).1.1 !! pretty idx = Some (sha (extract msg).2).
Proof.
  rewrite process_message_spec. simpl.
  repeat case_bool_decide; simpl; by rewrite ?lookup_insert_eq.
Qed.

Lemma process_messages_other_key base msgs : ∀ idx acc j,
  j < idx → (run base idx msgs acc).1.1 !! pretty j = acc.1.1 !! pretty j.
Proof.
  induction msgs as [|msg msgs IH]; intros idx [[hs upd] q] j Hj;
    cbn [process_messages]; [done|].
  rewrite IH by lia. apply process_message_other_key. lia.
Qed.

(** After the loop every message has its digest recorded. *)
Lemma process_messages_records base msgs : ∀ idx acc,
  fingerprints_recorded extract sha (run base idx msgs acc).1.1 idx msgs.
Proof.
  induction msgs as [|msg msgs IH]; intros idx [[hs upd] q] k m Hk; [done|].
  cbn [process_messages]. destruct k as [|k]; simpl in Hk.
  - injection Hk as ->. rewrite Nat.add_0_r.
    rewrite process_messages_other_key by lia.
    apply process_message_own_key.
  - replace (idx + S k) with (S idx + k) by lia. by apply IH.
Qed.

(** With every digest recorded the loop changes nothing. *)
Lemma process_messages_recorded base msgs : ∀ idx hs updated q,
  fingerprints_recorded extract sha hs idx msgs →
  run base idx msgs (hs, updated, q) = (hs, updated, q).
Proof.
  induction msgs as [|msg msgs IH]; intros idx hs updated q Hrec;
    cbn [process_messages]; [done|].
  pose proof (Hrec 0 msg eq_refl) as H0. rewrite Nat.add_0_r in H0.
  rewrite process_message_spec. cbn zeta.
  rewrite (bool_decide_eq_true_2 _ H0), insert_id by done.
  assert (fingerprints_recorded extract sha hs (S idx) msgs) as Hrec'.
  { intros k m Hk. replace (S idx + k) with (idx + S k) by lia. by apply Hrec. }
  case_bool_decide; by apply IH.
Qed.

(** The queue only grows, by tasks that do not depend on what it held, and
    it grows only when [updated] is set. *)
Lemma process_messages_queue base msgs : ∀ idx hs updated q,
  ∃ hs' b ts,
    run base idx msgs (hs, updated, q) = (hs', updated || b, q ++ ts)
    ∧ (b = false → ts = []).
Proof.
  induction msgs as [|msg msgs IH]; intros idx hs updated q; cbn [process_messages].
  - exists hs, false, []. by rewrite orb_false_r, app_nil_r.
  - rewrite process_message_spec. cbn zeta.
    destruct (bool_decide ((extract msg).1 ∈ ASSISTANT_ROLES)).
    2:{ apply IH. }
    destruct (bool_decide (hs !! pretty idx = Some (sha (extract msg).2))).
    { apply IH. }
    destruct (IH (S idx) (<[pretty idx:=sha (extract msg).2]> hs) true
                 (q ++ tasks_of (extract msg).2 base)) as (hs' & b & ts & E & _).
    exists hs', true, (tasks_of (extract msg).2 base ++ ts).
    rewrite E. simpl. rewrite orb_true_r, app_assoc. done.
Qed.

Local Abbreviation process := (process_updates_for_file extract sha registry).

(** Processing the same messages a second time leaves the queue as the
    first run left it. *)
Lemma process_updates_idempotent key msgs base mtime mtime' s :
  queue (process key (Some msgs) base mtime' (process key (Some msgs) base mtime s))
  = queue (process key (Some msgs) base mtime s).
Proof.
  set (hs := match state s !! key with Some e => hashes e | None => ∅ end).
  pose proof (process_messages_records base msgs 0 (hs, false, queue s)) as Hrec.
  destruct (process_messages_queue base msgs 0 hs false (queue s))
    as (hs' & b & ts & E & Hts).
  rewrite E in Hrec. simpl in Hrec, E.
  destruct b.
  - assert (process key (Some msgs) base mtime s
            = PState (<[key := Entry hs' mtime]> (state s))
                     (<[key := Entry hs' mtime]> (state s)) (queue s ++ ts)) as ->.
    { unfold process_updates_for_file. fold hs. by rewrite E. }
    unfold process_updates_for_file. simpl. rewrite lookup_insert_eq. simpl.
    by rewrite process_messages_recorded.
  - rewrite (Hts eq_refl), app_nil_r in E.
    destruct (state s !! key) as [e|] eqn:Ek.
    + assert (process key (Some msgs) base mtime s
              = PState (<[key := Entry hs' (last_mtime e)]> (state s)) (saved s) (queue s))
        as ->.
      { unfold process_updates_for_file. rewrite Ek. fold hs. by rewrite E. }
      unfold process_updates_for_file. simpl. rewrite lookup_insert_eq. simpl.
      by rewrite process_messages_recorded.
    + assert (process key (Some msgs) base mtime s = PState (state s) (saved s) (queue s))
        as ->.
      { unfold process_updates_for_file. rewrite Ek. fold hs. by rewrite E. }
      unfold process_updates_for_file. simpl. rewrite Ek. fold hs. by rewrite E.
Qed.

(** C9 (as amended): processing the same messages twice adds no task the
    second time, whatever the state and the queue before the first run; and
    for every message index the commands of the message are put on the queue
    exactly when its role is one of assistant, system, bot, model and its
    digest differs from the one recorded for the index (none recorded
    included); for any other role the digest is recorded and nothing is
    queued; a message whose digest is the recorded one changes nothing. *)
Theorem reprocessing_enqueues_nothing :
  (∀ key msgs base mtime mtime' s,
     queue (process key (Some msgs) base mtime' (process key (Some msgs) base mtime s))
     = queue (process key (Some msgs) base mtime s))
  ∧ (∀ base idx msg hs updated q,
       step base idx msg (hs, updated, q) =
       let fp := sha (extract msg).2 in
       if bool_decide ((extract msg).1 ∈ ASSISTANT_ROLES) then
         if bool_decide (hs !! pretty idx = Some fp) then (hs, updated, q)
         else (<[pretty idx := fp]> hs, true, q ++ tasks_of (extract msg).2 base)
       else (<[pretty idx := fp]> hs, updated, q)).
Proof.
  split; [apply process_updates_idempotent | apply process_message_spec].
Qed.

End ProcessingFacts.

(** C9 (as stated) fails for a message of role [user] holding
    [/create_folder x] and no recorded digest: its digest differs from the
    record, its text holds a registered command, and nothing is queued.  (The
    digest function plays no part: nothing is recorded.) *)
Lemma user_message_not_enqueued :
  let msgs := [(u "user", u "/create_folder x")] in
  let s := process_updates_for_file (UD := ascii_tables) id id [u "create_folder"]
             [u "conv.json"] (Some msgs) example_base 0%N (PState ∅ ∅ []) in
  queue s = []
  ∧ process_assistant_message_text (UD := ascii_tables) [u "create_folder"]
      (u "/create_folder x") example_base
    = [Task (u "create_folder") [u "x"] example_base]
  ∧ (∅ : gmap string (list N)) !! pretty 0 ≠ Some (u "/create_folder x").
Proof. vm_compute. split; [done|]. split; done. Qed.

(** ** Effects: what a computation adds to the trace *)

Lemma bind_unfold {A B} (m : M A) (k : A → M B) w :
  (m ≫= k) w = match m w with
               | (Ok a, w') => k a w'
               | (Raise e, w') => (Raise e, w')
               end.
Proof. reflexivity. Qed.

Lemma new_events_app w w' evs : trace w' = trace w ++ evs → new_events w w' = evs.
Proof. unfold new_events. intros ->. by rewrite drop_app_length. Qed.

Section Emits.
Context (P : event → Prop).

Lemma emits_ret {A} (a : A) : emits P (mret a).
Proof. intros w. exists []. by rewrite app_nil_r. Qed.

Lemma emits_raise {A} e : emits P (@raise A e).
Proof. intros w. exists []. by rewrite app_nil_r. Qed.

Lemma emits_lift {A} (r : res A) : emits P (lift r).
Proof. intros w. exists []. by rewrite app_nil_r. Qed.

Lemma emits_gets {A} (f : world → A) : emits P (gets f).
Proof. intros w. exists []. by rewrite app_nil_r. Qed.

Lemma emits_get_world : emits P get_world.
Proof. apply emits_gets. Qed.

Lemma emits_io_fault : emits P io_fault.
Proof.
  intros w. exists []. unfold io_fault. rewrite app_nil_r. by destruct (faults w).
Qed.

Lemma emits_set_clipboard c : emits P (set_clipboard c).
Proof. intros w. exists []. by rewrite app_nil_r. Qed.

Lemma emits_emit e : P e → emits P (emit e).
Proof. intros He w. exists [e]. split; [done|]. by constructor. Qed.

Lemma emits_bind {A B} (m : M A) (k : A → M B) :
  emits P m → (∀ a, emits P (k a)) → emits P (m ≫= k).
Proof.
  intros Hm Hk w. rewrite bind_unfold.
  destruct (Hm w) as (evs & Ht & Hevs). destruct (m w) as [[a|e] w1]; simpl in *.
  - destruct (Hk a w1) as (evs' & Ht' & Hevs'). exists (evs ++ evs').
    rewrite Ht', Ht, app_assoc. split; [done|]. by apply Forall_app.
  - by exists evs.
Qed.

Lemma emits_try {A} (m : M A) (h : exn → M A) :
  emits P m → (∀ e, emits P (h e)) → emits P (try_except m h).
Proof.
  intros Hm Hh w. unfold try_except.
  destruct (Hm w) as (evs & Ht & Hevs). destruct (m w) as [[a|e] w1]; simpl in *.
  - by exists evs.
  - destruct (Hh e w1) as (evs' & Ht' & Hevs'). exists (evs ++ evs').
    rewrite Ht', Ht, app_assoc. split; [done|]. by apply Forall_app.
Qed.

End Emits.

Lemma emits_mono {A} (P Q : event → Prop) (m : M A) :
  (∀ e, P e → Q e) → emits P m → emits Q m.
Proof.
  intros HPQ Hm w. destruct (Hm w) as (evs & Ht & Hevs). exists evs.
  split; [done|]. eapply Forall_impl; eauto.
Qed.

Lemma emits_new_events {A} (P : event → Prop) (m : M A) w :
  emits P m →
  trace (m w).2 = trace w ++ new_events w (m w).2 ∧ Forall P (new_events w (m w).2).
Proof.
  intros Hm. destruct (Hm w) as (evs & Ht & Hevs).
  by rewrite (new_events_app _ _ _ Ht).
Qed.

(** Goals [emits P m] for a computation put together from the primitives:
    split at each sequencing and branch, and leave what the rules do not
    settle. *)
Ltac emits_step :=
  lazymatch goal with
  | |- emits _ (_ ≫= _) => apply emits_bind; [|intros ?]
  | |- emits _ (try_except _ _) => apply emits_try; [|intros ?]
  | |- emits _ (mret _) => apply emits_ret
  | |- emits _ (ret _) => apply emits_ret
  | |- emits _ (raise _) => apply emits_raise
  | |- emits _ (lift _) => apply emits_lift
  | |- emits _ get_world => apply emits_get_world
  | |- emits _ (gets _) => apply emits_gets
  | |- emits _ io_fault => apply emits_io_fault
  | |- emits _ (set_clipboard _) => apply emits_set_clipboard
  | |- emits _ (if ?b then _ else _) => destruct b eqn:?
  | |- emits _ (match ?x with _ => _ end) => destruct x eqn:?
  | |- emits _ (let '(_, _) := ?x in _) => destruct x eqn:?
  end.

Ltac emits_auto := repeat emits_step.

(** ** The events of the primitives *)

Lemma is_mkdir_no_write e : is_mkdir e → no_write e.
Proof. by destruct e. Qed.

Lemma no_write_clean e : no_write e → clean_write e.
Proof. by destruct e. Qed.

Lemma no_write_appends added e : no_write e → appends added e.
Proof. by destruct e. Qed.

Lemma emits_os_mkdir p : emits is_mkdir (os_mkdir p).
Proof. unfold os_mkdir. emits_auto. by apply emits_emit. Qed.

Lemma emits_mkdir_exist_ok P p e : emits P (mkdir_exist_ok p e).
Proof. unfold mkdir_exist_ok. emits_auto. Qed.

Lemma emits_mkdir_one p : emits is_mkdir (mkdir_one p).
Proof.
  unfold mkdir_one. emits_auto; try apply emits_os_mkdir; apply emits_mkdir_exist_ok.
Qed.

Lemma emits_mkdir_p fuel : ∀ p, emits is_mkdir (mkdir_p fuel p).
Proof.
  induction fuel as [|fuel IH]; intros p; simpl; emits_auto;
    try apply emits_os_mkdir; try apply emits_mkdir_exist_ok;
    try apply emits_mkdir_one; try apply IH.
Qed.

Lemma emits_mkdir_parents p : emits is_mkdir (mkdir_parents p).
Proof. apply emits_mkdir_p. Qed.

Lemma emits_ensure_parent_dir p : emits is_mkdir (ensure_parent_dir p).
Proof. apply emits_mkdir_parents. Qed.

(** A write adds at most one event: the completed write of its content, or
    what an interrupted write left. *)
Lemma emits_write_text P p c :
  (∀ k, P (EvWrite k c)) → (∀ k c', P (EvTorn k c')) → emits P (write_text p c).
Proof. intros Hw Ht. unfold write_text. emits_auto; by apply emits_emit. Qed.

Lemma emits_read_text P p : emits P (read_text p).
Proof. unfold read_text. emits_auto. Qed.

Lemma emits_path_replace p q : emits no_write (path_replace p q).
Proof. unfold path_replace. emits_auto; by apply emits_emit. Qed.

Lemma emits_shutil_copy p q : emits no_write (shutil_copy p q).
Proof. unfold shutil_copy. emits_auto; by apply emits_emit. Qed.

Lemma emits_path_unlink p : emits no_write (path_unlink p).
Proof. unfold path_unlink. emits_auto; by apply emits_emit. Qed.

Lemma emits_unlink_missing_ok p : emits no_write (unlink_missing_ok p).
Proof. unfold unlink_missing_ok. emits_auto. apply emits_path_unlink. Qed.

Lemma emits_shutil_move p q : emits no_write (shutil_move p q).
Proof.
  unfold shutil_move. emits_auto;
    first [apply emits_path_replace | apply emits_shutil_copy | apply emits_path_unlink].
Qed.

Lemma emits_make_timestamped_backup p : emits no_write (make_timestamped_backup p).
Proof. unfold make_timestamped_backup. emits_auto. apply emits_shutil_copy. Qed.

Lemma emits_discard_backup b : emits no_write (discard_backup b).
Proof. unfold discard_backup. emits_auto. apply emits_unlink_missing_ok. Qed.

Lemma emits_restore_backup b p : emits no_write (restore_backup b p).
Proof. unfold restore_backup. emits_auto. apply emits_shutil_copy. Qed.

Lemma emits_remove_file_safe p : emits no_write (remove_file_safe p).
Proof. unfold remove_file_safe. emits_auto. apply emits_path_unlink. Qed.

Lemma emits_safe_target P base raw : emits P (_safe_target base raw).
Proof. unfold _safe_target. emits_auto. Qed.

(** [atomic_write] completes no write but that of [content]. *)
Lemma emits_atomic_write P p c :
  (∀ e, no_write e → P e) → (∀ k, P (EvWrite k c)) → emits P (atomic_write p c).
Proof.
  intros Hn Hw. unfold atomic_write. emits_auto.
  all: first
    [ eapply emits_mono; [|apply emits_ensure_parent_dir];
      intros e He; by apply Hn, is_mkdir_no_write
    | apply emits_write_text; [done|]; intros k c'; by apply Hn
    | eapply emits_mono; [|apply emits_path_replace]; done ].
Qed.

(** ** Sanitized writes *)

Lemma sanitize_clean c : _content_has_command_lines (Some (sanitize c)) = false.
Proof.
  unfold sanitize.
  destruct (_content_has_command_lines (Some (_normalize_content_for_writing_from_fence _)))
    eqn:E; [apply strip_command_lines_clean|done].
Qed.

Lemma strip_if_commands_clean t :
  _content_has_command_lines (Some (strip_if_commands t)) = false.
Proof.
  unfold strip_if_commands.
  destruct (_content_has_command_lines (Some t)) eqn:E;
    [apply strip_command_lines_clean|done].
Qed.

Lemma emits_atomic_write_clean p c :
  _content_has_command_lines (Some c) = false → emits clean_write (atomic_write p c).
Proof. intros Hc. apply emits_atomic_write; [apply no_write_clean|done]. Qed.

(** The rules for the pieces the handlers are made of, with the events
    weakened to [clean_write]. *)
Ltac clean_prim :=
  first
    [ apply emits_safe_target
    | apply emits_read_text
    | apply emits_atomic_write_clean;
        first [ apply sanitize_clean | apply strip_if_commands_clean | done
              | match goal with
                | E : sanitize _ = ?c |- _ (Some ?c) = false =>
                    rewrite <- E; apply sanitize_clean
                end ]
    | apply emits_write_text; [intros ?; done | intros ? ?; done]
    | eapply emits_mono; [apply no_write_clean|];
        first [ apply emits_make_timestamped_backup | apply emits_discard_backup
              | apply emits_restore_backup | apply emits_shutil_copy
              | apply emits_path_unlink | apply emits_remove_file_safe ]
    | eapply emits_mono; [intros ? ?; by apply no_write_clean, is_mkdir_no_write|];
        first [ apply emits_ensure_parent_dir | apply emits_mkdir_parents
              | apply emits_mkdir_one ] ].

Section SanitizedWrites.
Context `{UD : UnicodeData}.

Lemma handle_create_file_clean args base : emits clean_write (handle_create_file args base).
Proof.
  unfold handle_create_file. emits_auto; clean_prim.
Qed.

Lemma handle_set_whole_clean args base :
  head args ≠ Some (u "line") → emits clean_write (handle_set args base).
Proof.
  intros Hline. unfold handle_set. destruct args as [|first rest]; [apply emits_ret|].
  rewrite bool_decide_eq_false_2 by (intros ->; done).
  emits_auto; clean_prim.
Qed.

Lemma handle_replace_clean args base : emits clean_write (handle_replace args base).
Proof. unfold handle_replace. emits_auto; clean_prim. Qed.

Lemma handle_patch_clean args base : emits clean_write (handle_patch args base).
Proof. unfold handle_patch. emits_auto; clean_prim. Qed.

Lemma handle_append_appends path_arg rest base :
  emits (appends (sanitize (content_of_args rest))) (handle_append (path_arg :: rest) base).
Proof.
  unfold handle_append. emits_auto.
  1: apply emits_safe_target.
  1: eapply emits_mono; [|apply emits_ensure_parent_dir];
       intros e He; by apply no_write_appends, is_mkdir_no_write.
  all: try apply emits_read_text.
  all: match goal with E : sanitize _ = _ |- _ => rewrite <- E end.
  all: apply emits_atomic_write; [apply no_write_appends|]; intros k; simpl; eauto.
Qed.

End SanitizedWrites.

(** ** The sandbox *)

Lemma normalize_from_no_dotdot comps : ∀ cur,
  DOTDOT ∉ cur → DOTDOT ∉ normalize_from cur comps.
Proof.
  induction comps as [|c comps IH]; intros cur Hcur; simpl; [done|].
  destruct (decide (c = DOTDOT)) as [->|Hc]; apply IH.
  - intros H. apply Hcur. destruct cur as [|a cur] using rev_ind; [done|].
    rewrite removelast_last in H. apply elem_of_app. by left.
  - intros [H|H%list_elem_of_singleton]%elem_of_app; done.
Qed.

Lemma normalize_from_id comps : ∀ cur,
  DOTDOT ∉ comps → normalize_from cur comps = cur ++ comps.
Proof.
  induction comps as [|c comps IH]; intros cur Hc; simpl; [by rewrite app_nil_r|].
  apply not_elem_of_cons in Hc as [Hc1 Hc2].
  rewrite decide_False by done. rewrite IH by done. by rewrite <- app_assoc.
Qed.

(** Resolving a resolved path changes nothing. *)
Lemma resolve_idempotent w p : resolve w (resolve w p) = resolve w p.
Proof.
  unfold resolve, abs_parts. simpl. f_equal.
  apply (normalize_from_id _ []), normalize_from_no_dotdot. by intros ?%elem_of_nil.
Qed.

Lemma forallb_removelast {A} (f : A → bool) l :
  forallb f l = true → forallb f (removelast l) = true.
Proof.
  destruct l as [|x l _] using rev_ind; [done|].
  rewrite removelast_last, forallb_app. by intros [? _]%andb_prop.
Qed.

(** Folding the double dots of a path that can be encoded gives one that
    can. *)
Lemma fs_encodable_normalize comps : ∀ cur,
  fs_encodable cur = true → fs_encodable comps = true →
  fs_encodable (normalize_from cur comps) = true.
Proof.
  induction comps as [|c comps IH]; intros cur Hcur Hc; simpl; [done|].
  simpl in Hc. apply andb_prop in Hc as [Hc1 Hc2].
  destruct (decide (c = DOTDOT)); apply IH; try done.
  - by apply forallb_removelast.
  - unfold fs_encodable in *. rewrite forallb_app. simpl. by rewrite Hcur, Hc1.
Qed.

Lemma fs_encodable_resolve w p :
  fs_encodable (abs_parts w p) = true → fs_encodable (abs_parts w (resolve w p)) = true.
Proof. intros H. unfold resolve, abs_parts at 1. simpl. by apply fs_encodable_normalize. Qed.

Lemma path_in_sandbox_resolve w p base :
  fs_encodable (abs_parts w p) = true →
  path_in_sandbox w (resolve w p) base = path_in_sandbox w p base.
Proof.
  intros H. unfold path_in_sandbox.
  by rewrite resolve_idempotent, H, fs_encodable_resolve.
Qed.

(** [_safe_target] leaves the world alone; it returns the candidate, resolved
    when it exists, exactly when the resolved candidate lies in the resolved
    base directory. *)
Lemma safe_target_spec base raw w :
  _safe_target base raw w =
  let cand := sandbox_candidate base raw in
  if path_in_sandbox w cand base
  then (Ok (if path_exists w cand then resolve w cand else cand), w)
  else (Raise (PermissionError raw), w).
Proof.
  unfold _safe_target, sandbox_candidate. cbn zeta.
  set (cand := if negb _ then _ else _).
  rewrite bind_unfold. unfold get_world, gets. cbn [id].
  destruct (fs_encodable (abs_parts w cand)) eqn:Eenc; cbn [andb].
  - destruct (path_exists w cand); [rewrite path_in_sandbox_resolve by done|];
      by destruct (path_in_sandbox w cand base).
  - assert (path_in_sandbox w cand base = false) as ->; [|done].
    unfold path_in_sandbox. by rewrite Eenc.
Qed.



Section SandboxedHandlers.
Context `{UD : UnicodeData}.













(** [handle_create_file] checks its target itself: outside the base
    directory it returns without a change. *)
Lemma handle_create_file_outside args base w :
  path_in_sandbox w (create_file_plan w args base).1 base = false →
  handle_create_file args base w = (Ok tt, w).
Proof.
  intros H. unfold handle_create_file. destruct args as [|a args]; [done|].
  rewrite bind_unfold. unfold get_world, gets. cbn [id].
  destruct (create_file_plan w (a :: args) base) as [t c].
  simpl in H. by rewrite H.
Qed.


End SandboxedHandlers.


(** ** The file system: walking and locating *)

Lemma fs_grows_ext fs fs' : fs_grows fs fs' → fs_ext fs fs'.
Proof. intros H k. apply H. Qed.

Lemma fs_ext_refl fs : fs_ext fs fs.
Proof. by intros k. Qed.

Lemma fs_ext_trans fs1 fs2 fs3 : fs_ext fs1 fs2 → fs_ext fs2 fs3 → fs_ext fs1 fs3.
Proof. intros H1 H2 k Hk. by apply H2, H1. Qed.

Lemma fs_grows_refl fs : fs_grows fs fs.
Proof. by intros k n. Qed.

Lemma fs_grows_trans fs1 fs2 fs3 : fs_grows fs1 fs2 → fs_grows fs2 fs3 → fs_grows fs1 fs3.
Proof. intros H1 H2 k n Hk. by apply H2, H1. Qed.

(** Writing a file where no directory is keeps the directories. *)
Lemma fs_ext_insert_file fs k c : fs !! k ≠ Some Dir → fs_ext fs (<[k := File c]> fs).
Proof.
  intros Hk k' Hk'. destruct (decide (k = k')) as [->|]; [done|].
  by rewrite lookup_insert_ne.
Qed.

Lemma fs_grows_insert fs k n : fs !! k = None → fs_grows fs (<[k := n]> fs).
Proof.
  intros Hk k' n' Hk'. destruct (decide (k = k')) as [->|]; [congruence|].
  by rewrite lookup_insert_ne.
Qed.

Lemma walk_dirs_ext fs fs' comps : ∀ cur d,
  fs_ext fs fs' → walk_dirs fs cur comps = inr d → walk_dirs fs' cur comps = inr d.
Proof.
  induction comps as [|c comps IH]; intros cur d Hext; simpl; [done|].
  destruct (decide (c = DOTDOT)); [by apply IH|].
  destruct (fs !! (cur ++ [c])) as [[|]|] eqn:E; try done.
  rewrite (Hext _ E). by apply IH.
Qed.

Lemma locate_parts_ext fs fs' comps k :
  fs_ext fs fs' → locate_parts fs comps = inr k → locate_parts fs' comps = inr k.
Proof.
  intros Hext. unfold locate_parts. destruct (last comps) as [l|]; [|done].
  destruct (walk_dirs fs [] (removelast comps)) as [e|d] eqn:E; [done|].
  by rewrite (walk_dirs_ext _ _ _ _ _ Hext E).
Qed.

Lemma dirs_ok_nil fs : dirs_ok fs [].
Proof. intros p Hp Hne. by apply prefix_nil_inv in Hp. Qed.

Lemma dirs_ok_removelast fs k : dirs_ok fs k → dirs_ok fs (removelast k).
Proof.
  intros Hk p Hp. apply Hk. etrans; [done|].
  destruct k as [|a k _] using rev_ind; [done|].
  rewrite removelast_last. by apply prefix_app_r.
Qed.

Lemma dirs_ok_snoc fs k c : dirs_ok fs k → fs !! (k ++ [c]) = Some Dir → dirs_ok fs (k ++ [c]).
Proof.
  intros Hk Hc p Hp Hne.
  destruct (decide (p = k ++ [c])) as [->|Hpk]; [done|].
  apply Hk; [|done]. destruct Hp as [t Ht].
  destruct t as [|b t _] using rev_ind.
  - rewrite app_nil_r in Ht. done.
  - rewrite app_assoc in Ht. apply app_inj_tail in Ht as [-> _]. by eexists.
Qed.

Lemma dirs_ok_node fs k : dirs_ok fs k → node_at fs k = Some Dir.
Proof. intros Hk. destruct k as [|a k]; [done|]. simpl. by apply Hk. Qed.

Lemma walk_dirs_dirs_ok fs comps : ∀ cur d,
  dirs_ok fs cur → walk_dirs fs cur comps = inr d → dirs_ok fs d.
Proof.
  induction comps as [|c comps IH]; intros cur d Hcur; simpl; [by intros [= <-]|].
  destruct (decide (c = DOTDOT)); [by apply IH, dirs_ok_removelast|].
  destruct (fs !! (cur ++ [c])) as [[|]|] eqn:E; try done.
  by apply IH, dirs_ok_snoc.
Qed.

(** A path whose last component is a name is located in the directory its
    other components lead to. *)
Lemma locate_parts_name fs comps k l :
  locate_parts fs comps = inr k → last comps = Some l → l ≠ DOTDOT →
  ∃ d, k = d ++ [l] ∧ walk_dirs fs [] (removelast comps) = inr d ∧ dirs_ok fs d.
Proof.
  unfold locate_parts. intros H Hl Hne. rewrite Hl in H.
  destruct (walk_dirs fs [] (removelast comps)) as [e|d] eqn:E; [done|].
  rewrite decide_False in H by done. injection H as <-.
  exists d. split; [done|]. split; [done|].
  eapply walk_dirs_dirs_ok; [apply dirs_ok_nil|done].
Qed.

(** A path that ends in double dots, or has no component, leads to a
    directory. *)
Lemma locate_parts_dir fs comps k :
  locate_parts fs comps = inr k → (last comps = None ∨ last comps = Some DOTDOT) →
  node_at fs k = Some Dir.
Proof.
  unfold locate_parts. intros H [Hl|Hl]; rewrite Hl in H.
  - by injection H as <-.
  - destruct (walk_dirs fs [] (removelast comps)) as [e|d] eqn:E; [done|].
    rewrite decide_True in H by done. injection H as <-.
    apply dirs_ok_node, dirs_ok_removelast.
    eapply walk_dirs_dirs_ok; [apply dirs_ok_nil|done].
Qed.

(** The key of a regular file ends with the last component of any path that
    leads to it. *)
Lemma locate_parts_file fs comps k c :
  locate_parts fs comps = inr k → node_at fs k = Some (File c) →
  ∃ d l, last comps = Some l ∧ l ≠ DOTDOT ∧ k = d ++ [l]
         ∧ walk_dirs fs [] (removelast comps) = inr d ∧ dirs_ok fs d.
Proof.
  intros Hloc Hnode. destruct (last comps) as [l|] eqn:Hl.
  - destruct (decide (l = DOTDOT)) as [->|Hne].
    + rewrite (locate_parts_dir _ _ _ Hloc) in Hnode by auto. done.
    + destruct (locate_parts_name _ _ _ _ Hloc Hl Hne) as (d & -> & Hw & Hd).
      by exists d, l.
  - rewrite (locate_parts_dir _ _ _ Hloc) in Hnode by auto. done.
Qed.

(** ** What the primitives leave in place *)

Section Preserves.
Context (R : world → world → Prop) `{!Reflexive R, !Transitive R}.

Lemma preserves_ret {A} (a : A) : preserves R (mret a).
Proof. intros w. simpl. reflexivity. Qed.

Lemma preserves_raise {A} e : preserves R (@raise A e).
Proof. intros w. simpl. reflexivity. Qed.

Lemma preserves_lift {A} (r : res A) : preserves R (lift r).
Proof. intros w. simpl. reflexivity. Qed.

Lemma preserves_bind {A B} (m : M A) (k : A → M B) :
  preserves R m → (∀ a, preserves R (k a)) → preserves R (m ≫= k).
Proof.
  intros Hm Hk w. rewrite bind_unfold. specialize (Hm w).
  destruct (m w) as [[a|e] w1]; simpl in *; [|done].
  etrans; [done|]. apply Hk.
Qed.

Lemma preserves_try {A} (m : M A) (h : exn → M A) :
  preserves R m → (∀ e, preserves R (h e)) → preserves R (try_except m h).
Proof.
  intros Hm Hh w. unfold try_except. specialize (Hm w).
  destruct (m w) as [[a|e] w1]; simpl in *; [done|].
  etrans; [done|]. apply Hh.
Qed.

(** The world a computation reads is the one it runs in. *)
Lemma preserves_get_world {A} (k : world → M A) :
  (∀ w, R w (k w w).2) → preserves R (get_world ≫= k).
Proof. intros Hk w. apply Hk. Qed.

End Preserves.

Global Instance world_grows_refl : Reflexive world_grows.
Proof. intros w. split; [apply fs_grows_refl|done]. Qed.

Global Instance world_grows_trans : Transitive world_grows.
Proof.
  intros w1 w2 w3 (Ha & Hb & Hc & Hd) (Ha' & Hb' & Hc' & Hd').
  split; [by eapply fs_grows_trans|]. repeat split; congruence.
Qed.

Lemma io_fault_run w :
  ∃ f fl, io_fault w = (Ok f, World (files w) (cwd w) (now w) fl (clipboard w) (trace w)).
Proof.
  unfold io_fault. destruct w as [fs c n [|f fl] cl t]; simpl; eauto.
Qed.

Lemma world_grows_faults w fl :
  world_grows w (World (files w) (cwd w) (now w) fl (clipboard w) (trace w)).
Proof. split; [apply fs_grows_refl|done]. Qed.

Lemma preserves_io_fault_grows : preserves world_grows io_fault.
Proof.
  intros w. destruct (io_fault_run w) as (f & fl & ->). apply world_grows_faults.
Qed.

Lemma node_at_None fs k : node_at fs k = None → k ≠ [] ∧ fs !! k = None.
Proof. by destruct k. Qed.

Lemma os_mkdir_grows p : preserves world_grows (os_mkdir p).
Proof.
  unfold os_mkdir. apply preserves_bind; [apply _|apply preserves_io_fault_grows|].
  intros f. apply preserves_get_world. intros w.
  destruct (last (abs_parts w p)), (locate w p) as [e|k]; try reflexivity.
  destruct (decide (_ = DOTDOT)); [reflexivity|].
  destruct (node_at (files w) k) eqn:E; [reflexivity|].
  destruct (failed f); [reflexivity|].
  apply node_at_None in E as [_ E]. split; [|done]. by apply fs_grows_insert.
Qed.

Lemma mkdir_exist_ok_grows p e : preserves world_grows (mkdir_exist_ok p e).
Proof.
  unfold mkdir_exist_ok. destruct e; try apply preserves_raise; try apply _.
  apply preserves_get_world. intros w. destruct (is_dir w p); reflexivity.
Qed.

Lemma mkdir_one_grows p : preserves world_grows (mkdir_one p).
Proof.
  unfold mkdir_one. apply preserves_try; [apply _|apply os_mkdir_grows|].
  intros [| |[]|]; first [apply preserves_raise; apply _ | apply mkdir_exist_ok_grows].
Qed.

Lemma mkdir_p_grows fuel : ∀ p, preserves world_grows (mkdir_p fuel p).
Proof.
  induction fuel as [|fuel IH]; intros p; simpl.
  all: apply preserves_try; [apply _|apply os_mkdir_grows|].
  all: intros [| |[]|]; try apply mkdir_exist_ok_grows.
  all: destruct (decide (path_parent p = p)); try (apply preserves_raise; apply _).
  apply preserves_bind; [apply _|apply IH|]. intros _. apply mkdir_one_grows.
Qed.

Lemma ensure_parent_dir_grows p : preserves world_grows (ensure_parent_dir p).
Proof. apply mkdir_p_grows. Qed.

(** ** The atomic write *)

Lemma rfind_char_bound c s : ∀ k i, rfind_char c s k = Some i → k ≤ i < k + length s.
Proof.
  induction s as [|d s IH]; intros k i; simpl; [done|].
  destruct (rfind_char c s (S k)) as [j|] eqn:E.
  - intros [= <-]. apply IH in E. lia.
  - destruct (d =? c)%N; [|done]. intros [= <-]. lia.
Qed.

Lemma path_name_last p l : last (parts p) = Some l → path_name p = l.
Proof. unfold path_name. by intros ->. Qed.

(** The temporary sibling: the name of the path followed by [.tmp]. *)
Lemma with_suffix_tmp p p' :
  with_suffix p (path_suffix p ++ u ".tmp") = Ok p' →
  ∃ l, last (parts p) = Some l ∧ l ≠ []
       ∧ p' = Path (anchored p) (removelast (parts p) ++ [l ++ u ".tmp"]).
Proof.
  unfold with_suffix. destruct (last (parts p)) as [l|] eqn:Hl.
  2:{ unfold path_name. by rewrite Hl. }
  rewrite (path_name_last _ _ Hl).
  destruct l as [|a t]; [done|]. remember (a :: t) as l eqn:Hat.
  destruct (_ || _); [done|]. intros [= <-].
  exists l. split; [done|]. split; [by rewrite Hat|]. do 3 f_equal.
  unfold path_suffix. rewrite (path_name_last _ _ Hl).
  clear Hat. destruct (rfind_char DOT l 0) as [i|] eqn:Ei; [|done].
  apply rfind_char_bound in Ei.
  destruct (bool_decide_reflect (0 < i < length l - 1)) as [Hi|Hi]; [|done].
  destruct (drop i l) as [|b t'] eqn:Ed.
  { apply (f_equal length) in Ed. rewrite length_drop in Ed. simpl in Ed. lia. }
  rewrite <- Ed, length_drop.
  replace (length l - (length l - i)) with i by lia.
  by rewrite app_assoc, take_drop.
Qed.

Lemma locate_grows w w1 p k :
  world_grows w w1 → locate w p = inr k → locate w1 p = inr k.
Proof.
  intros (Hg & Hc & _). unfold locate, abs_parts. rewrite Hc.
  apply locate_parts_ext, fs_grows_ext, Hg.
Qed.

Lemma locate_ext w w1 p k :
  fs_ext (files w) (files w1) → cwd w1 = cwd w →
  locate w p = inr k → locate w1 p = inr k.
Proof.
  intros Hg Hc. unfold locate, abs_parts. rewrite Hc. by apply locate_parts_ext.
Qed.

Lemma read_path_inv w p c :
  read_path w p = Some c →
  ∃ k, locate w p = inr k ∧ node_at (files w) k = Some (File c).
Proof.
  unfold read_path, stat. destruct (locate w p) as [e|k]; [done|].
  destruct (node_at (files w) k) as [[c'|]|] eqn:E; try done.
  intros [= ->]. by exists k.
Qed.

Lemma read_path_intro w p k c :
  locate w p = inr k → node_at (files w) k = Some (File c) → read_path w p = Some c.
Proof. unfold read_path, stat. by intros -> ->. Qed.

(** What a write leaves: nothing changed and an error, or the file at the
    located key holding the text or, after an interruption, a part of it. *)
Lemma write_text_run p c w :
  ∃ r w', write_text p c w = (r, w')
    ∧ cwd w' = cwd w ∧ now w' = now w ∧ clipboard w' = clipboard w
    ∧ ((∃ e, r = Raise e ∧ files w' = files w)
       ∨ (∃ k l c', locate w p = inr k ∧ last (abs_parts w p) = Some l ∧ l ≠ DOTDOT
            ∧ node_at (files w) k ≠ Some Dir
            ∧ files w' = <[k := File c']> (files w)
            ∧ ((r = Ok tt ∧ c' = c) ∨ ∃ e, r = Raise e))).
Proof.
  unfold write_text. rewrite bind_unfold.
  destruct (io_fault_run w) as (f & fl & ->). rewrite bind_unfold.
  unfold get_world, gets. cbn [id].
  set (w0 := World _ _ _ fl _ _).
  change (locate w0 p) with (locate w p). change (abs_parts w0 p) with (abs_parts w p).
  change (files w0) with (files w).
  destruct (last (abs_parts w p)) as [l|] eqn:Hl.
  2:{ do 2 eexists. split; [done|]. repeat split; try done. left. eauto. }
  destruct (locate w p) as [e|k] eqn:Hk.
  { do 2 eexists. split; [done|]. repeat split; try done. left. eauto. }
  destruct (decide (l = DOTDOT)).
  { do 2 eexists. split; [done|]. repeat split; try done. left. eauto. }
  destruct (node_at (files w) k) as [[c1|]|] eqn:Hn.
  2:{ do 2 eexists. split; [done|]. repeat split; try done. left. eauto. }
  all: destruct f as [[|n']|]; [| |].
  all: try (do 2 eexists; split; [done|]; repeat split; try done; left; by eauto).
  all: destruct (has_surrogate c).
  all: do 2 eexists; (split; [done|]); (split; [done|]); (split; [done|]);
       (split; [done|]); right; exists k, l; eexists;
       (split; [done|]); (split; [done|]); (split; [done|]);
       (split; [congruence|]); (split; [simpl; reflexivity|]); eauto.
Qed.

Lemma node_at_lookup fs k : k ≠ [] → node_at fs k = fs !! k.
Proof. by destruct k. Qed.

(** Renaming a regular file onto a path that is no directory: done, or an
    error and nothing changed. *)
Lemma path_replace_file src dst w ks kd c :
  locate w src = inr ks → locate w dst = inr kd →
  ks ≠ [] → kd ≠ [] → ks ≠ kd →
  files w !! ks = Some (File c) → node_at (files w) kd ≠ Some Dir →
  ∃ r w', path_replace src dst w = (r, w')
    ∧ cwd w' = cwd w ∧ now w' = now w ∧ clipboard w' = clipboard w
    ∧ ((r = Ok tt ∧ files w' = <[kd := File c]> (delete ks (files w)))
       ∨ (∃ e, r = Raise e ∧ files w' = files w)).
Proof.
  intros Hs Hd Hks Hkd Hne Hc Hn.
  unfold path_replace. rewrite bind_unfold.
  destruct (io_fault_run w) as (f & fl & ->). rewrite bind_unfold.
  unfold get_world, gets. cbn [id].
  set (w0 := World _ _ _ fl _ _).
  change (locate w0 src) with (locate w src). change (locate w0 dst) with (locate w dst).
  change (files w0) with (files w).
  rewrite Hs, Hd, (node_at_lookup _ ks), Hc by done.
  rewrite decide_False by done. rewrite decide_False by (intros [?|?]; done).
  assert (∃ r w', (if failed f then raise (OSError EIO) else emit (EvRename ks kd)) w0
                  = (r, w')
    ∧ cwd w' = cwd w ∧ now w' = now w ∧ clipboard w' = clipboard w
    ∧ ((r = Ok tt ∧ files w' = <[kd := File c]> (delete ks (files w)))
       ∨ (∃ e, r = Raise e ∧ files w' = files w))) as Hgo.
  { destruct (failed f).
    - do 2 eexists. split; [done|]. repeat split; try done. right. eauto.
    - do 2 eexists. split; [done|]. repeat split; try done. left. split; [done|].
      simpl. by rewrite Hc. }
  destruct (node_at (files w) kd) as [[c0|]|]; done.
Qed.

Lemma fs_ext_rename_file fs ks kd c :
  fs !! ks = Some (File c) → fs !! kd ≠ Some Dir →
  fs_ext fs (<[kd := File c]> (delete ks fs)).
Proof.
  intros Hs Hd k Hk.
  destruct (decide (kd = k)) as [->|]; [done|]. rewrite lookup_insert_ne by done.
  destruct (decide (ks = k)) as [->|]; [congruence|]. by rewrite lookup_delete_ne.
Qed.

(** The write step is all or nothing: when the path leads to a regular
    file, [atomic_write] either returns and the file holds the new content, or
    raises and the file holds what it held, whatever fails and wherever. *)
Lemma atomic_write_all_or_nothing path content w c0 :
  read_path w path = Some c0 →
  match atomic_write path content w with
  | (Ok _, w') => read_path w' path = Some content
  | (Raise _, w') => read_path w' path = Some c0
  end.
Proof.
  intros (K & HK & Hnode)%read_path_inv.
  destruct (locate_parts_file _ _ _ _ HK Hnode) as (d & l & Hl & Hne & -> & Hwalk & Hd).
  unfold atomic_write. rewrite bind_unfold.
  pose proof (ensure_parent_dir_grows path w) as Hg.
  destruct (ensure_parent_dir path w) as [[[]|e1] w1]; simpl in Hg.
  2:{ eapply read_path_intro; [by eapply locate_grows|].
      rewrite node_at_lookup in * by (by destruct d). by apply Hg. }
  assert (files w1 !! (d ++ [l]) = Some (File c0)) as Hc1.
  { rewrite node_at_lookup in Hnode by (by destruct d). by apply Hg. }
  pose proof (locate_grows _ _ _ _ Hg HK) as HK1.
  cbn [negb ATOMIC_WRITE]. rewrite bind_unfold. unfold lift at 1.
  destruct (with_suffix path (path_suffix path ++ u ".tmp")) as [tmp|e2] eqn:Htmp.
  2:{ eapply read_path_intro; [done|]. by rewrite node_at_lookup by (by destruct d). }
  apply with_suffix_tmp in Htmp as (l' & Hl' & Hl'ne & ->).
  assert (l' = l ∧ abs_parts w1 path = removelast (abs_parts w1 path) ++ [l]) as [-> Habs].
  { destruct Hg as (_ & Hcwd & _). unfold abs_parts in *. rewrite Hcwd.
    apply last_Some in Hl' as [ps Hps]. rewrite Hps in *.
    destruct (anchored path).
    - rewrite last_snoc in Hl. injection Hl as ->. by rewrite removelast_last.
    - rewrite app_assoc, last_snoc in Hl. injection Hl as ->.
      by rewrite app_assoc, removelast_last. }
  set (tmp := Path _ _).
  assert (abs_parts w1 tmp = removelast (abs_parts w1 path) ++ [l ++ u ".tmp"]) as Htabs.
  { unfold abs_parts, tmp. simpl. apply last_Some in Hl' as [ps Hps]. rewrite Hps.
    destruct (anchored path); rewrite ?app_assoc, !removelast_last; [done|].
    by rewrite <- app_assoc. }
  assert (walk_dirs (files w1) [] (removelast (abs_parts w1 path)) = inr d) as Hwalk1.
  { eapply walk_dirs_ext; [apply fs_grows_ext, Hg|].
    destruct Hg as (_ & Hcwd & _). unfold abs_parts in *. by rewrite Hcwd. }
  assert (l ++ u ".tmp" ≠ DOTDOT) as Htne.
  { intros H. apply (f_equal length) in H. rewrite length_app in H.
    destruct l; simpl in *; [done|lia]. }
  assert (locate w1 tmp = inr (d ++ [l ++ u ".tmp"])) as Hkt.
  { unfold locate, locate_parts. rewrite Htabs, last_snoc, removelast_last, Hwalk1.
    by rewrite decide_False. }
  assert (d ++ [l ++ u ".tmp"] ≠ d ++ [l]) as Hkne.
  { intros H%app_inv_head. injection H as H. apply (f_equal length) in H.
    rewrite length_app in H. simpl in H. lia. }
  rewrite bind_unfold.
  destruct (write_text_run tmp content w1)
    as (r2 & w2 & -> & Hcwd2 & _ & _ & Hw2).
  destruct Hw2 as [(e & -> & Hf2)|(k & l2 & c' & Hk & _ & _ & Hnd & Hf2 & Hr2)].
  { eapply read_path_intro; [eapply locate_ext; [|done..]|]; rewrite Hf2;
      [apply fs_ext_refl|by rewrite node_at_lookup by (by destruct d)]. }
  rewrite Hkt in Hk. injection Hk as <-.
  assert (fs_ext (files w1) (files w2)) as Hext2.
  { rewrite Hf2. apply fs_ext_insert_file. by rewrite <- node_at_lookup by (by destruct d). }
  pose proof (locate_ext _ _ _ _ Hext2 Hcwd2 HK1) as HK2.
  pose proof (locate_ext _ _ _ _ Hext2 Hcwd2 Hkt) as Hkt2.
  assert (files w2 !! (d ++ [l]) = Some (File c0)) as Hc2.
  { rewrite Hf2. by rewrite lookup_insert_ne. }
  destruct Hr2 as [[-> ->]|[e ->]].
  2:{ eapply read_path_intro; [done|]. by rewrite node_at_lookup by (by destruct d). }
  destruct (path_replace_file tmp path w2 _ _ content Hkt2 HK2)
    as (r3 & w3 & -> & Hcwd3 & _ & _ & Hw3);
    try (by destruct d); try done.
  { rewrite Hf2. apply lookup_insert_eq. }
  { rewrite node_at_lookup by (by destruct d). congruence. }
  destruct Hw3 as [[-> Hf3]|(e & -> & Hf3)].
  - eapply read_path_intro.
    + eapply locate_ext; [|done..]. rewrite Hf3. apply fs_ext_rename_file.
      * rewrite Hf2. apply lookup_insert_eq.
      * congruence.
    + rewrite node_at_lookup by (by destruct d). rewrite Hf3. apply lookup_insert_eq.
  - eapply read_path_intro.
    + eapply locate_ext; [|done..]. rewrite Hf3. apply fs_ext_refl.
    + rewrite node_at_lookup by (by destruct d). by rewrite Hf3.
Qed.

(** ** Running the primitives on a known schedule *)

Lemma step_world_step w fs1 evs1 n1 fs2 evs2 n2 :
  step_world (step_world w fs1 evs1 n1) fs2 evs2 n2
  = step_world w fs2 (evs1 ++ evs2) (n1 + n2).
Proof.
  unfold step_world. simpl. rewrite drop_drop, app_assoc. done.
Qed.

Lemma step_world_id w : step_world w (files w) [] 0 = w.
Proof. destruct w. unfold step_world. simpl. by rewrite app_nil_r. Qed.

Lemma fault_at_step w fs evs n i : fault_at (step_world w fs evs n) i = fault_at w (n + i).
Proof. unfold fault_at. simpl. by rewrite lookup_drop. Qed.

Lemma io_fault_step w : io_fault w = (Ok (fault_at w 0), pop_fault w).
Proof.
  unfold io_fault, fault_at, pop_fault, step_world.
  destruct w as [fs c n [|f fl] cl t]; simpl; by rewrite ?app_nil_r.
Qed.

Lemma locate_step w fs evs n p :
  locate (step_world w fs evs n) p = locate_parts fs (abs_parts w p).
Proof. reflexivity. Qed.

Lemma abs_parts_step w fs evs n p : abs_parts (step_world w fs evs n) p = abs_parts w p.
Proof. reflexivity. Qed.

Lemma stat_step w fs evs n p :
  stat (step_world w fs evs n) p = stat (step_world w fs [] 0) p.
Proof. reflexivity. Qed.

Lemma stat_files w w' p :
  files w' = files w → cwd w' = cwd w → stat w' p = stat w p.
Proof. unfold stat, locate, abs_parts. by intros -> ->. Qed.

Lemma is_dir_files w w' p :
  files w' = files w → cwd w' = cwd w → is_dir w' p = is_dir w p.
Proof. unfold is_dir. intros H1 H2. by rewrite (stat_files _ _ _ H1 H2). Qed.

Lemma path_exists_files w w' p :
  files w' = files w → cwd w' = cwd w → path_exists w' p = path_exists w p.
Proof. unfold path_exists. intros H1 H2. by rewrite (stat_files _ _ _ H1 H2). Qed.

Lemma read_path_files w w' p :
  files w' = files w → cwd w' = cwd w → read_path w' p = read_path w p.
Proof. unfold read_path. intros H1 H2. by rewrite (stat_files _ _ _ H1 H2). Qed.

(** [os.mkdir] of a path that exists raises, whatever the schedule says. *)
Lemma os_mkdir_exists p w :
  path_exists w p = true → os_mkdir p w = (Raise (OSError EEXIST), pop_fault w).
Proof.
  intros Hex. unfold os_mkdir. rewrite bind_unfold, io_fault_step, bind_unfold.
  unfold get_world, gets. cbn [id].
  unfold path_exists, stat in Hex. unfold pop_fault at 1 2 3. rewrite locate_step, abs_parts_step.
  change (locate_parts (files w) (abs_parts w p)) with (locate w p).
  destruct (last (abs_parts w p)) as [l|]; [|done].
  destruct (locate w p) as [e|k]; [done|].
  destruct (decide (l = DOTDOT)); [done|].
  change (files (step_world w (files w) [] 1)) with (files w).
  by destruct (node_at (files w) k).
Qed.

(** Creating the parents of a path below an existing directory changes
    nothing and uses one entry of the schedule. *)
Lemma mkdir_p_existing fuel p w :
  is_dir w p = true → mkdir_p fuel p w = (Ok tt, pop_fault w).
Proof.
  intros Hd. assert (path_exists w p = true) as Hex.
  { unfold is_dir, path_exists in *. by destruct (stat w p). }
  assert (is_dir (pop_fault w) p = true) as Hd' by (by rewrite <- Hd).
  destruct fuel; simpl; unfold try_except; rewrite os_mkdir_exists by done;
    unfold mkdir_exist_ok; rewrite bind_unfold; unfold get_world, gets; cbn [id];
    by rewrite Hd'.
Qed.

Lemma bind_ok {A B} (m : M A) (k : A → M B) w a w' :
  m w = (Ok a, w') → (m ≫= k) w = k a w'.
Proof. intros H. by rewrite bind_unfold, H. Qed.

Lemma bind_raise {A B} (m : M A) (k : A → M B) w e w' :
  m w = (Raise e, w') → (m ≫= k) w = (Raise e, w').
Proof. intros H. by rewrite bind_unfold, H. Qed.

Lemma bind_get_world {A} (k : world → M A) w : (get_world ≫= k) w = k w w.
Proof. reflexivity. Qed.

Lemma try_except_ok {A} (m : M A) h w a w' :
  m w = (Ok a, w') → try_except m h w = (Ok a, w').
Proof. unfold try_except. by intros ->. Qed.

Lemma try_except_raise {A} (m : M A) h w e w' :
  m w = (Raise e, w') → try_except m h w = h e w'.
Proof. unfold try_except. by intros ->. Qed.

Lemma emit_step e w fs evs n :
  emit e (step_world w fs evs n) = (Ok tt, step_world w (apply_event e fs) (evs ++ [e]) n).
Proof. unfold emit, step_world. simpl. by rewrite app_assoc. Qed.

Lemma pop_fault_step w fs evs n :
  pop_fault (step_world w fs evs n) = step_world w fs evs (n + 1).
Proof. unfold pop_fault. simpl. by rewrite step_world_step, app_nil_r. Qed.

Lemma walk_dirs_app fs a b : ∀ cur,
  walk_dirs fs cur (a ++ b) =
  match walk_dirs fs cur a with
  | inr d => walk_dirs fs d b
  | inl e => inl e
  end.
Proof.
  induction a as [|c a IH]; intros cur; simpl; [done|].
  destruct (decide (c = DOTDOT)); [apply IH|].
  destruct (fs !! (cur ++ [c])) as [[|]|]; auto.
Qed.

Section Sited.
Context (fs : gmap (list (list N)) node) (cw : list (list N)).
Context (target : PurePath) (d : list (list N)) (l : pystr).
Context (w : world) (Hfs : files w = fs) (Hcw : cwd w = cw).
Hypothesis Hsite : sited fs cw target d l.

Lemma sited_abs_parts :
  ∃ init, abs_parts w target = init ++ [l] ∧ walk_dirs fs [] init = inr d.
Proof.
  destruct Hsite as (ps & Hps & _ & _ & _ & Hwalk). unfold abs_parts. rewrite Hps, Hcw.
  destruct (anchored target); [by exists ps|].
  exists (cw ++ ps). by rewrite app_assoc.
Qed.

Lemma sited_last : last (abs_parts w target) = Some l.
Proof. destruct sited_abs_parts as (init & -> & _). apply last_snoc. Qed.

Lemma sited_locate : locate w target = inr (d ++ [l]).
Proof.
  destruct sited_abs_parts as (init & Ha & Hwalk).
  unfold locate, locate_parts. rewrite Ha, last_snoc, removelast_last, Hfs, Hwalk.
  destruct Hsite as (_ & _ & Hne & _). by rewrite decide_False.
Qed.

Lemma sited_dirs_ok : dirs_ok fs d.
Proof.
  destruct sited_abs_parts as (init & _ & Hwalk).
  eapply walk_dirs_dirs_ok; [apply dirs_ok_nil|done].
Qed.

Lemma sited_name : path_name target = l.
Proof.
  destruct Hsite as (ps & Hps & _). unfold path_name. by rewrite Hps, last_snoc.
Qed.

Lemma sited_parent_is_dir : is_dir w (path_parent target) = true.
Proof.
  destruct Hsite as (ps & Hps & _ & _ & _ & Hwalk).
  unfold is_dir, stat, locate, abs_parts, path_parent. simpl.
  rewrite Hps, removelast_last, Hcw, Hfs.
  set (comps := if anchored target then ps else cw ++ ps) in *.
  assert (locate_parts fs comps = inr d ∧ node_at fs d = Some Dir) as [-> ->]; [|done].
  split; [|apply dirs_ok_node, sited_dirs_ok]. clearbody comps.
  unfold locate_parts. destruct comps as [|c comps _] using rev_ind.
  { simpl in Hwalk. by injection Hwalk as <-. }
  rewrite last_snoc, removelast_last. rewrite walk_dirs_app in Hwalk.
  destruct (walk_dirs fs [] comps) as [e|d0]; [done|]. simpl in Hwalk.
  destruct (decide (c = DOTDOT)); [done|].
  by destruct (fs !! (d0 ++ [c])) as [[|]|].
Qed.

(** A sibling of the target: the same directory, another name. *)
Lemma sited_sibling l' :
  l' ≠ DOTDOT → l' ≠ [] → SLASH ∉ l' →
  sited fs cw (Path (anchored target) (removelast (parts target) ++ [l'])) d l'.
Proof.
  intros H1 H2 H3. destruct Hsite as (ps & Hps & _ & _ & _ & Hwalk).
  exists ps. simpl. by rewrite Hps, removelast_last.
Qed.

Lemma sited_ext fs' : fs_ext fs fs' → sited fs' cw target d l.
Proof.
  intros Hext. destruct Hsite as (ps & Hps & H1 & H2 & H3 & Hwalk).
  exists ps. repeat split; try done. by eapply walk_dirs_ext.
Qed.

End Sited.

(** A path with a name that leads to a regular file is sited. *)
Lemma read_path_sited w p c :
  read_path w p = Some c → path_name p ≠ [] → SLASH ∉ path_name p →
  ∃ d l, sited (files w) (cwd w) p d l ∧ files w !! (d ++ [l]) = Some (File c).
Proof.
  intros (K & HK & Hnode)%read_path_inv Hname Hslash.
  destruct (locate_parts_file _ _ _ _ HK Hnode) as (d & l & Hl & Hne & -> & Hwalk & Hd).
  exists d, l. rewrite node_at_lookup in Hnode by (by destruct d). split; [|done].
  unfold path_name in Hname. destruct (last (parts p)) as [l'|] eqn:Hl'; [|done].
  apply last_Some in Hl' as [ps Hps]. simpl in Hname.
  unfold path_name in Hslash. rewrite Hps, last_snoc in Hslash. simpl in Hslash.
  unfold abs_parts in Hl, Hwalk. rewrite Hps in Hl, Hwalk.
  exists ps. destruct (anchored p).
  - rewrite last_snoc in Hl. injection Hl as ->. rewrite removelast_last in Hwalk. done.
  - rewrite app_assoc, last_snoc in Hl. injection Hl as ->.
    rewrite app_assoc, removelast_last in Hwalk. done.
Qed.

(** *** Single calls *)

Lemma write_text_ok p c w k l :
  fault_at w 0 = None → locate w p = inr k → last (abs_parts w p) = Some l →
  l ≠ DOTDOT → node_at (files w) k ≠ Some Dir → has_surrogate c = false →
  write_text p c w = (Ok tt, step_world w (<[k := File c]> (files w)) [EvWrite k c] 1).
Proof.
  intros Hf Hk Hl Hne Hn Hs. unfold write_text.
  rewrite bind_unfold, io_fault_step, Hf, bind_get_world.
  unfold pop_fault at 1 2 3. rewrite locate_step, abs_parts_step.
  change (locate_parts (files w) (abs_parts w p)) with (locate w p).
  rewrite Hl, Hk, decide_False by done.
  change (files (step_world w (files w) [] 1)) with (files w). rewrite Hs.
  unfold pop_fault.
  destruct (node_at (files w) k) as [[c1|]|]; [|done|]; by rewrite emit_step.
Qed.

Lemma write_text_torn p c w k l m :
  fault_at w 0 = Some (FailAfter m) → locate w p = inr k →
  last (abs_parts w p) = Some l → l ≠ DOTDOT →
  node_at (files w) k ≠ Some Dir → has_surrogate c = false →
  write_text p c w
  = (Raise (OSError EIO),
     step_world w (<[k := File (take m c)]> (files w)) [EvTorn k (take m c)] 1).
Proof.
  intros Hf Hk Hl Hne Hn Hs. unfold write_text.
  rewrite bind_unfold, io_fault_step, Hf, bind_get_world.
  unfold pop_fault at 1 2 3. rewrite locate_step, abs_parts_step.
  change (locate_parts (files w) (abs_parts w p)) with (locate w p).
  rewrite Hl, Hk, decide_False by done.
  change (files (step_world w (files w) [] 1)) with (files w). rewrite Hs.
  unfold pop_fault.
  destruct (node_at (files w) k) as [[c1|]|]; [|done|];
    by rewrite bind_unfold, emit_step.
Qed.

Lemma path_replace_ok src dst w ks kd c :
  fault_at w 0 = None → locate w src = inr ks → locate w dst = inr kd →
  ks ≠ [] → kd ≠ [] → ks ≠ kd →
  files w !! ks = Some (File c) → node_at (files w) kd ≠ Some Dir →
  path_replace src dst w
  = (Ok tt, step_world w (<[kd := File c]> (delete ks (files w))) [EvRename ks kd] 1).
Proof.
  intros Hf Hs Hd Hks Hkd Hne Hc Hn. unfold path_replace.
  rewrite bind_unfold, io_fault_step, Hf, bind_get_world.
  unfold pop_fault at 1 2 3 4 5. rewrite !locate_step.
  change (locate_parts (files w) (abs_parts w src)) with (locate w src).
  change (locate_parts (files w) (abs_parts w dst)) with (locate w dst).
  change (files (step_world w (files w) [] 1)) with (files w).
  rewrite Hs, Hd, (node_at_lookup _ ks), Hc by done.
  rewrite decide_False by done. rewrite decide_False by (intros [?|?]; done).
  unfold pop_fault, failed. rewrite bool_decide_eq_false_2 by (by intros [? ?]).
  destruct (node_at (files w) kd) as [[c0|]|]; [|done|];
    rewrite emit_step; simpl apply_event; by rewrite Hc.
Qed.

Lemma shutil_copy_ok src dst w ks kd l c :
  fault_at w 0 = None → is_dir w dst = false →
  locate w src = inr ks → ks ≠ [] → files w !! ks = Some (File c) →
  locate w dst = inr kd → last (abs_parts w dst) = Some l → l ≠ DOTDOT →
  ks ≠ kd → node_at (files w) kd ≠ Some Dir →
  shutil_copy src dst w
  = (Ok dst, step_world w (<[kd := File c]> (files w)) [EvCopy ks kd] 1).
Proof.
  intros Hf Hdir Hs Hks Hc Hd Hl Hne Hkk Hn. unfold shutil_copy.
  rewrite bind_unfold, io_fault_step, Hf, bind_get_world.
  assert (is_dir (pop_fault w) dst = false) as -> by done.
  unfold stat. unfold pop_fault at 1 2 3 4 5 6. rewrite !locate_step, !abs_parts_step.
  change (locate_parts (files w) (abs_parts w src)) with (locate w src).
  change (locate_parts (files w) (abs_parts w dst)) with (locate w dst).
  change (files (step_world w (files w) [] 1)) with (files w).
  rewrite Hs, (node_at_lookup _ ks), Hc, Hl, Hd by done.
  rewrite !decide_False by done. unfold pop_fault.
  destruct (node_at (files w) kd) as [[c0|]|]; [|done|];
    rewrite bind_unfold, emit_step; simpl apply_event; by rewrite Hc.
Qed.

Lemma path_unlink_ok p w k c :
  fault_at w 0 = None → locate w p = inr k → k ≠ [] → files w !! k = Some (File c) →
  path_unlink p w = (Ok tt, step_world w (delete k (files w)) [EvUnlink k] 1).
Proof.
  intros Hf Hk Hne Hc. unfold path_unlink.
  rewrite bind_unfold, io_fault_step, Hf, bind_get_world.
  unfold pop_fault at 1 2. rewrite locate_step.
  change (locate_parts (files w) (abs_parts w p)) with (locate w p).
  change (files (step_world w (files w) [] 1)) with (files w).
  rewrite Hk, (node_at_lookup _ k), Hc by done.
  unfold pop_fault, failed. rewrite bool_decide_eq_false_2 by (by intros [? ?]).
  by rewrite emit_step.
Qed.

Lemma read_text_ok p w c :
  fault_at w 0 = None → read_path w p = Some c →
  read_text p w = (Ok (universal_newlines c), pop_fault w).
Proof.
  intros Hf Hc. unfold read_text.
  rewrite bind_unfold, io_fault_step, Hf, bind_get_world.
  unfold read_path in Hc.
  assert (stat (pop_fault w) p = stat w p) as -> by done.
  destruct (stat w p) as [e|[c'|]]; try done. injection Hc as ->.
  unfold failed. by rewrite bool_decide_eq_false_2 by (by intros [? ?]).
Qed.

(** *** The steps of a handler at a sited target *)

Lemma tmp_name_ne l : l ++ u ".tmp" ≠ DOTDOT ∧ l ++ u ".tmp" ≠ [] ∧ l ++ u ".tmp" ≠ l.
Proof.
  repeat split; intros H; apply (f_equal length) in H; rewrite length_app in H;
    simpl in H; lia.
Qed.

Lemma bak_name_ne l ts :
  l ++ u ".bak." ++ ts ≠ DOTDOT ∧ l ++ u ".bak." ++ ts ≠ []
  ∧ l ++ u ".bak." ++ ts ≠ l ∧ l ++ u ".bak." ++ ts ≠ l ++ u ".tmp".
Proof.
  repeat split; intros H.
  - apply (f_equal length) in H. rewrite !length_app in H. simpl in H. lia.
  - apply (f_equal length) in H. rewrite !length_app in H. simpl in H. lia.
  - apply (f_equal length) in H. rewrite !length_app in H. simpl in H. lia.
  - apply app_inv_head in H. discriminate H.
Qed.

Lemma elem_of_drop_list {A} (x : A) n l : x ∈ drop n l → x ∈ l.
Proof.
  intros H. rewrite <- (take_drop n l). apply elem_of_app. by right.
Qed.

Lemma slash_not_in_tmp : SLASH ∉ u ".tmp".
Proof. apply (proj1 (bool_decide_eq_false _)). by vm_compute. Qed.

Lemma slash_not_in_bak : SLASH ∉ u ".bak.".
Proof. apply (proj1 (bool_decide_eq_false _)). by vm_compute. Qed.

Lemma snoc_ne {A} (d : list A) a b : a ≠ b → d ++ [a] ≠ d ++ [b].
Proof. intros Hab H%app_inv_head. congruence. Qed.

Lemma snoc_ne_nil {A} (d : list A) a : d ++ [a] ≠ [].
Proof. by destruct d. Qed.

Lemma ensure_parent_dir_sited target d l w :
  sited (files w) (cwd w) target d l →
  ensure_parent_dir target w = (Ok tt, pop_fault w).
Proof.
  intros Hs. apply mkdir_p_existing. by eapply sited_parent_is_dir.
Qed.

Lemma rfind_char_lookup c s : ∀ k i,
  rfind_char c s k = Some i → s !! (i - k) = Some c.
Proof.
  induction s as [|d' s IH]; intros k i; simpl; [done|].
  destruct (rfind_char c s (S k)) as [j|] eqn:E.
  - intros [= <-]. pose proof (rfind_char_bound _ _ _ _ E) as Hb.
    apply IH in E. replace (j - k) with (S (j - S k)) by lia. done.
  - destruct (N.eqb_spec d' c) as [->|]; [|done]. intros [= <-].
    by rewrite Nat.sub_diag.
Qed.

Lemma with_suffix_sited fs cw target d l :
  sited fs cw target d l →
  ∃ tmp, with_suffix target (path_suffix target ++ u ".tmp") = Ok tmp
         ∧ sited fs cw tmp d (l ++ u ".tmp").
Proof.
  intros Hs. pose proof Hs as (ps & Hps & Hl1 & Hl2 & Hl3 & _).
  assert (SLASH ∉ l ++ u ".tmp") as Hsl.
  { intros [H|H]%elem_of_app; [done|]. by apply slash_not_in_tmp. }
  destruct (with_suffix target (path_suffix target ++ u ".tmp")) as [tmp|e] eqn:E.
  - exists tmp. split; [done|].
    apply with_suffix_tmp in E as (l' & Hl' & _ & ->).
    rewrite Hps, last_snoc in Hl'. injection Hl' as <-.
    destruct (tmp_name_ne l) as (? & ? & _). by eapply sited_sibling.
  - exfalso. unfold with_suffix in E.
    assert (path_name target = l) as Hn by (unfold path_name; by rewrite Hps, last_snoc).
    rewrite Hn in E. destruct l as [|a t]; [done|].
    assert (path_suffix target = [] ∨
            ∃ i, path_suffix target = DOT :: drop (S i) (a :: t)) as Hsuf.
    { unfold path_suffix. rewrite Hn.
      destruct (rfind_char DOT (a :: t) 0) as [i|] eqn:Ei; [|by left].
      destruct (bool_decide (0 < i < _)); [|by left]. right. exists i.
      apply rfind_char_lookup in Ei. rewrite Nat.sub_0_r in Ei.
      by rewrite (drop_S _ _ _ Ei). }
    destruct (_ || _) eqn:Eb; [|done].
    apply orb_true_iff in Eb as [Eb|Eb]; [apply orb_true_iff in Eb as [Eb|Eb]|].
    + apply bool_decide_eq_true in Eb.
      apply elem_of_app in Eb as [Eb|Eb]; [|by apply slash_not_in_tmp].
      destruct Hsuf as [Hsuf|[i Hsuf]]; rewrite Hsuf in Eb; [by apply elem_of_nil in Eb|].
      apply elem_of_cons in Eb as [Eb|Eb]; [done|].
      apply Hl3. eapply elem_of_drop_list, Eb.
    + destruct Hsuf as [Hsuf|[i Hsuf]]; rewrite Hsuf in Eb; done.
    + apply bool_decide_eq_true in Eb.
      destruct Hsuf as [Hsuf|[i Hsuf]]; rewrite Hsuf in Eb; [done|].
      apply (f_equal length) in Eb. rewrite length_app in Eb. simpl in Eb. lia.
Qed.

Lemma fs_ext_insert_file' fs k c :
  k ≠ [] → node_at fs k ≠ Some Dir → fs_ext fs (<[k := File c]> fs).
Proof. intros Hk Hn. apply fs_ext_insert_file. by rewrite <- node_at_lookup. Qed.

(** The write step with nothing in its way: the temporary file is written
    and renamed over the target. *)
Lemma atomic_write_ok target c w d l :
  sited (files w) (cwd w) target d l →
  files w !! (d ++ [l]) ≠ Some Dir →
  files w !! (d ++ [l ++ u ".tmp"]) ≠ Some Dir →
  fault_at w 1 = None → fault_at w 2 = None → has_surrogate c = false →
  atomic_write target c w
  = (Ok tt,
     step_world w (<[d ++ [l] := File c]> (delete (d ++ [l ++ u ".tmp"]) (files w)))
       [EvWrite (d ++ [l ++ u ".tmp"]) c; EvRename (d ++ [l ++ u ".tmp"]) (d ++ [l])] 3).
Proof.
  intros Hs HK Hkt Hf1 Hf2 Hc. unfold atomic_write.
  rewrite (bind_ok _ _ _ _ _ (ensure_parent_dir_sited _ _ _ _ Hs)).
  cbn [negb ATOMIC_WRITE]. unfold lift at 1. rewrite bind_unfold.
  destruct (with_suffix_sited _ _ _ _ _ Hs) as (tmp & -> & Hst).
  destruct (tmp_name_ne l) as (Hne1 & Hne2 & Hne3).
  unfold pop_fault.
  set (kt := d ++ [l ++ u ".tmp"]) in *.
  assert (write_text tmp c (step_world w (files w) [] 1)
          = (Ok tt, step_world w (<[kt := File c]> (files w)) [EvWrite kt c] 2)) as Hw.
  { erewrite (write_text_ok tmp c _ kt (l ++ u ".tmp")); try done.
    - by rewrite step_world_step.
    - by rewrite fault_at_step.
    - by eapply sited_locate.
    - by eapply sited_last.
    - by rewrite node_at_lookup by apply snoc_ne_nil. }
  rewrite (bind_ok _ _ _ _ _ Hw).
  assert (fs_ext (files w) (<[kt := File c]> (files w))) as Hext.
  { apply fs_ext_insert_file'; [apply snoc_ne_nil|].
    by rewrite node_at_lookup by apply snoc_ne_nil. }
  erewrite (path_replace_ok tmp target _ kt (d ++ [l]) c).
  - rewrite step_world_step. simpl. by rewrite delete_insert_eq.
  - by rewrite fault_at_step.
  - eapply sited_locate; [done..|]. by eapply sited_ext.
  - eapply sited_locate; [done..|]. by eapply sited_ext.
  - apply snoc_ne_nil.
  - apply snoc_ne_nil.
  - by apply snoc_ne.
  - apply lookup_insert_eq.
  - rewrite node_at_lookup by apply snoc_ne_nil. simpl.
    rewrite lookup_insert_ne by (apply snoc_ne; done). done.
Qed.

(** The write step with the write of the temporary file interrupted after
    [m] characters. *)
Lemma atomic_write_torn target c w d l m :
  sited (files w) (cwd w) target d l →
  files w !! (d ++ [l ++ u ".tmp"]) ≠ Some Dir →
  fault_at w 1 = Some (FailAfter m) → has_surrogate c = false →
  atomic_write target c w
  = (Raise (OSError EIO),
     step_world w (<[d ++ [l ++ u ".tmp"] := File (take m c)]> (files w))
       [EvTorn (d ++ [l ++ u ".tmp"]) (take m c)] 2).
Proof.
  intros Hs Hkt Hf1 Hc. unfold atomic_write.
  rewrite (bind_ok _ _ _ _ _ (ensure_parent_dir_sited _ _ _ _ Hs)).
  cbn [negb ATOMIC_WRITE]. unfold lift at 1. rewrite bind_unfold.
  destruct (with_suffix_sited _ _ _ _ _ Hs) as (tmp & -> & Hst).
  destruct (tmp_name_ne l) as (Hne1 & Hne2 & Hne3).
  unfold pop_fault. rewrite bind_unfold.
  erewrite (write_text_torn tmp c _ (d ++ [l ++ u ".tmp"]) (l ++ u ".tmp")); try done.
  - by rewrite step_world_step.
  - by rewrite fault_at_step.
  - by eapply sited_locate.
  - by eapply sited_last.
  - by rewrite node_at_lookup by apply snoc_ne_nil.
Qed.

Lemma split_from_no_sep sep s : ∀ cur,
  sep ∉ s → split_from sep cur s = [reverse cur ++ s].
Proof.
  induction s as [|c s IH]; intros cur Hs; simpl; [by rewrite app_nil_r|].
  apply not_elem_of_cons in Hs as [Hc Hs].
  destruct (N.eqb_spec c sep) as [->|_]; [done|].
  rewrite IH by done. by rewrite reverse_cons, <- app_assoc.
Qed.

(** A name without slash that is neither empty nor a dot is one
    component. *)
Lemma parse_path_component n :
  n ≠ [] → SLASH ∉ n → n ≠ [DOT] → parse_path n = Path false [n].
Proof.
  intros H1 H2 H3. unfold parse_path. rewrite split_from_no_sep by done.
  rewrite reverse_nil. simpl app. rewrite filter_cons_True by done.
  f_equal. destruct n as [|c n]; [done|]. cbn [startswith].
  apply not_elem_of_cons in H2 as [H2 _].
  by destruct (N.eqb_spec SLASH c).
Qed.

Lemma bak_name_slash l ts : SLASH ∉ l → SLASH ∉ ts → SLASH ∉ l ++ u ".bak." ++ ts.
Proof.
  intros H1 H2 [H|[H|H]%elem_of_app]%elem_of_app; try done.
  by apply slash_not_in_bak.
Qed.

Lemma with_name_sited fs cw target d l ts :
  sited fs cw target d l → SLASH ∉ ts →
  ∃ b, with_name target (path_name target ++ u ".bak." ++ ts) = Ok b
       ∧ sited fs cw b d (l ++ u ".bak." ++ ts).
Proof.
  intros Hs Hts. pose proof Hs as (ps & Hps & Hl1 & Hl2 & Hl3 & _).
  destruct (bak_name_ne l ts) as (Hb1 & Hb2 & _).
  rewrite (sited_name _ _ _ _ _ Hs). unfold with_name.
  rewrite (sited_name _ _ _ _ _ Hs). destruct l as [|a t]; [done|].
  rewrite parse_path_component; try done.
  - rewrite bool_decide_eq_true_2 by done. eexists. split; [done|].
    eapply sited_sibling; try done. by apply bak_name_slash.
  - by apply bak_name_slash.
  - intros H. apply (f_equal length) in H. rewrite !length_app in H. simpl in H. lia.
Qed.

Lemma is_dir_sited_false w p d l :
  sited (files w) (cwd w) p d l → files w !! (d ++ [l]) ≠ Some Dir → is_dir w p = false.
Proof.
  intros Hs Hn. unfold is_dir, stat. erewrite sited_locate by done.
  rewrite node_at_lookup by apply snoc_ne_nil.
  by destruct (files w !! (d ++ [l])) as [[|]|].
Qed.

Lemma path_exists_sited w p d l n :
  sited (files w) (cwd w) p d l → files w !! (d ++ [l]) = Some n → path_exists w p = true.
Proof.
  intros Hs Hn. unfold path_exists, stat. erewrite sited_locate by done.
  rewrite node_at_lookup by apply snoc_ne_nil. by rewrite Hn.
Qed.

Lemma path_exists_sited_false w p d l :
  sited (files w) (cwd w) p d l → files w !! (d ++ [l]) = None → path_exists w p = false.
Proof.
  intros Hs Hn. unfold path_exists, stat. erewrite sited_locate by done.
  rewrite node_at_lookup by apply snoc_ne_nil. by rewrite Hn.
Qed.

Lemma read_path_sited_file w p d l c :
  sited (files w) (cwd w) p d l → files w !! (d ++ [l]) = Some (File c) →
  read_path w p = Some c.
Proof.
  intros Hs Hn. eapply read_path_intro; [by eapply sited_locate|].
  by rewrite node_at_lookup by apply snoc_ne_nil.
Qed.

(** The backup of a regular file when the copy runs and no directory has
    the backup name. *)
Lemma make_timestamped_backup_ok target w d l c0 :
  sited (files w) (cwd w) target d l →
  files w !! (d ++ [l]) = Some (File c0) →
  SLASH ∉ now w →
  files w !! (d ++ [l ++ u ".bak." ++ now w]) ≠ Some Dir →
  fault_at w 0 = None →
  ∃ b, sited (files w) (cwd w) b d (l ++ u ".bak." ++ now w)
    ∧ make_timestamped_backup target w
      = (Ok (Some b),
         step_world w (<[d ++ [l ++ u ".bak." ++ now w] := File c0]> (files w))
           [EvCopy (d ++ [l]) (d ++ [l ++ u ".bak." ++ now w])] 1).
Proof.
  intros Hs HK Hnow Hkb Hf.
  destruct (with_name_sited _ _ _ _ _ (now w) Hs Hnow) as (b & Hb & Hsb).
  destruct (bak_name_ne l (now w)) as (Hb1 & Hb2 & Hb3 & _).
  exists b. split; [done|]. unfold make_timestamped_backup.
  rewrite bind_get_world. rewrite (path_exists_sited _ _ _ _ _ Hs HK). cbn [negb].
  unfold lift. rewrite bind_unfold, Hb. unfold try_except. rewrite bind_unfold.
  erewrite (shutil_copy_ok target b w (d ++ [l]) (d ++ [l ++ u ".bak." ++ now w])); try done.
  - by eapply is_dir_sited_false.
  - by eapply sited_locate.
  - apply snoc_ne_nil.
  - by eapply sited_locate.
  - by eapply sited_last.
  - apply snoc_ne. congruence.
  - by rewrite node_at_lookup by apply snoc_ne_nil.
Qed.

(** Dropping the backup. *)
Lemma discard_backup_ok b w d lb c :
  sited (files w) (cwd w) b d lb → files w !! (d ++ [lb]) = Some (File c) →
  fault_at w 0 = None →
  discard_backup (Some b) w
  = (Ok tt, step_world w (delete (d ++ [lb]) (files w)) [EvUnlink (d ++ [lb])] 1).
Proof.
  intros Hs Hc Hf. unfold discard_backup. cbn [negb KEEP_BACKUPS].
  unfold try_except, unlink_missing_ok, try_except.
  erewrite path_unlink_ok; try done; [by eapply sited_locate|apply snoc_ne_nil].
Qed.

(** Copying the backup back. *)
Lemma restore_backup_ok b target w d l lb c0 :
  sited (files w) (cwd w) target d l → sited (files w) (cwd w) b d lb → lb ≠ l →
  files w !! (d ++ [lb]) = Some (File c0) → files w !! (d ++ [l]) ≠ Some Dir →
  fault_at w 0 = None →
  restore_backup (Some b) target w
  = (Ok tt, step_world w (<[d ++ [l] := File c0]> (files w))
              [EvCopy (d ++ [lb]) (d ++ [l])] 1).
Proof.
  intros Hs Hsb Hne Hb HK Hf. unfold restore_backup.
  rewrite bind_get_world, (path_exists_sited _ _ _ _ _ Hsb Hb), bind_unfold.
  erewrite (shutil_copy_ok b target w (d ++ [lb]) (d ++ [l])); try done.
  - by eapply is_dir_sited_false.
  - by eapply sited_locate.
  - apply snoc_ne_nil.
  - by eapply sited_locate.
  - by eapply sited_last.
  - by destruct Hs as (_ & _ & ? & _).
  - by apply snoc_ne.
  - by rewrite node_at_lookup by apply snoc_ne_nil.
Qed.

(** ** [/set line] beyond the end of the file *)

Lemma set_line_lines_pad lines (n : Z) new_line :
  (Z.of_nat (length lines) < n)%Z →
  set_line_lines lines n new_line
  = lines ++ replicate (Z.to_nat n - 1 - length lines) [] ++ [new_line].
Proof.
  intros Hn. unfold set_line_lines, pad_lines.
  replace (Z.to_nat (Z.max 0 (n - 1))) with (Z.to_nat n - 1) by lia.
  rewrite bool_decide_eq_false_2.
  - by rewrite <- app_assoc.
  - rewrite length_app, length_replicate. lia.
Qed.

Lemma step_world_files_eq w fs fs' evs n :
  fs = fs' → step_world w fs evs n = step_world w fs' evs n.
Proof. by intros ->. Qed.

Section SetLine.
Context `{UD : UnicodeData}.

(** [/set line] on a regular file with nothing in the way and no fault:
    the backup is made, the new text is written through the temporary file,
    and the backup is dropped. *)
Lemma handle_set_line_run base w num raw t ts n target d l c0 :
  py_int num = Some n →
  _safe_target base raw w = (Ok target, w) →
  ready w target d l c0 →
  faults w = [] →
  has_surrogate (set_line_text (universal_newlines c0) n (join [SPACE] (t :: ts))) = false →
  handle_set (u "line" :: num :: raw :: t :: ts) base w
  = (Ok tt,
     step_world w
       (<[d ++ [l] := File (set_line_text (universal_newlines c0) n (join [SPACE] (t :: ts)))]>
          (files w))
       [EvCopy (d ++ [l]) (d ++ [l ++ u ".bak." ++ now w]);
        EvWrite (d ++ [l ++ u ".tmp"])
          (set_line_text (universal_newlines c0) n (join [SPACE] (t :: ts)));
        EvRename (d ++ [l ++ u ".tmp"]) (d ++ [l]);
        EvUnlink (d ++ [l ++ u ".bak." ++ now w])] 7).
Proof.
  intros Hnum Hsafe (Hs & HK & Hkt & Hkb & Hnow) Hfaults Hsur.
  assert (∀ fs evs k i, fault_at (step_world w fs evs k) i = None) as Hfa.
  { intros. rewrite fault_at_step. unfold fault_at. by rewrite Hfaults. }
  set (new := set_line_text _ _ _) in *.
  set (K := d ++ [l]). set (kt := d ++ [l ++ u ".tmp"]) in *.
  set (kb := d ++ [l ++ u ".bak." ++ now w]) in *.
  destruct (bak_name_ne l (now w)) as (Hb1 & Hb2 & Hb3 & Hb4).
  destruct (tmp_name_ne l) as (Ht1 & Ht2 & Ht3).
  unfold handle_set. rewrite bool_decide_eq_true_2 by done. rewrite Hnum.
  rewrite (bind_ok _ _ _ _ _ Hsafe).
  rewrite (bind_ok _ _ _ _ _ (ensure_parent_dir_sited _ _ _ _ Hs)).
  rewrite bind_get_world. unfold pop_fault at 1.
  assert (path_exists (step_world w (files w) [] 1) target = true) as ->.
  { by eapply (path_exists_sited _ _ d l). }
  cbn [negb]. rewrite bind_unfold. cbn [mret M_ret ret]. unfold pop_fault.
  (* the backup *)
  destruct (make_timestamped_backup_ok target (step_world w (files w) [] 1) d l c0)
    as (b & Hsb & Hbk); try done.
  { change (files w !! kb ≠ Some Dir). by rewrite Hkb. }
  rewrite (bind_ok _ _ _ _ _ Hbk). rewrite step_world_step. simpl app. simpl Nat.add.
  change (now (step_world w (files w) [] 1)) with (now w). fold kb K.
  change (files (step_world w (files w) [] 1)) with (files w) in *.
  change (cwd (step_world w (files w) [] 1)) with (cwd w) in *.
  change (now (step_world w (files w) [] 1)) with (now w) in *. fold kb in Hsb.
  set (fs1 := <[kb := File c0]> (files w)).
  assert (fs_ext (files w) fs1) as Hext1.
  { apply fs_ext_insert_file. by rewrite Hkb. }
  assert (fs1 !! K = Some (File c0)) as HK1.
  { unfold fs1. rewrite lookup_insert_ne; [done|]. apply snoc_ne. done. }
  assert (sited fs1 (cwd w) target d l) as Hs1 by (by eapply sited_ext).
  (* the read *)
  rewrite (bind_ok _ _ _ _ _ (read_text_ok target _ c0 (Hfa _ _ _ _)
             (read_path_sited_file (step_world w fs1 [EvCopy K kb] 2) _ d l _ Hs1 HK1))).
  rewrite pop_fault_step. simpl Nat.add. fold new.
  (* the write step *)
  unfold try_except.
  assert (fs1 !! kt = None) as Hkt1.
  { unfold fs1. rewrite lookup_insert_ne by (apply snoc_ne; done). done. }
  rewrite (bind_ok _ _ _ _ _ (atomic_write_ok target new
             (step_world w fs1 [EvCopy K kb] 3) d l Hs1
             ltac:(simpl; fold K; by rewrite HK1) ltac:(simpl; fold kt; by rewrite Hkt1)
             (Hfa _ _ _ _) (Hfa _ _ _ _) Hsur)).
  rewrite step_world_step. simpl app. simpl Nat.add. simpl files. fold kt K.
  (* the backup is dropped *)
  erewrite (discard_backup_ok b _ d _ c0).
  2:{ simpl. eapply sited_ext; [exact Hsb|]. simpl.
      eapply fs_ext_trans; [exact Hext1|].
      intros k Hk. destruct (decide (k = K)) as [->|HkK].
      { rewrite HK1 in Hk. done. }
      rewrite lookup_insert_ne by done.
      destruct (decide (k = kt)) as [->|Hkkt].
      { by rewrite Hkt1 in Hk. }
      by rewrite lookup_delete_ne. }
  2:{ simpl. fold kb. rewrite lookup_insert_ne by (apply snoc_ne; done).
      rewrite lookup_delete_ne by (apply snoc_ne; done).
      unfold fs1. apply lookup_insert_eq. }
  2:{ apply Hfa. }
  rewrite step_world_step. simpl app. simpl Nat.add. simpl files. fold kb.
  f_equal. apply step_world_files_eq. apply map_eq. intros k.
  destruct (decide (k = kb)) as [->|Hkkb].
  { rewrite lookup_delete_eq, lookup_insert_ne by (apply snoc_ne; done). by rewrite Hkb. }
  rewrite lookup_delete_ne by done.
  destruct (decide (k = K)) as [->|HkK].
  { by rewrite !lookup_insert_eq. }
  rewrite !lookup_insert_ne by done.
  destruct (decide (k = kt)) as [->|Hkkt].
  { by rewrite lookup_delete_eq, Hkt. }
  rewrite lookup_delete_ne by done. unfold fs1. by rewrite lookup_insert_ne.
Qed.

(** *** Text that can be encoded *)

Lemma has_surrogate_Forall c :
  has_surrogate c = false ↔ Forall (λ x, in_range 55296 57343 x = false) c.
Proof.
  unfold has_surrogate. induction c as [|x c IH]; simpl.
  - split; [constructor|done].
  - rewrite orb_false_iff, IH, Forall_cons. done.
Qed.

Lemma universal_newlines_Forall (P : N → Prop) s :
  P LF → Forall P s → Forall P (universal_newlines s).
Proof.
  intros HLF. remember (length s) as m eqn:Hm.
  revert s Hm. induction (lt_wf m) as [m _ IH]. intros s -> Hs.
  destruct s as [|c s]; [constructor|]. simpl.
  apply Forall_cons in Hs as [Hc Hs].
  destruct (c =? CR)%N.
  - constructor; [done|]. destruct s as [|e s]; [constructor|].
    apply Forall_cons in Hs as [He Hs].
    destruct (e =? LF)%N.
    + apply (IH (length s)); [simpl; lia|done..].
    + apply (IH (length (e :: s))); [simpl; lia|done|by constructor].
  - constructor; [done|]. apply (IH (length s)); [simpl; lia|done..].
Qed.

Lemma splitlines_from_Forall (P : N → Prop) : ∀ m s cur,
  length s ≤ m → Forall P cur → Forall P s → Forall (Forall P) (splitlines_from cur s).
Proof.
  induction m as [|m IH]; intros [|c s] cur Hm Hcur Hs; simpl in *; try lia.
  - destruct cur; constructor; [|done]. by apply Forall_reverse.
  - destruct cur; constructor; [|done]. by apply Forall_reverse.
  - apply Forall_cons in Hs as [Hc Hs].
    destruct (is_linebreak c).
    + constructor; [by apply Forall_reverse|].
      destruct s as [|e s]; [constructor|].
      apply Forall_cons in Hs as [He Hs]. simpl in Hm.
      destruct ((c =? CR)%N && (e =? LF)%N).
      * apply IH; [lia|done..].
      * apply IH; [simpl; lia|done|by constructor].
    + apply IH; [lia|by constructor|done].
Qed.

Lemma join_Forall (P : N → Prop) sep ls :
  Forall P sep → Forall (Forall P) ls → Forall P (join sep ls).
Proof.
  intros Hsep. induction 1 as [|x ls Hx Hls IH]; [constructor|].
  destruct ls as [|y ls]; [done|]. rewrite join_cons_cons.
  apply Forall_app. split; [done|]. apply Forall_app. by split.
Qed.

Lemma set_line_text_encodable c0 n text :
  (Z.of_nat (length (splitlines (universal_newlines c0))) < n)%Z →
  has_surrogate c0 = false → has_surrogate text = false →
  has_surrogate (set_line_text (universal_newlines c0) n text) = false.
Proof.
  rewrite !has_surrogate_Forall. intros Hn H0 Ht.
  unfold set_line_text. rewrite set_line_lines_pad by done.
  apply Forall_app. split.
  - apply join_Forall; [by repeat constructor|].
    apply Forall_app. split.
    + eapply splitlines_from_Forall; [done|constructor|].
      by apply universal_newlines_Forall.
    + apply Forall_app. split; [|by repeat constructor].
      apply Forall_replicate. constructor.
  - destruct (endswith _ _); by repeat constructor.
Qed.

End SetLine.

(** C8.  [/set line N path text] on a regular file with fewer than [N] lines,
    with nothing in the way of the backup and of the temporary file and no I/O
    fault: the handler succeeds and changes nothing but the target, which then
    holds the old lines, blank lines up to line [N - 1], and [text] as line
    [N], joined by line feeds; when [text] is one non-empty line these are
    the lines of the file.  So [/set line 5 f.txt hi] on a file holding the
    lines [a] and [b] leaves the five lines [a], [b], two blank ones and
    [hi]. *)
Theorem set_line_pads_with_blank_lines `{UD : UnicodeData}
    (base : PurePath) (w : world) (num raw t : pystr) (ts : list pystr) (n : Z)
    (target : PurePath) (d : list (list N)) (l c0 : pystr) :
  let lines := splitlines (universal_newlines c0) in
  let text := join [SPACE] (t :: ts) in
  let padded := lines ++ replicate (Z.to_nat n - 1 - length lines) [] ++ [text] in
  py_int num = Some n →
  _safe_target base raw w = (Ok target, w) →
  ready w target d l c0 →
  faults w = [] →
  has_surrogate c0 = false → has_surrogate text = false →
  (Z.of_nat (length lines) < n)%Z →
  ∃ w' new,
    handle_set (u "line" :: num :: raw :: t :: ts) base w = (Ok tt, w')
    ∧ files w' = <[d ++ [l] := File new]> (files w)
    ∧ read_path w' target = Some new
    ∧ new = join [LF] padded ++ (if endswith [LF] text then [LF] else [])
    ∧ length padded = Z.to_nat n
    ∧ take (length lines) padded = lines
    ∧ (∀ i, length lines ≤ i < Z.to_nat n - 1 → padded !! i = Some [])
    ∧ padded !! (Z.to_nat n - 1) = Some text
    ∧ (line_clean text → text ≠ [] → splitlines new = padded).
Proof.
  intros lines text padded Hnum Hsafe Hready Hfaults Hc0 Htext Hn.
  pose proof (set_line_text_encodable c0 n text Hn Hc0 Htext) as Hsur.
  pose proof (handle_set_line_run base w num raw t ts n target d l c0
                Hnum Hsafe Hready Hfaults Hsur) as Hrun.
  destruct Hready as (Hs & HK & Hkt & Hkb & Hnow).
  eexists _, (set_line_text (universal_newlines c0) n text). split; [exact Hrun|].
  assert (set_line_text (universal_newlines c0) n text
          = join [LF] padded ++ (if endswith [LF] text then [LF] else [])) as Hnew.
  { unfold set_line_text. by rewrite set_line_lines_pad. }
  split; [done|]. split.
  { eapply (read_path_sited_file _ _ d l).
    - simpl. eapply sited_ext; [exact Hs|]. apply fs_ext_insert_file. by rewrite HK.
    - simpl. apply lookup_insert_eq. }
  split; [done|].
  assert (length (replicate (Z.to_nat n - 1 - length lines) ([] : pystr))
          = Z.to_nat n - 1 - length lines) as Hrep by apply length_replicate.
  split. { unfold padded. rewrite !length_app, Hrep. simpl. lia. }
  split. { unfold padded. by rewrite take_app_length. }
  split.
  { intros i Hi. unfold padded. rewrite lookup_app_r by lia.
    rewrite lookup_app_l by lia. apply lookup_replicate_2. lia. }
  split.
  { unfold padded. rewrite lookup_app_r by lia. rewrite lookup_app_r by lia.
    rewrite Hrep. by replace (_ - _ - _) with 0 by lia. }
  intros Hclean Hne. rewrite Hnew.
  pose proof (endswith_LF_app_clean [] text Hclean Hne) as He.
  rewrite app_nil_l in He. rewrite He, app_nil_r.
  rewrite splitlines_join.
  - unfold drop_trailing_empty, padded. rewrite app_assoc, last_snoc.
    by destruct text.
  - unfold padded. apply Forall_app. split; [apply splitlines_clean|].
    apply Forall_app. split; [|by repeat constructor].
    apply Forall_replicate. constructor.
Qed.

(** [/set line 5 f.txt hi] on the file [/conv/f.txt] holding the lines [a]
    and [b]. *)
Lemma set_line_pads_with_blank_lines_witness :
  ∃ w' new,
    handle_set (UD := ascii_tables) [u "line"; u "5"; u "f.txt"; u "hi"]
      example_base example_world_two = (Ok tt, w')
    ∧ files w' = <[ [u "conv"; u "f.txt"] := File new]> (files example_world_two)
    ∧ read_path w' (Path true [u "conv"; u "f.txt"]) = Some new
    ∧ new = u "a
b


hi"
    ∧ splitlines new = [u "a"; u "b"; []; []; u "hi"].
Proof.
  destruct (set_line_pads_with_blank_lines (UD := ascii_tables)
              example_base example_world_two (u "5") (u "f.txt") (u "hi") [] 5
              (Path true [u "conv"; u "f.txt"]) [u "conv"] (u "f.txt") (u "a
b
"))
    as (w' & new & Hrun & Hfiles & Hread & Hnew & _ & _ & _ & _ & Hlines).
  - by vm_compute.
  - by vm_compute.
  - split.
    { exists [u "conv"]. repeat split; try (by vm_compute).
      apply (proj1 (bool_decide_eq_false _)). by vm_compute. }
    repeat split; try (by vm_compute).
    apply (proj1 (bool_decide_eq_false _)). by vm_compute.
  - reflexivity.
  - by vm_compute.
  - by vm_compute.
  - by vm_compute.
  - exists w', new.
    split; [exact Hrun|]. split; [exact Hfiles|]. split; [exact Hread|].
    split; [rewrite Hnew; by vm_compute|].
    rewrite Hlines; [by vm_compute| |by vm_compute].
    vm_compute. repeat constructor.
Defined.

(** ** [/create_file]: refusals and the empty file *)

Global Instance same_files_refl : Reflexive same_files.
Proof. by intros w k. Qed.

Global Instance same_files_trans : Transitive same_files.
Proof. intros w1 w2 w3 H12 H23 k. by rewrite H23, H12. Qed.

Lemma preserves_io_fault_same : preserves same_files io_fault.
Proof. intros w. by destruct (io_fault_run w) as (f & fl & ->). Qed.

Lemma os_mkdir_same p : preserves same_files (os_mkdir p).
Proof.
  unfold os_mkdir. apply preserves_bind; [apply _|apply preserves_io_fault_same|].
  intros f. apply preserves_get_world. intros w.
  destruct (last (abs_parts w p)), (locate w p) as [e|k]; try reflexivity.
  destruct (decide (_ = DOTDOT)); [reflexivity|].
  destruct (node_at (files w) k) eqn:E; [reflexivity|].
  destruct (failed f); [reflexivity|].
  apply node_at_None in E as [_ E]. intros k'. unfold file_content. simpl.
  destruct (decide (k' = k)) as [->|Hne].
  - by rewrite lookup_insert_eq, E.
  - by rewrite lookup_insert_ne.
Qed.

Lemma mkdir_exist_ok_same p e : preserves same_files (mkdir_exist_ok p e).
Proof.
  unfold mkdir_exist_ok. destruct e; try apply preserves_raise; try apply _.
  apply preserves_get_world. intros w. destruct (is_dir w p); reflexivity.
Qed.

Lemma mkdir_one_same p : preserves same_files (mkdir_one p).
Proof.
  unfold mkdir_one. apply preserves_try; [apply _|apply os_mkdir_same|].
  intros [| |[]|]; first [apply preserves_raise; apply _ | apply mkdir_exist_ok_same].
Qed.

Lemma mkdir_p_same fuel : ∀ p, preserves same_files (mkdir_p fuel p).
Proof.
  induction fuel as [|fuel IH]; intros p; simpl.
  all: apply preserves_try; [apply _|apply os_mkdir_same|].
  all: intros [| |[]|]; try apply mkdir_exist_ok_same.
  all: destruct (decide (path_parent p = p)); try (apply preserves_raise; apply _).
  apply preserves_bind; [apply _|apply IH|]. intros _. apply mkdir_one_same.
Qed.

Lemma ensure_parent_dir_same p : preserves same_files (ensure_parent_dir p).
Proof. apply mkdir_p_same. Qed.

(** With content that is empty after sanitation, or a suffix that is not
    allowed, the handler stops after the directories of the target. *)
Lemma handle_create_file_refuses args base w target c :
  create_file_plan w args base = (target, Some c) →
  sanitize c = [] ∨ path_suffix target ∉ ALLOWED_FILE_EXTENSIONS →
  handle_create_file args base w = (Ok tt, w)
  ∨ (handle_create_file args base w).2 = (ensure_parent_dir target w).2.
Proof.
  intros Hplan Hre. unfold handle_create_file.
  destruct args as [|a args]; [by left|].
  rewrite bind_get_world, Hplan.
  destruct (path_in_sandbox w target base); [|by left]. right. cbn [negb].
  rewrite bind_unfold. destruct (ensure_parent_dir target w) as [[[]|e] w1]; [|done].
  destruct (sanitize c) as [|x s] eqn:Es; [done|].
  destruct Hre as [?|Hre]; [done|].
  by rewrite bool_decide_eq_false_2.
Qed.

(** C6, as the code has it.  In every world: when [/create_file] comes with
    content and the content is empty after sanitation, or the suffix of the
    target is not allowed, the handler adds nothing but directories (no
    regular file appears, disappears or changes).  Without content: when the
    target is an entry of an existing directory the handler changes nothing;
    when it is not, its directory exists, the path lies in the sandbox and no
    I/O call fails, the handler creates it as an empty file, whatever its
    suffix is. *)
Theorem create_file_refusals (args : list pystr) (base : PurePath) (w : world)
    (target : PurePath) :
  (∀ c, create_file_plan w args base = (target, Some c) →
        sanitize c = [] ∨ path_suffix target ∉ ALLOWED_FILE_EXTENSIONS →
        let w' := (handle_create_file args base w).2 in
        Forall is_mkdir (new_events w w') ∧ same_files w w')
  ∧ (∀ d l n, create_file_plan w args base = (target, None) →
        sited (files w) (cwd w) target d l → files w !! (d ++ [l]) = Some n →
        ∃ w', handle_create_file args base w = (Ok tt, w')
              ∧ files w' = files w ∧ trace w' = trace w)
  ∧ (∀ d l, args ≠ [] → create_file_plan w args base = (target, None) →
        path_in_sandbox w target base = true →
        sited (files w) (cwd w) target d l →
        files w !! (d ++ [l]) = None → files w !! (d ++ [l ++ u ".tmp"]) = None →
        faults w = [] →
        ∃ w', handle_create_file args base w = (Ok tt, w')
              ∧ files w' = <[d ++ [l] := File []]> (files w)).
Proof.
  split; [|split].
  - intros c Hplan Hre w'.
    destruct (handle_create_file_refuses _ _ _ _ _ Hplan Hre) as [H|H].
    + unfold w'. rewrite H. simpl. split; [|done].
      unfold new_events. by rewrite drop_all.
    + unfold w'. rewrite H. split.
      * apply emits_new_events, emits_ensure_parent_dir.
      * apply ensure_parent_dir_same.
  - intros d l n Hplan Hs Hn. unfold handle_create_file.
    destruct args as [|a args]; [by exists w|].
    rewrite bind_get_world, Hplan.
    destruct (path_in_sandbox w target base); [|by exists w]. cbn [negb].
    rewrite (bind_ok _ _ _ _ _ (ensure_parent_dir_sited _ _ _ _ Hs)).
    rewrite bind_get_world.
    assert (path_exists (pop_fault w) target = true) as ->.
    { by eapply (path_exists_sited _ _ d l). }
    exists (pop_fault w). repeat split. simpl. apply app_nil_r.
  - intros d l Hargs Hplan Hin Hs HK Hkt Hfaults. unfold handle_create_file.
    destruct args as [|a args]; [done|].
    rewrite bind_get_world, Hplan, Hin. cbn [negb].
    rewrite (bind_ok _ _ _ _ _ (ensure_parent_dir_sited _ _ _ _ Hs)).
    rewrite bind_get_world.
    assert (path_exists (pop_fault w) target = false) as ->.
    { by eapply (path_exists_sited_false _ _ d l). }
    cbn [negb].
    assert (∀ i, fault_at (pop_fault w) i = None) as Hfa.
    { intros i. unfold pop_fault. rewrite fault_at_step. unfold fault_at.
      by rewrite Hfaults. }
    rewrite (atomic_write_ok target [] (pop_fault w) d l Hs
               ltac:(simpl; by rewrite HK) ltac:(simpl; by rewrite Hkt)
               (Hfa _) (Hfa _) eq_refl).
    eexists. split; [done|]. simpl. by rewrite delete_id.
Qed.

(** [/create_file g.txt] and [/create_file f.txt] in the example world, where
    [/conv/f.txt] exists and [/conv/g.txt] does not. *)
Lemma create_file_refusals_witness :
  (∃ w', handle_create_file [u "f.txt"] example_base example_world = (Ok tt, w')
         ∧ files w' = files example_world ∧ trace w' = trace example_world)
  ∧ (∃ w', handle_create_file [u "g.txt"] example_base example_world = (Ok tt, w')
           ∧ files w' = <[ [u "conv"; u "g.txt"] := File []]> (files example_world)).
Proof.
  split.
  - apply (proj1 (proj2 (create_file_refusals [u "f.txt"] example_base example_world
                           (Path true [u "conv"; u "f.txt"])))
             [u "conv"] (u "f.txt") (File (u "a
b
c
"))).
    + by vm_compute.
    + exists [u "conv"]. repeat split; try (by vm_compute).
      apply (proj1 (bool_decide_eq_false _)). by vm_compute.
    + by vm_compute.
  - apply (proj2 (proj2 (create_file_refusals [u "g.txt"] example_base example_world
                           (Path true [u "conv"; u "g.txt"])))
             [u "conv"] (u "g.txt")).
    + done.
    + by vm_compute.
    + by vm_compute.
    + exists [u "conv"]. repeat split; try (by vm_compute).
      apply (proj1 (bool_decide_eq_false _)). by vm_compute.
    + by vm_compute.
    + by vm_compute.
    + reflexivity.
Defined.

(** C6 (as stated) fails without content: [/create_file evil.exe] creates the
    file although its suffix is not allowed. *)
Lemma create_file_ignores_suffix_without_content :
  let w' := (handle_create_file [u "evil.exe"] example_base example_world).2 in
  (path_suffix (create_file_plan example_world [u "evil.exe"] example_base).1
     ∉ ALLOWED_FILE_EXTENSIONS)
  ∧ file_content example_world [u "conv"; u "evil.exe"] = None
  ∧ file_content w' [u "conv"; u "evil.exe"] = Some [].
Proof.
  split; [|by vm_compute].
  apply (proj1 (bool_decide_eq_false _)). by vm_compute.
Qed.

(** ** The write protocol *)

Lemma write_text_early p c w k l :
  fault_at w 0 = Some FailEarly → locate w p = inr k → last (abs_parts w p) = Some l →
  l ≠ DOTDOT → node_at (files w) k ≠ Some Dir →
  write_text p c w = (Raise (OSError EIO), pop_fault w).
Proof.
  intros Hf Hk Hl Hne Hn. unfold write_text.
  rewrite bind_unfold, io_fault_step, Hf, bind_get_world.
  unfold pop_fault at 1 2 3. rewrite locate_step, abs_parts_step.
  change (locate_parts (files w) (abs_parts w p)) with (locate w p).
  rewrite Hl, Hk, decide_False by done.
  change (files (step_world w (files w) [] 1)) with (files w).
  by destruct (node_at (files w) k) as [[c1|]|].
Qed.

Lemma path_replace_fails src dst w ks kd c f :
  fault_at w 0 = Some f → locate w src = inr ks → locate w dst = inr kd →
  ks ≠ [] → kd ≠ [] → ks ≠ kd →
  files w !! ks = Some (File c) → node_at (files w) kd ≠ Some Dir →
  path_replace src dst w = (Raise (OSError EIO), pop_fault w).
Proof.
  intros Hf Hs Hd Hks Hkd Hne Hc Hn. unfold path_replace.
  rewrite bind_unfold, io_fault_step, Hf, bind_get_world.
  unfold pop_fault at 1 2 3 4 5. rewrite !locate_step.
  change (locate_parts (files w) (abs_parts w src)) with (locate w src).
  change (locate_parts (files w) (abs_parts w dst)) with (locate w dst).
  change (files (step_world w (files w) [] 1)) with (files w).
  rewrite Hs, Hd, (node_at_lookup _ ks), Hc by done.
  rewrite decide_False by done. rewrite decide_False by (intros [?|?]; done).
  unfold failed. rewrite bool_decide_eq_true_2 by (by eexists).
  by destruct (node_at (files w) kd) as [[c0|]|].
Qed.

(** The write step when the write of the temporary file fails at once. *)
Lemma atomic_write_early target c w d l :
  sited (files w) (cwd w) target d l →
  files w !! (d ++ [l ++ u ".tmp"]) ≠ Some Dir →
  fault_at w 1 = Some FailEarly →
  atomic_write target c w = (Raise (OSError EIO), step_world w (files w) [] 2).
Proof.
  intros Hs Hkt Hf1. unfold atomic_write.
  rewrite (bind_ok _ _ _ _ _ (ensure_parent_dir_sited _ _ _ _ Hs)).
  cbn [negb ATOMIC_WRITE]. unfold lift at 1. rewrite bind_unfold.
  destruct (with_suffix_sited _ _ _ _ _ Hs) as (tmp & -> & Hst).
  destruct (tmp_name_ne l) as (Hne1 & Hne2 & Hne3).
  unfold pop_fault. rewrite bind_unfold.
  erewrite (write_text_early tmp c _ (d ++ [l ++ u ".tmp"]) (l ++ u ".tmp")); try done.
  - unfold pop_fault. by rewrite step_world_step.
  - by rewrite fault_at_step.
  - by eapply sited_locate.
  - by eapply sited_last.
  - by rewrite node_at_lookup by apply snoc_ne_nil.
Qed.

(** The write step when the rename fails. *)
Lemma atomic_write_rename_fails target c w d l f :
  sited (files w) (cwd w) target d l →
  files w !! (d ++ [l]) ≠ Some Dir →
  files w !! (d ++ [l ++ u ".tmp"]) ≠ Some Dir →
  fault_at w 1 = None → fault_at w 2 = Some f → has_surrogate c = false →
  atomic_write target c w
  = (Raise (OSError EIO),
     step_world w (<[d ++ [l ++ u ".tmp"] := File c]> (files w))
       [EvWrite (d ++ [l ++ u ".tmp"]) c] 3).
Proof.
  intros Hs HK Hkt Hf1 Hf2 Hc. unfold atomic_write.
  rewrite (bind_ok _ _ _ _ _ (ensure_parent_dir_sited _ _ _ _ Hs)).
  cbn [negb ATOMIC_WRITE]. unfold lift at 1. rewrite bind_unfold.
  destruct (with_suffix_sited _ _ _ _ _ Hs) as (tmp & -> & Hst).
  destruct (tmp_name_ne l) as (Hne1 & Hne2 & Hne3).
  unfold pop_fault.
  set (kt := d ++ [l ++ u ".tmp"]) in *.
  assert (write_text tmp c (step_world w (files w) [] 1)
          = (Ok tt, step_world w (<[kt := File c]> (files w)) [EvWrite kt c] 2)) as Hw.
  { erewrite (write_text_ok tmp c _ kt (l ++ u ".tmp")); try done.
    - by rewrite step_world_step.
    - by rewrite fault_at_step.
    - by eapply sited_locate.
    - by eapply sited_last.
    - by rewrite node_at_lookup by apply snoc_ne_nil. }
  rewrite (bind_ok _ _ _ _ _ Hw).
  assert (fs_ext (files w) (<[kt := File c]> (files w))) as Hext.
  { apply fs_ext_insert_file'; [apply snoc_ne_nil|].
    by rewrite node_at_lookup by apply snoc_ne_nil. }
  erewrite (path_replace_fails tmp target _ kt (d ++ [l]) c f).
  - unfold pop_fault. by rewrite step_world_step.
  - by rewrite fault_at_step.
  - eapply sited_locate; [done..|]. by eapply sited_ext.
  - eapply sited_locate; [done..|]. by eapply sited_ext.
  - apply snoc_ne_nil.
  - apply snoc_ne_nil.
  - by apply snoc_ne.
  - apply lookup_insert_eq.
  - rewrite node_at_lookup by apply snoc_ne_nil. simpl.
    rewrite lookup_insert_ne by (apply snoc_ne; done). done.
Qed.

(** The write step fails when its write or its rename does; the target and
    everything but the temporary file are as before. *)
Lemma atomic_write_fails target c w d l j f :
  sited (files w) (cwd w) target d l →
  files w !! (d ++ [l]) ≠ Some Dir →
  files w !! (d ++ [l ++ u ".tmp"]) ≠ Some Dir →
  has_surrogate c = false →
  j = 1 ∨ j = 2 → (j = 2 → fault_at w 1 = None) → fault_at w j = Some f →
  ∃ fs' evs,
    atomic_write target c w = (Raise (OSError EIO), step_world w fs' evs (S j))
    ∧ (fs' = files w ∨ ∃ x, fs' = <[d ++ [l ++ u ".tmp"] := File x]> (files w))
    ∧ Forall (writes_to (d ++ [l ++ u ".tmp"])) evs.
Proof.
  intros Hs HK Hkt Hc [->| ->] H1 Hf.
  - destruct f as [|m].
    + exists (files w), []. split; [by apply (atomic_write_early _ _ _ d l)|].
      split; [by left|constructor].
    + eexists _, _. split; [by apply atomic_write_torn|].
      split; [right; by eexists|]. by repeat constructor.
  - eexists _, _. split; [by eapply atomic_write_rename_fails; eauto|].
    split; [right; by eexists|]. by repeat constructor.
Qed.

Lemma new_events_step w fs evs n : new_events w (step_world w fs evs n) = evs.
Proof. by apply new_events_app. Qed.

Section Tail.
Context (b target : PurePath) (new : pystr) (W : world)
        (d : list (list N)) (l lb c0 : pystr).
Context (Hs : sited (files W) (cwd W) target d l)
        (Hsb : sited (files W) (cwd W) b d lb)
        (Hlb : lb ≠ l) (Hlbt : lb ≠ l ++ u ".tmp")
        (HK : files W !! (d ++ [l]) = Some (File c0))
        (Hkb : files W !! (d ++ [lb]) = Some (File c0))
        (Hkt : files W !! (d ++ [l ++ u ".tmp"]) = None)
        (Hnew : has_surrogate new = false).

Local Abbreviation K := (d ++ [l]).
Local Abbreviation kt := (d ++ [l ++ u ".tmp"]).
Local Abbreviation kb := (d ++ [lb]).

(** The guarded write step without a fault. *)
Lemma write_or_restore_ok :
  fault_at W 1 = None → fault_at W 2 = None → fault_at W 3 = None →
  write_or_restore (Some b) target new W
  = (Ok tt, step_world W (<[K := File new]> (delete kb (files W)))
              [EvWrite kt new; EvRename kt K; EvUnlink kb] 4).
Proof.
  intros Hf1 Hf2 Hf3.
  destruct (tmp_name_ne l) as (Ht1 & Ht2 & Ht3).
  unfold write_or_restore. apply try_except_ok.
  rewrite (bind_ok _ _ _ _ _ (atomic_write_ok target new W d l Hs
             ltac:(by rewrite HK) ltac:(by rewrite Hkt) Hf1 Hf2 Hnew)).
  erewrite (discard_backup_ok b _ d lb c0).
  - rewrite step_world_step. simpl app. simpl Nat.add. f_equal.
    apply step_world_files_eq. simpl files. apply map_eq. intros k.
    destruct (decide (k = kb)) as [->|Hkkb].
    { rewrite lookup_delete_eq, lookup_insert_ne by (apply snoc_ne; done).
      by rewrite lookup_delete_eq. }
    rewrite lookup_delete_ne by done.
    destruct (decide (k = K)) as [->|HkK]; [by rewrite !lookup_insert_eq|].
    rewrite !lookup_insert_ne by done.
    destruct (decide (k = kt)) as [->|Hkkt].
    { rewrite lookup_delete_eq, lookup_delete_ne by (apply snoc_ne; done).
      by rewrite Hkt. }
    by rewrite !lookup_delete_ne.
  - simpl. eapply sited_ext; [exact Hsb|]. intros k Hk.
    destruct (decide (k = K)) as [->|HkK]; [by rewrite HK in Hk|].
    rewrite lookup_insert_ne by done.
    destruct (decide (k = kt)) as [->|Hkkt]; [by rewrite Hkt in Hk|].
    by rewrite lookup_delete_ne.
  - simpl. rewrite lookup_insert_ne by (apply snoc_ne; done).
    by rewrite lookup_delete_ne by (apply snoc_ne; done).
  - by rewrite fault_at_step.
Qed.

(** The guarded write step when its write or its rename fails and the copy
    of the backup runs. *)
Lemma write_or_restore_fails j f :
  j = 1 ∨ j = 2 → (j = 2 → fault_at W 1 = None) → fault_at W j = Some f →
  fault_at W (S j) = None →
  ∃ fs' evs,
    write_or_restore (Some b) target new W
    = (Ok tt, step_world W fs' (evs ++ [EvCopy kb K]) (S (S j)))
    ∧ Forall (writes_to kt) evs
    ∧ fs' !! K = Some (File c0) ∧ fs' !! kb = Some (File c0).
Proof.
  intros Hj H1 Hf Hnext.
  destruct (atomic_write_fails target new W d l j f Hs
              ltac:(by rewrite HK) ltac:(by rewrite Hkt) Hnew Hj H1 Hf)
    as (fs' & evs & Haw & Hfs & Hevs).
  assert (fs_ext (files W) fs') as Hext.
  { destruct Hfs as [->|[x ->]]; [apply fs_ext_refl|].
    apply fs_ext_insert_file. by rewrite Hkt. }
  assert (fs' !! K = Some (File c0)) as HK'.
  { destruct Hfs as [->|[x ->]]; [done|].
    rewrite lookup_insert_ne; [done|]. apply snoc_ne.
    by destruct (tmp_name_ne l) as (_ & _ & ?). }
  assert (fs' !! kb = Some (File c0)) as Hkb'.
  { destruct Hfs as [->|[x ->]]; [done|].
    rewrite lookup_insert_ne; [done|]. apply snoc_ne. congruence. }
  exists (<[K := File c0]> fs'), evs.
  split; [|split; [done|split]].
  - unfold write_or_restore.
    rewrite (try_except_raise _ _ _ _ _ (bind_raise _ _ _ _ _ Haw)).
    erewrite (restore_backup_ok b target _ d l lb c0).
    + rewrite step_world_step. f_equal. f_equal. lia.
    + simpl. by eapply sited_ext.
    + simpl. by eapply sited_ext.
    + done.
    + done.
    + simpl. by rewrite HK'.
    + rewrite fault_at_step. by rewrite Nat.add_0_r.
  - apply lookup_insert_eq.
  - rewrite lookup_insert_ne; [done|]. apply snoc_ne. congruence.
Qed.

End Tail.

Lemma fault_at_single w j f i :
  faults w = replicate j None ++ [Some f] →
  fault_at w i = if decide (i = j) then Some f else None.
Proof.
  intros Hw. unfold fault_at. rewrite Hw.
  destruct (decide (i = j)) as [->|Hne].
  - rewrite lookup_app_r by (rewrite length_replicate; lia).
    by rewrite length_replicate, Nat.sub_diag.
  - destruct (decide (i < j)) as [Hlt|Hge].
    + rewrite lookup_app_l by (rewrite length_replicate; lia).
      by rewrite lookup_replicate_2.
    + rewrite lookup_app_r by (rewrite length_replicate; lia).
      rewrite length_replicate. destruct (i - j) as [|n] eqn:E; [lia|done].
Qed.

(** A run that has made its backup and then runs the guarded write step
    follows the protocol. *)
Lemma protocol_from_prefix h w target d l new c0 k :
  ready w target d l c0 → has_surrogate new = false →
  ((∀ i, i < k → fault_at w i = None) →
   ∃ b, sited (files w) (cwd w) b d (l ++ u ".bak." ++ now w)
        ∧ h w = write_or_restore (Some b) target new
                  (step_world w (<[d ++ [l ++ u ".bak." ++ now w] := File c0]> (files w))
                     [EvCopy (d ++ [l]) (d ++ [l ++ u ".bak." ++ now w])] k)) →
  follows_protocol h w d l new c0 (S k).
Proof.
  intros (Hs & HK & Hkt & Hkb & Hnow) Hnew Hprefix.
  destruct (bak_name_ne l (now w)) as (Hb1 & Hb2 & Hb3 & Hb4).
  destruct (tmp_name_ne l) as (Ht1 & Ht2 & Ht3).
  set (K := d ++ [l]) in *. set (kt := d ++ [l ++ u ".tmp"]) in *.
  set (kb := d ++ [l ++ u ".bak." ++ now w]) in *.
  set (fs1 := <[kb := File c0]> (files w)) in *.
  assert (fs_ext (files w) fs1) as Hext1.
  { apply fs_ext_insert_file. by rewrite Hkb. }
  assert (fs1 !! K = Some (File c0)) as HK1.
  { unfold fs1. rewrite lookup_insert_ne; [done|]. by apply snoc_ne. }
  assert (fs1 !! kb = Some (File c0)) as Hkb1 by apply lookup_insert_eq.
  assert (fs1 !! kt = None) as Hkt1.
  { unfold fs1. rewrite lookup_insert_ne; [done|]. by apply snoc_ne. }
  split.
  - intros Hfaults.
    assert (∀ i, fault_at w i = None) as Hfa.
    { intros i. unfold fault_at. by rewrite Hfaults. }
    destruct Hprefix as (b & Hsb & ->); [by intros|].
    erewrite (write_or_restore_ok b target new _ d l (l ++ u ".bak." ++ now w) c0);
      try done; try (by eapply sited_ext); try (by rewrite fault_at_step).
    eexists. split; [done|]. rewrite step_world_step, new_events_step.
    split; [done|]. simpl. unfold fs1. fold kb.
    rewrite delete_insert_eq, delete_id by done. done.
  - intros j f Hj Hfaults.
    pose proof (fault_at_single w j f) as Hfa.
    destruct Hprefix as (b & Hsb & ->).
    { intros i Hi. rewrite Hfa by done. rewrite decide_False by lia. done. }
    destruct (write_or_restore_fails b target new
                (step_world w fs1 [EvCopy K kb] k) d l (l ++ u ".bak." ++ now w) c0)
      with (j := j - k) (f := f) as (fs' & evs & -> & Hevs & HK' & Hkb');
      try done; try (by eapply sited_ext).
    + lia.
    + intros Hj2. rewrite fault_at_step, Hfa by done. rewrite decide_False by lia. done.
    + rewrite fault_at_step, Hfa by done. rewrite decide_True by lia. done.
    + rewrite fault_at_step, Hfa by done. rewrite decide_False by lia. done.
    + eexists _, evs. split; [done|]. rewrite step_world_step, new_events_step.
      split; [done|]. split; [done|]. unfold file_content, step_world.
      cbn [files]. by rewrite HK', Hkb'.
Qed.

(** *** The handlers up to the guarded write step *)

Lemma try_except_bind_ok {A B} (m : M A) (k : A → M B) h w a w' :
  m w = (Ok a, w') → try_except (m ≫= k) h w = try_except (k a) h w'.
Proof. intros H. unfold try_except. by rewrite (bind_ok _ _ _ _ _ H). Qed.

Lemma backup_step target w d l c0 n :
  ready w target d l c0 → fault_at w n = None →
  ∃ b, sited (files w) (cwd w) b d (l ++ u ".bak." ++ now w)
    ∧ make_timestamped_backup target (step_world w (files w) [] n)
      = (Ok (Some b),
         step_world w (<[d ++ [l ++ u ".bak." ++ now w] := File c0]> (files w))
           [EvCopy (d ++ [l]) (d ++ [l ++ u ".bak." ++ now w])] (S n)).
Proof.
  intros (Hs & HK & Hkt & Hkb & Hnow) Hf.
  destruct (make_timestamped_backup_ok target (step_world w (files w) [] n) d l c0)
    as (b & Hsb & Hbk); try done.
  - change (files w !! (d ++ [l ++ u ".bak." ++ now w]) ≠ Some Dir). by rewrite Hkb.
  - rewrite fault_at_step. by rewrite Nat.add_0_r.
  - exists b. split; [done|]. rewrite Hbk, step_world_step.
    f_equal. f_equal. lia.
Qed.

Lemma read_step target w d l c0 n :
  ready w target d l c0 → fault_at w n = None →
  read_text target
    (step_world w (<[d ++ [l ++ u ".bak." ++ now w] := File c0]> (files w))
       [EvCopy (d ++ [l]) (d ++ [l ++ u ".bak." ++ now w])] n)
  = (Ok (universal_newlines c0),
     step_world w (<[d ++ [l ++ u ".bak." ++ now w] := File c0]> (files w))
       [EvCopy (d ++ [l]) (d ++ [l ++ u ".bak." ++ now w])] (S n)).
Proof.
  intros (Hs & HK & Hkt & Hkb & Hnow) Hf.
  destruct (bak_name_ne l (now w)) as (Hb1 & Hb2 & Hb3 & Hb4).
  erewrite (read_text_ok target _ c0).
  - rewrite pop_fault_step. f_equal. f_equal. lia.
  - rewrite fault_at_step. by rewrite Nat.add_0_r.
  - eapply (read_path_sited_file _ _ d l).
    + cbn [step_world files cwd]. eapply sited_ext; [exact Hs|]. apply fs_ext_insert_file. by rewrite Hkb.
    + cbn [step_world files]. rewrite lookup_insert_ne; [done|]. by apply snoc_ne.
Qed.

Section Prefixes.
Context `{UD : UnicodeData}.
Context (base : PurePath) (w : world) (raw : pystr) (target : PurePath)
        (d : list (list N)) (l c0 : pystr).
Context (Hsafe : _safe_target base raw w = (Ok target, w))
        (Hready : ready w target d l c0).

Local Abbreviation W1 n :=
  (step_world w (<[d ++ [l ++ u ".bak." ++ now w] := File c0]> (files w))
     [EvCopy (d ++ [l]) (d ++ [l ++ u ".bak." ++ now w])] n).

Lemma exists_after_pop : path_exists (pop_fault w) target = true.
Proof.
  destruct Hready as (Hs & HK & _). by eapply (path_exists_sited _ _ d l).
Qed.

Lemma exists_at_start : path_exists w target = true.
Proof.
  destruct Hready as (Hs & HK & _). by eapply (path_exists_sited _ _ d l).
Qed.

Lemma exists_after_backup n : path_exists (W1 n) target = true.
Proof.
  destruct Hready as (Hs & HK & Hkt & Hkb & _).
  destruct (bak_name_ne l (now w)) as (Hb1 & Hb2 & Hb3 & Hb4).
  eapply (path_exists_sited _ _ d l).
  - cbn [step_world files cwd]. eapply sited_ext; [exact Hs|]. apply fs_ext_insert_file. by rewrite Hkb.
  - cbn [step_world files]. rewrite lookup_insert_ne; [done|]. by apply snoc_ne.
Qed.

Lemma handle_set_prefix rest :
  raw ≠ u "line" → sanitize (content_of_args rest) ≠ [] →
  (∀ i, i < 2 → fault_at w i = None) →
  ∃ b, sited (files w) (cwd w) b d (l ++ u ".bak." ++ now w)
    ∧ handle_set (raw :: rest) base w
      = write_or_restore (Some b) target (sanitize (content_of_args rest)) (W1 2).
Proof.
  intros Hline Hne Hfa.
  destruct (backup_step target w d l c0 1 Hready) as (b & Hsb & Hbk); [by apply Hfa; lia|].
  exists b. split; [done|]. unfold handle_set.
  rewrite bool_decide_eq_false_2 by done.
  rewrite (bind_ok _ _ _ _ _ Hsafe).
  destruct Hready as (Hs & _).
  rewrite (bind_ok _ _ _ _ _ (ensure_parent_dir_sited _ _ _ _ Hs)).
  rewrite bind_get_world, exists_after_pop. unfold pop_fault.
  rewrite (bind_ok _ _ _ _ _ Hbk). rewrite bind_get_world.
  rewrite bool_decide_eq_false_2 by done. done.
Qed.

Lemma handle_set_line_prefix num t ts n :
  py_int num = Some n →
  (∀ i, i < 3 → fault_at w i = None) →
  ∃ b, sited (files w) (cwd w) b d (l ++ u ".bak." ++ now w)
    ∧ handle_set (u "line" :: num :: raw :: t :: ts) base w
      = write_or_restore (Some b) target
          (set_line_text (universal_newlines c0) n (join [SPACE] (t :: ts))) (W1 3).
Proof.
  intros Hnum Hfa.
  destruct (backup_step target w d l c0 1 Hready) as (b & Hsb & Hbk); [by apply Hfa; lia|].
  exists b. split; [done|]. unfold handle_set.
  rewrite bool_decide_eq_true_2 by done. rewrite Hnum.
  rewrite (bind_ok _ _ _ _ _ Hsafe).
  pose proof Hready as (Hs & _).
  rewrite (bind_ok _ _ _ _ _ (ensure_parent_dir_sited _ _ _ _ Hs)).
  rewrite bind_get_world, exists_after_pop. cbn [negb].
  rewrite bind_unfold. cbn [mret M_ret ret]. unfold pop_fault.
  rewrite (bind_ok _ _ _ _ _ Hbk).
  rewrite (bind_ok _ _ _ _ _ (read_step target w d l c0 2 Hready (Hfa 2 ltac:(lia)))).
  done.
Qed.

Lemma handle_replace_prefix old t ts :
  (∀ i, i < 2 → fault_at w i = None) →
  ∃ b, sited (files w) (cwd w) b d (l ++ u ".bak." ++ now w)
    ∧ handle_replace (raw :: old :: t :: ts) base w
      = write_or_restore (Some b) target
          (strip_if_commands
             (str_replace (_normalize_content_for_writing_from_fence (Some old))
                (_normalize_content_for_writing_from_fence (Some (join [SPACE] (t :: ts))))
                (universal_newlines c0))) (W1 2).
Proof.
  intros Hfa.
  destruct (backup_step target w d l c0 0 Hready) as (b & Hsb & Hbk); [by apply Hfa; lia|].
  rewrite step_world_id in Hbk.
  exists b. split; [done|]. unfold handle_replace.
  rewrite (bind_ok _ _ _ _ _ Hsafe).
  rewrite bind_get_world, exists_at_start. cbn [negb].
  rewrite (bind_ok _ _ _ _ _ Hbk).
  rewrite (try_except_bind_ok _ _ _ _ _ _
             (read_step target w d l c0 1 Hready (Hfa 1 ltac:(lia)))).
  done.
Qed.

Lemma handle_patch_prefix t ts :
  (∀ i, i < 2 → fault_at w i = None) →
  ∃ b, sited (files w) (cwd w) b d (l ++ u ".bak." ++ now w)
    ∧ handle_patch (raw :: t :: ts) base w
      = write_or_restore (Some b) target
          (strip_if_commands (patch_text (universal_newlines c0) (join [LF] (t :: ts))))
          (W1 2).
Proof.
  intros Hfa.
  destruct (backup_step target w d l c0 0 Hready) as (b & Hsb & Hbk); [by apply Hfa; lia|].
  rewrite step_world_id in Hbk.
  exists b. split; [done|]. unfold handle_patch.
  rewrite (bind_ok _ _ _ _ _ Hsafe).
  rewrite bind_get_world, exists_at_start. cbn [negb].
  rewrite (bind_ok _ _ _ _ _ Hbk).
  rewrite (try_except_bind_ok _ _ _ _ _ _
             (read_step target w d l c0 1 Hready (Hfa 1 ltac:(lia)))).
  done.
Qed.

Lemma handle_paste_file_prefix rest c cs :
  (clipboard w).1 = Some (c :: cs) →
  path_suffix target ∈ ALLOWED_FILE_EXTENSIONS →
  (∀ i, i < 2 → fault_at w i = None) →
  ∃ b, sited (files w) (cwd w) b d (l ++ u ".bak." ++ now w)
    ∧ handle_paste_file (raw :: rest) base w
      = write_or_restore (Some b) target (c :: cs) (W1 2).
Proof.
  intros Hclip Hsuf Hfa.
  destruct (backup_step target w d l c0 1 Hready) as (b & Hsb & Hbk); [by apply Hfa; lia|].
  exists b. split; [done|]. unfold handle_paste_file.
  rewrite bind_get_world, Hclip.
  rewrite (bind_ok _ _ _ _ _ Hsafe).
  pose proof Hready as (Hs & _).
  rewrite (bind_ok _ _ _ _ _ (ensure_parent_dir_sited _ _ _ _ Hs)).
  rewrite bool_decide_eq_true_2 by done. cbn [negb].
  rewrite bind_get_world, exists_after_pop. unfold pop_fault.
  rewrite (bind_ok _ _ _ _ _ Hbk).
  unfold write_or_restore, try_except. rewrite !bind_get_world.
  change (clipboard (W1 2)) with (clipboard w). by rewrite Hclip.
Qed.

End Prefixes.

(** *** [/create_file] with content: a backup that is never restored *)

Lemma handle_create_file_not_restored args base w target c d l c0 :
  create_file_plan w args base = (target, Some c) →
  path_in_sandbox w target base = true →
  ready w target d l c0 →
  sanitize c ≠ [] → path_suffix target ∈ ALLOWED_FILE_EXTENSIONS →
  has_surrogate (sanitize c) = false →
  backup_not_restored (handle_create_file args base) w d l c0 3.
Proof.
  intros Hplan Hin Hready Hne Hsuf Hsur j f Hj Hfaults.
  pose proof (fault_at_single w j f) as Hfa.
  destruct (backup_step target w d l c0 1 Hready) as (b & Hsb & Hbk).
  { rewrite Hfa by done. rewrite decide_False by lia. done. }
  pose proof Hready as (Hs & HK & Hkt & Hkb & Hnow).
  destruct (bak_name_ne l (now w)) as (Hb1 & Hb2 & Hb3 & Hb4).
  destruct (tmp_name_ne l) as (Ht1 & Ht2 & Ht3).
  set (K := d ++ [l]) in *. set (kt := d ++ [l ++ u ".tmp"]) in *.
  set (kb := d ++ [l ++ u ".bak." ++ now w]) in *.
  set (fs1 := <[kb := File c0]> (files w)) in *.
  assert (fs_ext (files w) fs1) as Hext1.
  { apply fs_ext_insert_file. by rewrite Hkb. }
  assert (fs1 !! K = Some (File c0)) as HK1.
  { unfold fs1. rewrite lookup_insert_ne; [done|]. by apply snoc_ne. }
  assert (fs1 !! kt = None) as Hkt1.
  { unfold fs1. rewrite lookup_insert_ne; [done|]. by apply snoc_ne. }
  destruct (atomic_write_fails target (sanitize c) (step_world w fs1 [EvCopy K kb] 2)
              d l (j - 2) f) as (fs' & evs & Haw & Hfs & Hevs); try done.
  { cbn [step_world files cwd]. by eapply sited_ext. }
  { cbn [step_world files]. fold K. by rewrite HK1. }
  { cbn [step_world files]. fold kt. by rewrite Hkt1. }
  { lia. }
  { intros Hj2. rewrite fault_at_step, Hfa by done. rewrite decide_False by lia. done. }
  { rewrite fault_at_step, Hfa by done. rewrite decide_True by lia. done. }
  exists (step_world w fs' ([EvCopy K kb] ++ evs) (2 + S (j - 2))), evs.
  split; [|split; [by rewrite new_events_step|split; [done|]]].
  - unfold handle_create_file. destruct args as [|a args]; [done|].
    rewrite bind_get_world, Hplan, Hin. cbn [negb].
    rewrite (bind_ok _ _ _ _ _ (ensure_parent_dir_sited _ _ _ _ Hs)).
    destruct (sanitize c) as [|x s] eqn:Es; [done|].
    rewrite bool_decide_eq_true_2 by done. cbn [negb].
    rewrite bind_get_world.
    rewrite (exists_after_pop w target d l c0 Hready). unfold pop_fault.
    rewrite (bind_ok _ _ _ _ _ Hbk).
    rewrite (try_except_raise _ _ _ _ _ (bind_raise _ _ _ _ _ Haw)).
    by rewrite step_world_step.
  - unfold file_content. cbn [step_world files].
    cbn [step_world files] in Hfs. fold kt in Hfs.
    destruct Hfs as [->|[x ->]].
    + unfold fs1 at 2. by rewrite HK1, lookup_insert_eq.
    + rewrite !lookup_insert_ne by (apply snoc_ne; done).
      unfold fs1 at 2. by rewrite HK1, lookup_insert_eq.
Qed.

(** *** [/append]: no backup *)

Lemma emits_path_replace_no_copy p q : emits no_copy (path_replace p q).
Proof. unfold path_replace. emits_auto; by apply emits_emit. Qed.

Lemma emits_atomic_write_no_copy p c : emits no_copy (atomic_write p c).
Proof.
  unfold atomic_write. emits_auto.
  all: first
    [ eapply emits_mono; [|apply emits_ensure_parent_dir]; by intros []
    | by apply emits_write_text
    | apply emits_path_replace_no_copy ].
Qed.

Lemma handle_append_no_copy args base : emits no_copy (handle_append args base).
Proof.
  unfold handle_append. emits_auto.
  all: first
    [ apply emits_safe_target
    | eapply emits_mono; [|apply emits_ensure_parent_dir]; by intros []
    | apply emits_read_text
    | apply emits_atomic_write_no_copy ].
Qed.

Lemma read_path_grows w w1 p c :
  world_grows w w1 → read_path w p = Some c → read_path w1 p = Some c.
Proof.
  intros Hg (k & Hk & Hn)%read_path_inv.
  eapply read_path_intro; [by eapply locate_grows|].
  destruct k as [|a k]; [done|]. simpl in *. by apply Hg.
Qed.

Lemma read_text_run p w c :
  read_path w p = Some c →
  ∃ r w', read_text p w = (r, w') ∧ files w' = files w ∧ cwd w' = cwd w
          ∧ (∀ x, r = Ok x → x = universal_newlines c).
Proof.
  intros Hc. unfold read_text. rewrite bind_unfold.
  destruct (io_fault_run w) as (f & fl & ->). rewrite bind_get_world.
  set (w1 := World _ _ _ _ _ _).
  assert (stat w1 p = stat w p) as -> by done.
  unfold read_path in Hc. destruct (stat w p) as [e|[c'|]]; try done.
  injection Hc as ->.
  destruct (failed f); eexists _, _; (split; [done|]); repeat split; try done.
  by intros x [= <-].
Qed.

(** Whatever fails, [/append] leaves the file as it was or with the content
    added. *)
Lemma handle_append_all_or_nothing base raw rest w target c0 :
  _safe_target base raw w = (Ok target, w) →
  read_path w target = Some c0 →
  let w' := (handle_append (raw :: rest) base w).2 in
  read_path w' target = Some c0
  ∨ read_path w' target = Some (universal_newlines c0 ++ sanitize (content_of_args rest)).
Proof.
  intros Hsafe Hc w'. unfold w', handle_append.
  rewrite (bind_ok _ _ _ _ _ Hsafe). rewrite bind_unfold.
  pose proof (ensure_parent_dir_grows target w) as Hg.
  destruct (ensure_parent_dir target w) as [[[]|e] w1]; simpl in Hg;
    [|left; by eapply read_path_grows].
  pose proof (read_path_grows _ _ _ _ Hg Hc) as Hc1.
  destruct (sanitize (content_of_args rest)) as [|x s] eqn:Es; [by left|].
  unfold try_except. rewrite bind_get_world.
  assert (path_exists w1 target = true) as ->.
  { unfold path_exists. unfold read_path in Hc1. by destruct (stat w1 target). }
  rewrite bind_unfold.
  destruct (read_text_run target w1 c0 Hc1) as (r & w2 & -> & Hf2 & Hcw2 & Hr).
  assert (read_path w2 target = Some c0) as Hc2.
  { by rewrite (read_path_files _ _ _ Hf2 Hcw2). }
  destruct r as [text|e]; [|by left].
  rewrite (Hr _ eq_refl).
  pose proof (atomic_write_all_or_nothing target (universal_newlines c0 ++ x :: s)
                w2 c0 Hc2) as Haw.
  destruct (atomic_write _ _ w2) as [[[]|e] w3]; simpl; [by right|by left].
Qed.

(** ** The write protocol of the handlers *)

(** C3 (as amended).  The write step [atomic_write] is all or nothing on a
    regular file, whatever fails: afterwards the file holds the new content
    or the old one.  Set (whole file and one line), replace, patch and
    paste_file on a regular file follow the protocol: backup, temporary
    file, rename, removal of the backup; when the write of the temporary
    file or the rename is the one call that fails they copy the backup over
    the target, which holds what it held.  Append copies no file, neither as
    a backup nor to restore one, and leaves the file as it was or with the
    content added, whatever fails. *)
Theorem write_protocol `{UD : UnicodeData} :
  (∀ path content w c0,
     read_path w path = Some c0 →
     match atomic_write path content w with
     | (Ok _, w') => read_path w' path = Some content
     | (Raise _, w') => read_path w' path = Some c0
     end)
  ∧ (∀ base w raw target d l c0,
       _safe_target base raw w = (Ok target, w) → ready w target d l c0 →
       (∀ rest, let new := sanitize (content_of_args rest) in
          raw ≠ u "line" → new ≠ [] → has_surrogate new = false →
          follows_protocol (handle_set (raw :: rest) base) w d l new c0 3)
       ∧ (∀ num n t ts,
            let new := set_line_text (universal_newlines c0) n (join [SPACE] (t :: ts)) in
            py_int num = Some n → has_surrogate new = false →
            follows_protocol (handle_set (u "line" :: num :: raw :: t :: ts) base)
              w d l new c0 4)
       ∧ (∀ old t ts,
            let new := strip_if_commands
                         (str_replace
                            (_normalize_content_for_writing_from_fence (Some old))
                            (_normalize_content_for_writing_from_fence
                               (Some (join [SPACE] (t :: ts))))
                            (universal_newlines c0)) in
            has_surrogate new = false →
            follows_protocol (handle_replace (raw :: old :: t :: ts) base) w d l new c0 3)
       ∧ (∀ t ts,
            let new := strip_if_commands
                         (patch_text (universal_newlines c0) (join [LF] (t :: ts))) in
            has_surrogate new = false →
            follows_protocol (handle_patch (raw :: t :: ts) base) w d l new c0 3)
       ∧ (∀ rest c cs,
            (clipboard w).1 = Some (c :: cs) →
            path_suffix target ∈ ALLOWED_FILE_EXTENSIONS →
            has_surrogate (c :: cs) = false →
            follows_protocol (handle_paste_file (raw :: rest) base) w d l (c :: cs) c0 3))
  ∧ (∀ args base, emits no_copy (handle_append args base))
  ∧ (∀ base raw rest w target c0,
       _safe_target base raw w = (Ok target, w) →
       read_path w target = Some c0 →
       let w' := (handle_append (raw :: rest) base w).2 in
       read_path w' target = Some c0
       ∨ read_path w' target
         = Some (universal_newlines c0 ++ sanitize (content_of_args rest))).
Proof.
  split; [exact atomic_write_all_or_nothing|].
  split.
  2:{ split; [exact handle_append_no_copy|exact handle_append_all_or_nothing]. }
  intros base w raw target d l c0 Hsafe Hready.
  split; [|split; [|split; [|split]]].
  - intros rest new Hline Hne Hsur.
    apply (protocol_from_prefix _ _ target); [done..|].
    by apply handle_set_prefix.
  - intros num n t ts new Hnum Hsur.
    apply (protocol_from_prefix _ _ target); [done..|].
    by apply handle_set_line_prefix.
  - intros old t ts new Hsur.
    apply (protocol_from_prefix _ _ target); [done..|].
    by apply handle_replace_prefix.
  - intros t ts new Hsur.
    apply (protocol_from_prefix _ _ target); [done..|].
    by apply handle_patch_prefix.
  - intros rest c cs Hclip Hsuf Hsur.
    apply (protocol_from_prefix _ _ target); [done..|].
    by eapply handle_paste_file_prefix.
Qed.

(** [/set f.txt hello] in the example world follows the protocol. *)
Lemma write_protocol_witness :
  follows_protocol (handle_set (UD := ascii_tables) [u "f.txt"; u "hello"] example_base)
    example_world [u "conv"] (u "f.txt") (u "hello") (u "a
b
c
") 3.
Proof.
  apply (proj1 (proj1 (proj2 (write_protocol (UD := ascii_tables)))
                  example_base example_world (u "f.txt")
                  (Path true [u "conv"; u "f.txt"]) [u "conv"] (u "f.txt") (u "a
b
c
") ltac:(by vm_compute)
     ltac:(split;
           [exists [u "conv"]; repeat split; try (by vm_compute);
            apply (proj1 (bool_decide_eq_false _)); by vm_compute
           |repeat split; try (by vm_compute);
            apply (proj1 (bool_decide_eq_false _)); by vm_compute]))
           [u "hello"]).
  - by vm_compute.
  - by vm_compute.
  - by vm_compute.
Defined.

(** C3 (as stated) fails in three ways.  [/append f.txt x] on the existing
    file [/conv/f.txt] rewrites it and copies nothing: there is no backup.
    [/create_file f.txt] with content, when the write of the temporary file
    stops after one character, ends after the backup and the interrupted
    write: the backup is not copied back.  And [/set f.txt hello], when the
    write of the temporary file fails and the copy that restores the backup
    stops as it starts, ends with an error and an empty [f.txt]: the content
    is not what it was. *)
Lemma append_makes_no_backup :
  let w1 := (handle_append [u "f.txt"; u "x"] example_base example_world).2 in
  let r2 := handle_create_file [u "f.txt"; u "new
"] example_base example_world_torn in
  let r3 := handle_set (UD := ascii_tables) [u "f.txt"; u "hello"] example_base
              example_world_two_faults in
  file_content example_world [u "conv"; u "f.txt"] = Some (u "a
b
c
")
  ∧ new_events example_world w1
    = [EvWrite [u "conv"; u "f.txt.tmp"] (u "a
b
c
x");
       EvRename [u "conv"; u "f.txt.tmp"] [u "conv"; u "f.txt"]]
  ∧ r2.1 = Ok tt
  ∧ new_events example_world_torn r2.2
    = [EvCopy [u "conv"; u "f.txt"] [u "conv"; u "f.txt.bak.20240101000000"];
       EvTorn [u "conv"; u "f.txt.tmp"] (u "n")]
  ∧ r3.1 = Raise (OSError EIO)
  ∧ new_events example_world_two_faults r3.2
    = [EvCopy [u "conv"; u "f.txt"] [u "conv"; u "f.txt.bak.20240101000000"];
       EvTorn [u "conv"; u "f.txt"] []]
  ∧ file_content r3.2 [u "conv"; u "f.txt"] = Some [].
Proof. by vm_compute. Qed.

(** ** Quoted arguments are read back *)

Lemma read_quoted_taken quote c s j acc :
  read_quoted quote (escape quote [c] ++ s) false j acc
  = read_quoted quote s false (j + length (escape quote [c])) (c :: acc).
Proof.
  unfold escape. simpl. rewrite app_nil_r.
  destruct (N.eqb_spec c BACKSLASH) as [->|Hb]; simpl.
  - f_equal. lia.
  - destruct (N.eqb_spec c quote) as [->|Hq]; simpl.
    + f_equal. lia.
    + rewrite (proj2 (N.eqb_neq _ _) Hb), (proj2 (N.eqb_neq _ _) Hq). f_equal. lia.
Qed.

Lemma escape_cons quote c s : escape quote (c :: s) = escape quote [c] ++ escape quote s.
Proof. unfold escape. simpl. by rewrite app_nil_r. Qed.

(** The quoted-string loop inverts [escape]: it returns the string and stops
    at the closing quote. *)
Lemma read_quoted_escape quote s : ∀ rest j acc,
  quote ≠ BACKSLASH →
  read_quoted quote (escape quote s ++ quote :: rest) false j acc
  = (reverse acc ++ s, j + length (escape quote s)).
Proof.
  induction s as [|c s IH]; intros rest j acc Hq.
  - simpl. rewrite (proj2 (N.eqb_neq _ _) Hq), N.eqb_refl, app_nil_r. f_equal. lia.
  - rewrite escape_cons, <- app_assoc, read_quoted_taken, IH by done.
    rewrite reverse_cons, <- app_assoc, length_app. f_equal. lia.
Qed.

Section Quoting.
Context `{UD : UnicodeData}.
Context (q : N) (Hq : q = DQUOTE ∨ q = SQUOTE).

Lemma quote_facts :
  q ≠ BACKSLASH ∧ isspace q = false ∧ (q =? SLASH)%N = false
  ∧ (q =? BACKTICK)%N = false ∧ (q =? DQUOTE)%N || (q =? SQUOTE)%N = true.
Proof. by destruct Hq as [-> | ->]. Qed.

(** One iteration of the argument loop on a quoted argument. *)
Lemma read_args_quoted fuel text pos args a rest :
  drop pos text = [SPACE; q] ++ escape q a ++ [q] ++ rest →
  read_args (S fuel) text pos args
  = read_args fuel text (pos + length (escape q a) + 3) (args ++ [a]).
Proof.
  intros Hdrop. destruct quote_facts as (Hb & Hsp & Hsl & Hbt & Hqq).
  assert (length text = pos + (length (escape q a) + 3 + length rest)) as HL.
  { pose proof (f_equal length Hdrop) as H. rewrite length_drop in H.
    rewrite !length_app in H. simpl in H. lia. }
  cbn [read_args].
  assert (skip_space text pos = pos + 1) as ->.
  { unfold skip_space. rewrite Hdrop. simpl. by rewrite Hsp. }
  assert (text !! (pos + 1) = Some q) as ->.
  { rewrite <- lookup_drop, Hdrop. done. }
  rewrite Hsl, Hbt, Hqq. cbn [andb].
  assert (drop (pos + 1 + 1) text = escape q a ++ q :: rest) as ->.
  { rewrite <- !drop_drop, Hdrop. done. }
  rewrite read_quoted_escape by done.
  rewrite bool_decide_eq_true_2 by lia.
  f_equal. lia.
Qed.

(** The argument loop on a run of quoted arguments that ends the text. *)
Lemma read_args_quoted_all : ∀ args fuel text pos acc,
  pos ≤ length text → drop pos text = quoted_args q args → length args < fuel →
  read_args fuel text pos acc = Some (acc ++ args, length text).
Proof.
  induction args as [|a args IH]; intros fuel text pos acc Hpos Hdrop Hfuel.
  - destruct fuel as [|fuel]; [lia|]. cbn [read_args].
    assert (pos = length text) as ->.
    { apply (f_equal length) in Hdrop. rewrite length_drop in Hdrop. simpl in Hdrop. lia. }
    unfold skip_space. rewrite drop_all. simpl. rewrite Nat.add_0_r.
    rewrite lookup_ge_None_2 by lia. by rewrite app_nil_r.
  - destruct fuel as [|fuel]; [simpl in Hfuel; lia|].
    assert (drop pos text
            = [SPACE; q] ++ escape q a ++ [q] ++ quoted_args q args) as Hd.
    { rewrite Hdrop. unfold quoted_args. simpl. by rewrite <- !app_assoc. }
    rewrite (read_args_quoted _ _ _ _ _ _ Hd).
    pose proof (f_equal length Hd) as HL. rewrite length_drop, !length_app in HL.
    simpl in HL.
    rewrite (IH fuel text _ (acc ++ [a])).
    + by rewrite <- app_assoc.
    + lia.
    + set (pre := [SPACE; q] ++ escape q a ++ [q]).
      assert (drop pos text = pre ++ quoted_args q args) as Hd'.
      { rewrite Hd. unfold pre. by rewrite <- !app_assoc. }
      replace (pos + length (escape q a) + 3) with (pos + length pre)
        by (unfold pre; rewrite !length_app; simpl; lia).
      by rewrite <- drop_drop, Hd', drop_app_length.
    + simpl in Hfuel. lia.
Qed.

Lemma takewhile_all_then f s rest :
  forallb f s = true → (∀ c, head rest = Some c → f c = false) →
  takewhile f (s ++ rest) = s.
Proof.
  intros Hs Hrest. induction s as [|c s IH]; simpl in *.
  - destruct rest as [|c rest]; [done|]. simpl. by rewrite (Hrest c).
  - apply andb_prop in Hs as [-> Hs]. by rewrite IH.
Qed.

Lemma quoted_args_head args c : head (quoted_args q args) = Some c → c = SPACE.
Proof. destruct args; simpl; [done|]. by intros [= <-]. Qed.

Lemma length_quoted_args args : length args ≤ length (quoted_args q args).
Proof.
  induction args as [|a args IH]; simpl; [lia|].
  rewrite !length_app. simpl. lia.
Qed.

Lemma scan_commands_at_end fuel text acc :
  0 < fuel → scan_commands fuel text (length text) acc = Some acc.
Proof.
  intros Hfuel. destruct fuel as [|fuel]; [lia|]. cbn [scan_commands].
  unfold find. by rewrite drop_all.
Qed.

(** A command name, then arguments written in quotes with [escape]: the
    tokenizer returns that one command with the arguments as they were,
    whatever characters they hold. *)
Theorem find_commands_quoted_round_trip (d : N) (name : pystr) (args : list pystr) :
  name_start d = true → forallb is_word name = true →
  find_commands_in_text (SLASH :: d :: name ++ quoted_args q args)
  = [(d :: name, args)].
Proof.
  intros Hd Hname.
  set (text := SLASH :: d :: name ++ quoted_args q args).
  unfold find_commands_in_text, command_spans. fold text.
  assert (length text = 2 + length name + length (quoted_args q args)) as HL.
  { unfold text. simpl. rewrite length_app. lia. }
  change (match text with [] => [] | _ => ?x end) with x.
  cbn [scan_commands].
  assert (find [SLASH] text 0 = Some 0) as -> by done.
  rewrite bool_decide_eq_false_2 by lia. cbn [andb].
  assert (command_name_match (drop 0 text) = Some (d :: name)) as ->.
  { unfold text. simpl. rewrite Hd. f_equal. f_equal.
    apply takewhile_all_then; [done|].
    intros c ->%quoted_args_head. unfold is_word. by simpl. }
  pose proof (length_quoted_args args) as Hla.
  rewrite (read_args_quoted_all args _ text _ []).
  - rewrite scan_commands_at_end by lia. done.
  - rewrite HL. simpl. lia.
  - unfold text. simpl. by rewrite drop_app_length.
  - rewrite HL. lia.
Qed.

End Quoting.

(** The arguments [a b] and one with a quote, a backslash, a line feed and a
    slash. *)
Lemma find_commands_quoted_round_trip_witness :
  find_commands_in_text (UD := ascii_tables)
    (SLASH :: 115%N :: u "et" ++ quoted_args DQUOTE [u "a b"; [120; 34; 92; 10; 47; 107]%N])
  = [(115%N :: u "et", [u "a b"; [120; 34; 92; 10; 47; 107]%N])].
Proof.
  apply (find_commands_quoted_round_trip (UD := ascii_tables) DQUOTE);
    [by left|reflexivity|reflexivity].
Defined.

(** A text in which no slash starts a line holds no command. *)
Theorem no_line_leading_slash_no_command `{UD : UnicodeData} (text : pystr) :
  has_line_leading_slash text = false → find_commands_in_text text = [].
Proof.
  intros Hno. unfold find_commands_in_text.
  destruct (command_spans_ok text) as [Hok _].
  destruct (command_spans text) as [|s l]; [done|].
  apply Forall_inv in Hok. destruct Hok as (Hs & Hl & _).
  apply bool_decide_eq_false in Hno. destruct Hno.
  apply Exists_exists. exists (sp_start s). split; [|done].
  apply elem_of_seq. apply lookup_lt_Some in Hs. lia.
Qed.

(** A path and a date, each with slashes inside a line. *)
Lemma no_line_leading_slash_no_command_witness :
  find_commands_in_text (UD := ascii_tables) (u "see a/b
on 1/2 /set x") = [].
Proof.
  apply (no_line_leading_slash_no_command (UD := ascii_tables)). reflexivity.
Defined.

(** ** [/delete_file], [/remove_line] and the backups they leave *)

Lemma ready_can_back_up w target d l c0 :
  ready w target d l c0 → can_back_up w target d l c0.
Proof. intros (? & ? & ? & ? & ?). by repeat split. Qed.

Lemma is_file_sited w p d l c :
  sited (files w) (cwd w) p d l → files w !! (d ++ [l]) = Some (File c) →
  is_file w p = true.
Proof.
  intros Hs Hn. unfold is_file, stat. erewrite sited_locate by done.
  rewrite node_at_lookup by apply snoc_ne_nil. by rewrite Hn.
Qed.

Lemma no_faults_at w fs evs k i : faults w = [] → fault_at (step_world w fs evs k) i = None.
Proof. intros H. rewrite fault_at_step. unfold fault_at. by rewrite H. Qed.

Lemma no_faults_now w i : faults w = [] → fault_at w i = None.
Proof. intros H. unfold fault_at. by rewrite H. Qed.

(** The backup of a file that can be backed up, after [n] I/O calls that
    changed nothing. *)
Lemma backup_made target w d l c0 n :
  can_back_up w target d l c0 → fault_at w n = None →
  ∃ b, sited (files w) (cwd w) b d (l ++ u ".bak." ++ now w)
    ∧ make_timestamped_backup target (step_world w (files w) [] n)
      = (Ok (Some b),
         step_world w (<[d ++ [l ++ u ".bak." ++ now w] := File c0]> (files w))
           [EvCopy (d ++ [l]) (d ++ [l ++ u ".bak." ++ now w])] (S n)).
Proof.
  intros (Hs & HK & Hkb & Hnow) Hf.
  destruct (make_timestamped_backup_ok target (step_world w (files w) [] n) d l c0)
    as (b & Hsb & Hbk); try done.
  - change (files w !! (d ++ [l ++ u ".bak." ++ now w]) ≠ Some Dir). by rewrite Hkb.
  - rewrite fault_at_step. by rewrite Nat.add_0_r.
  - exists b. split; [done|]. rewrite Hbk, step_world_step.
    f_equal. f_equal. lia.
Qed.

(** A copy that the fault [f] stops. *)
Lemma shutil_copy_fails src dst w ks kd l c f :
  fault_at w 0 = Some f → is_dir w dst = false →
  locate w src = inr ks → ks ≠ [] → files w !! ks = Some (File c) →
  locate w dst = inr kd → last (abs_parts w dst) = Some l → l ≠ DOTDOT →
  ks ≠ kd → node_at (files w) kd ≠ Some Dir →
  shutil_copy src dst w
  = (Raise (OSError EIO),
     step_world w (foldr apply_event (files w) (torn_copy f kd c)) (torn_copy f kd c) 1).
Proof.
  intros Hf Hdir Hs Hks Hc Hd Hl Hne Hkk Hn. unfold shutil_copy.
  rewrite bind_unfold, io_fault_step, Hf, bind_get_world.
  assert (is_dir (pop_fault w) dst = false) as -> by done.
  unfold stat. unfold pop_fault at 1 2 3 4 5 6. rewrite !locate_step, !abs_parts_step.
  change (locate_parts (files w) (abs_parts w src)) with (locate w src).
  change (locate_parts (files w) (abs_parts w dst)) with (locate w dst).
  change (files (step_world w (files w) [] 1)) with (files w).
  rewrite Hs, (node_at_lookup _ ks), Hc, Hl, Hd by done.
  rewrite !decide_False by done. unfold pop_fault.
  destruct (node_at (files w) kd) as [[c0|]|]; [|done|]; destruct f as [|n];
    cbn [torn_copy foldr]; first [done | by rewrite bind_unfold, emit_step].
Qed.

(** [/delete_file] on a regular file.  When no operation fails it copies the
    file to its backup name and removes it; the backup stays.  It does not
    look at the outcome of the backup: when the copy is the one operation
    that fails, the file is removed all the same, and of its content only
    what the copy had written is left.  On anything that is no regular file,
    missing or a directory, it changes nothing. *)
Theorem delete_file_keeps_backup (base : PurePath) (w : world) (raw : pystr)
    (rest : list pystr) (target : PurePath) :
  _safe_target base raw w = (Ok target, w) →
  (∀ d l c0,
     can_back_up w target d l c0 → faults w = [] →
     ∃ w', handle_delete_file (raw :: rest) base w = (Ok tt, w')
       ∧ new_events w w'
         = [EvCopy (d ++ [l]) (d ++ [l ++ u ".bak." ++ now w]); EvUnlink (d ++ [l])]
       ∧ files w'
         = <[d ++ [l ++ u ".bak." ++ now w] := File c0]> (delete (d ++ [l]) (files w)))
  ∧ (∀ d l c0 f,
       can_back_up w target d l c0 → faults w = [Some f] →
       ∃ w', handle_delete_file (raw :: rest) base w = (Ok tt, w')
         ∧ new_events w w'
           = torn_copy f (d ++ [l ++ u ".bak." ++ now w]) c0 ++ [EvUnlink (d ++ [l])]
         ∧ files w' !! (d ++ [l]) = None
         ∧ file_content w' (d ++ [l ++ u ".bak." ++ now w]) = torn_content f c0)
  ∧ (is_file w target = false → handle_delete_file (raw :: rest) base w = (Ok tt, w)).
Proof.
  intros Hsafe. split; [|split].
  - intros d l c0 Hcb Hfaults.
    destruct (backup_made target w d l c0 0 Hcb (no_faults_now _ _ Hfaults))
      as (b & Hsb & Hbk).
    rewrite step_world_id in Hbk.
    destruct Hcb as (Hs & HK & Hkb & Hnow).
    destruct (bak_name_ne l (now w)) as (Hb1 & Hb2 & Hb3 & Hb4).
    unfold handle_delete_file. rewrite (bind_ok _ _ _ _ _ Hsafe), bind_get_world.
    rewrite (path_exists_sited _ _ _ _ _ Hs HK), (is_file_sited _ _ _ _ _ Hs HK).
    cbn [andb]. rewrite (bind_ok _ _ _ _ _ Hbk).
    unfold remove_file_safe.
    set (kb := d ++ [l ++ u ".bak." ++ now w]) in *.
    assert (path_unlink target (step_world w (<[kb := File c0]> (files w))
                                  [EvCopy (d ++ [l]) kb] 1)
            = (Ok tt, step_world w (delete (d ++ [l]) (<[kb := File c0]> (files w)))
                        [EvCopy (d ++ [l]) kb; EvUnlink (d ++ [l])] 2)) as Hun.
    { erewrite (path_unlink_ok target _ (d ++ [l]) c0).
      - by rewrite step_world_step.
      - by apply no_faults_at.
      - eapply sited_locate; [done..|]. cbn [step_world files cwd].
        eapply sited_ext; [exact Hs|]. apply fs_ext_insert_file. by rewrite Hkb.
      - apply snoc_ne_nil.
      - cbn [step_world files]. rewrite lookup_insert_ne; [done|]. by apply snoc_ne. }
    rewrite (try_except_ok _ _ _ _ _ Hun).
    eexists. split; [done|]. rewrite new_events_step.
    split; [done|]. cbn [step_world files].
    rewrite delete_insert_ne; [done|]. apply snoc_ne. done.
  - intros d l c0 f (Hs & HK & Hkb & Hnow) Hfaults.
    destruct (with_name_sited _ _ _ _ _ (now w) Hs Hnow) as (b & Hb & Hsb).
    destruct (bak_name_ne l (now w)) as (Hb1 & Hb2 & Hb3 & Hb4).
    set (kb := d ++ [l ++ u ".bak." ++ now w]) in *.
    set (fs1 := foldr apply_event (files w) (torn_copy f kb c0)).
    assert (fs1 !! (d ++ [l]) = Some (File c0)) as HK1.
    { unfold fs1. destruct f as [|n]; simpl; [done|].
      rewrite lookup_insert_ne; [done|]. by apply snoc_ne. }
    assert (fs_ext (files w) fs1) as Hext.
    { unfold fs1. destruct f as [|n]; simpl; [apply fs_ext_refl|].
      apply fs_ext_insert_file. by rewrite Hkb. }
    assert (make_timestamped_backup target w
            = (Ok None, step_world w fs1 (torn_copy f kb c0) 1)) as Hbk.
    { unfold make_timestamped_backup.
      rewrite bind_get_world. rewrite (path_exists_sited _ _ _ _ _ Hs HK). cbn [negb].
      unfold lift. rewrite bind_unfold, Hb.
      assert (shutil_copy target b w
              = (Raise (OSError EIO), step_world w fs1 (torn_copy f kb c0) 1)) as Hcp.
      { apply (shutil_copy_fails target b w (d ++ [l]) kb (l ++ u ".bak." ++ now w));
          try done.
        - unfold fault_at. by rewrite Hfaults.
        - eapply is_dir_sited_false; [done|]. fold kb. by rewrite Hkb.
        - by eapply sited_locate.
        - apply snoc_ne_nil.
        - by eapply sited_locate.
        - by eapply sited_last.
        - apply snoc_ne. congruence.
        - rewrite node_at_lookup by apply snoc_ne_nil. by rewrite Hkb. }
      by rewrite (try_except_raise _ _ _ _ _ (bind_raise _ _ _ _ _ Hcp)). }
    unfold handle_delete_file. rewrite (bind_ok _ _ _ _ _ Hsafe), bind_get_world.
    rewrite (path_exists_sited _ _ _ _ _ Hs HK), (is_file_sited _ _ _ _ _ Hs HK).
    cbn [andb]. rewrite (bind_ok _ _ _ _ _ Hbk).
    unfold remove_file_safe.
    assert (path_unlink target (step_world w fs1 (torn_copy f kb c0) 1)
            = (Ok tt, step_world w (delete (d ++ [l]) fs1)
                        (torn_copy f kb c0 ++ [EvUnlink (d ++ [l])]) 2)) as Hun.
    { erewrite (path_unlink_ok target _ (d ++ [l]) c0).
      - by rewrite step_world_step.
      - rewrite fault_at_step. unfold fault_at. by rewrite Hfaults.
      - eapply sited_locate; [done..|]. cbn [step_world files cwd].
        by eapply sited_ext.
      - apply snoc_ne_nil.
      - done. }
    rewrite (try_except_ok _ _ _ _ _ Hun).
    eexists. split; [done|]. rewrite new_events_step.
    split; [done|]. cbn [step_world files]. split.
    + by rewrite lookup_delete_eq.
    + unfold file_content. cbn [step_world files].
      rewrite lookup_delete_ne by (apply snoc_ne; congruence).
      unfold fs1. destruct f as [|n]; simpl.
      * by rewrite Hkb.
      * by rewrite lookup_insert_eq.
  - intros Hfile. unfold handle_delete_file.
    rewrite (bind_ok _ _ _ _ _ Hsafe), bind_get_world, Hfile.
    by rewrite andb_false_r.
Qed.

Ltac example_sited :=
  exists [u "conv"]; repeat split; try (by vm_compute);
  apply (proj1 (bool_decide_eq_false _)); by vm_compute.

Ltac example_no_slash := apply (proj1 (bool_decide_eq_false _)); by vm_compute.

(** [/delete_file f.txt] in the example world: without a fault, and when
    the copy to the backup fails. *)
Lemma delete_file_keeps_backup_witness :
  (∃ w', handle_delete_file [u "f.txt"] example_base example_world = (Ok tt, w')
     ∧ new_events example_world w'
       = [EvCopy [u "conv"; u "f.txt"] [u "conv"; u "f.txt.bak.20240101000000"];
          EvUnlink [u "conv"; u "f.txt"]]
     ∧ files w'
       = <[ [u "conv"; u "f.txt.bak.20240101000000"] := File (u "a
b
c
")]> (delete [u "conv"; u "f.txt"] (files example_world)))
  ∧ (∃ w', handle_delete_file [u "f.txt"] example_base example_world_fail_first
           = (Ok tt, w')
       ∧ new_events example_world_fail_first w' = [EvUnlink [u "conv"; u "f.txt"]]
       ∧ files w' !! [u "conv"; u "f.txt"] = None
       ∧ file_content w' [u "conv"; u "f.txt.bak.20240101000000"] = None).
Proof.
  split.
  - apply (proj1 (delete_file_keeps_backup example_base example_world (u "f.txt") []
                    (Path true [u "conv"; u "f.txt"]) ltac:(by vm_compute))
             [u "conv"] (u "f.txt")).
    + split; [example_sited|]. repeat split; try (by vm_compute). example_no_slash.
    + reflexivity.
  - apply (proj1 (proj2 (delete_file_keeps_backup example_base example_world_fail_first
                           (u "f.txt") [] (Path true [u "conv"; u "f.txt"])
                           ltac:(by vm_compute)))
             [u "conv"] (u "f.txt") (u "a
b
c
") FailEarly).
    + split; [example_sited|]. repeat split; try (by vm_compute). example_no_slash.
    + reflexivity.
Defined.

(** The text [/remove_line] writes has no line feed after its last line. *)
Lemma remove_line_text_spec `{UD : UnicodeData} text n :
  remove_line_text text n
  = if bool_decide (1 ≤ n ≤ Z.of_nat (length (splitlines text)))%Z
    then Some (join [LF] (delete (Z.to_nat (n - 1)) (splitlines text)))
    else None.
Proof.
  unfold remove_line_text.
  destruct (bool_decide_reflect (0 ≤ n - 1)%Z) as [H1|H1];
    destruct (bool_decide_reflect (n - 1 < Z.of_nat (length (splitlines text)))%Z)
      as [H2|H2]; cbn [andb].
  2-4: rewrite bool_decide_eq_false_2 by lia; done.
  rewrite bool_decide_eq_true_2 by lia. f_equal.
  set (ls := delete _ _).
  assert (Forall line_clean ls) as Hls by apply Forall_delete, splitlines_clean.
  destruct (last ls) as [x|] eqn:E; [|by rewrite app_nil_r].
  assert (line_clean x) as Hx.
  { apply last_Some in E as [l' ->]. by apply Forall_app in Hls as [_ ?%Forall_inv]. }
  destruct x as [|c x]; [by rewrite app_nil_r|].
  pose proof (endswith_LF_app_clean [] (c :: x) Hx ltac:(done)) as He.
  rewrite app_nil_l in He. by rewrite He, app_nil_r.
Qed.

Section RemoveLine.
Context `{UD : UnicodeData}.

(** [/remove_line N path] on a regular file: line [N], when the file has
    one, is taken out and the other lines are written back joined by line
    feeds; otherwise the file stays as it is.  Either way the backup made
    before is left next to the file. *)
Theorem remove_line_leaves_backup (base : PurePath) (w : world) (num raw : pystr)
    (rest : list pystr) (n : Z) (target : PurePath) (d : list (list N)) (l c0 : pystr) :
  let lines := splitlines (universal_newlines c0) in
  let K := d ++ [l] in
  let kb := d ++ [l ++ u ".bak." ++ now w] in
  py_int num = Some n →
  _safe_target base raw w = (Ok target, w) →
  ready w target d l c0 → faults w = [] → has_surrogate c0 = false →
  ∃ w', handle_remove_line (num :: raw :: rest) base w = (Ok tt, w')
    ∧ file_content w' kb = Some c0
    ∧ ((1 ≤ n ≤ Z.of_nat (length lines))%Z →
         files w' = <[K := File (join [LF] (delete (Z.to_nat (n - 1)) lines))]>
                      (<[kb := File c0]> (files w)))
    ∧ (¬ (1 ≤ n ≤ Z.of_nat (length lines))%Z →
         files w' = <[kb := File c0]> (files w)).
Proof.
  intros lines K kb Hnum Hsafe Hready Hfaults Hc0.
  destruct (backup_step target w d l c0 0 Hready (no_faults_now _ _ Hfaults))
    as (b & Hsb & Hbk).
  rewrite step_world_id in Hbk. fold K kb in Hbk.
  pose proof Hready as (Hs & HK & Hkt & Hkb & Hnow). fold K kb in HK, Hkb.
  destruct (bak_name_ne l (now w)) as (Hb1 & Hb2 & Hb3 & Hb4).
  destruct (tmp_name_ne l) as (Ht1 & Ht2 & Ht3).
  unfold handle_remove_line. rewrite Hnum.
  rewrite (bind_ok _ _ _ _ _ Hsafe), bind_get_world.
  rewrite (exists_at_start w target d l c0 Hready). cbn [negb].
  rewrite (bind_ok _ _ _ _ _ Hbk).
  rewrite (try_except_bind_ok _ _ _ _ _ _
             (read_step target w d l c0 1 Hready (no_faults_now _ _ Hfaults))).
  fold K kb. rewrite remove_line_text_spec. fold lines.
  destruct (bool_decide_reflect (1 ≤ n ≤ Z.of_nat (length lines))%Z) as [Hin|Hout].
  - set (new := join [LF] (delete (Z.to_nat (n - 1)) lines)).
    assert (has_surrogate new = false) as Hnew.
    { apply has_surrogate_Forall. apply join_Forall; [by repeat constructor|].
      apply Forall_delete. eapply splitlines_from_Forall; [done|constructor|].
      apply universal_newlines_Forall; [done|]. by apply has_surrogate_Forall. }
    assert (atomic_write target new (step_world w (<[kb := File c0]> (files w))
                                       [EvCopy K kb] 2)
            = (Ok tt, step_world w
                 (<[K := File new]> (delete (d ++ [l ++ u ".tmp"])
                                       (<[kb := File c0]> (files w))))
                 [EvCopy K kb; EvWrite (d ++ [l ++ u ".tmp"]) new;
                  EvRename (d ++ [l ++ u ".tmp"]) K] 5)) as Haw.
    { erewrite (atomic_write_ok target new _ d l).
      - by rewrite step_world_step.
      - cbn [step_world files cwd]. eapply sited_ext; [exact Hs|].
        apply fs_ext_insert_file. by rewrite Hkb.
      - cbn [step_world files]. rewrite lookup_insert_ne by (by apply snoc_ne).
        fold K. by rewrite HK.
      - cbn [step_world files]. rewrite lookup_insert_ne by (by apply snoc_ne).
        by rewrite Hkt.
      - by apply no_faults_at.
      - by apply no_faults_at.
      - done. }
    rewrite (try_except_ok _ _ _ _ _ Haw).
    eexists. split; [done|]. unfold file_content. cbn [step_world files].
    assert (delete (d ++ [l ++ u ".tmp"]) (<[kb := File c0]> (files w))
            = <[kb := File c0]> (files w)) as ->.
    { apply delete_id. rewrite lookup_insert_ne by (by apply snoc_ne). done. }
    split; [|split; [done|by intros []]].
    rewrite lookup_insert_ne by (apply snoc_ne; done).
    by rewrite lookup_insert_eq.
  - unfold try_except. cbn [mret M_ret ret].
    eexists. split; [done|]. unfold file_content. cbn [step_world files].
    rewrite lookup_insert_eq. split; [done|]. split; [by intros ?|done].
Qed.

End RemoveLine.

(** [/remove_line 2 f.txt] in the example world. *)
Lemma remove_line_leaves_backup_witness :
  ∃ w', handle_remove_line (UD := ascii_tables) [u "2"; u "f.txt"] example_base
          example_world = (Ok tt, w')
    ∧ file_content w' [u "conv"; u "f.txt.bak.20240101000000"] = Some (u "a
b
c
")
    ∧ file_content w' [u "conv"; u "f.txt"] = Some (u "a
c").
Proof.
  destruct (remove_line_leaves_backup (UD := ascii_tables) example_base example_world
              (u "2") (u "f.txt") [] 2 (Path true [u "conv"; u "f.txt"])
              [u "conv"] (u "f.txt") (u "a
b
c
")) as (w' & Hrun & Hbak & Hin & _).
  - by vm_compute.
  - by vm_compute.
  - split; [example_sited|]. repeat split; try (by vm_compute). example_no_slash.
  - reflexivity.
  - by vm_compute.
  - exists w'. split; [exact Hrun|]. split; [exact Hbak|].
    assert (1 ≤ 2 ≤ Z.of_nat 3)%Z as H23 by lia.
    unfold file_content. rewrite (Hin H23).
    rewrite lookup_insert_eq. by vm_compute.
Defined.

(** ** More runs: empty [/set], [/move_file], [/copy_file] and [/paste_file] *)

Lemma sited_after_backup w target d l c0 p d' l' :
  can_back_up w target d l c0 →
  sited (files w) (cwd w) p d' l' →
  sited (<[d ++ [l ++ u ".bak." ++ now w] := File c0]> (files w)) (cwd w) p d' l'.
Proof.
  intros (Hs & HK & Hkb & Hnow) Hp. eapply sited_ext; [exact Hp|].
  apply fs_ext_insert_file. by rewrite Hkb.
Qed.

Section SetEmpty.
Context `{UD : UnicodeData}.

(** [/set path] with content that is empty after sanitation, on a regular
    file: the file is copied to its backup name and nothing else happens;
    the backup is not removed. *)
Theorem set_empty_content_leaves_backup (base : PurePath) (w : world) (raw : pystr)
    (rest : list pystr) (target : PurePath) (d : list (list N)) (l c0 : pystr) :
  raw ≠ u "line" → sanitize (content_of_args rest) = [] →
  _safe_target base raw w = (Ok target, w) →
  can_back_up w target d l c0 → faults w = [] →
  ∃ w', handle_set (raw :: rest) base w = (Ok tt, w')
    ∧ new_events w w' = [EvCopy (d ++ [l]) (d ++ [l ++ u ".bak." ++ now w])]
    ∧ files w' = <[d ++ [l ++ u ".bak." ++ now w] := File c0]> (files w).
Proof.
  intros Hline Hempty Hsafe Hcb Hfaults.
  destruct (backup_made target w d l c0 1 Hcb (no_faults_now _ _ Hfaults))
    as (b & Hsb & Hbk).
  pose proof Hcb as (Hs & HK & Hkb & Hnow).
  destruct (bak_name_ne l (now w)) as (Hb1 & Hb2 & Hb3 & Hb4).
  unfold handle_set. rewrite bool_decide_eq_false_2 by done.
  rewrite (bind_ok _ _ _ _ _ Hsafe).
  rewrite (bind_ok _ _ _ _ _ (ensure_parent_dir_sited _ _ _ _ Hs)).
  rewrite bind_get_world.
  assert (path_exists (pop_fault w) target = true) as ->.
  { by eapply (path_exists_sited _ _ d l). }
  unfold pop_fault. rewrite (bind_ok _ _ _ _ _ Hbk), bind_get_world.
  rewrite Hempty, bool_decide_eq_true_2 by done. cbn [andb].
  erewrite (path_exists_sited _ target d l).
  - eexists. split; [done|]. by rewrite new_events_step.
  - cbn [step_world files cwd]. by eapply sited_after_backup.
  - cbn [step_world files]. rewrite lookup_insert_ne; [done|]. by apply snoc_ne.
Qed.

End SetEmpty.

(** [/set f.txt] without content in the example world. *)
Lemma set_empty_content_leaves_backup_witness :
  ∃ w', handle_set (UD := ascii_tables) [u "f.txt"] example_base example_world
        = (Ok tt, w')
    ∧ new_events example_world w'
      = [EvCopy [u "conv"; u "f.txt"] [u "conv"; u "f.txt.bak.20240101000000"]]
    ∧ files w'
      = <[ [u "conv"; u "f.txt.bak.20240101000000"] := File (u "a
b
c
")]> (files example_world).
Proof.
  apply (set_empty_content_leaves_backup (UD := ascii_tables) example_base example_world
           (u "f.txt") [] (Path true [u "conv"; u "f.txt"]) [u "conv"] (u "f.txt")).
  - by vm_compute.
  - by vm_compute.
  - by vm_compute.
  - split; [example_sited|]. repeat split; try (by vm_compute). example_no_slash.
  - reflexivity.
Defined.

(** [/move_file src dst] of a regular file onto a path that is absent or a
    regular file: the destination holds what the source held, the source is
    gone, and what the destination held before is in no file: the one backup
    made is that of the source, and it is removed. *)
Theorem move_file_overwrites (base : PurePath) (w : world) (rs rd : pystr)
    (rest : list pystr) (src dst : PurePath) (d d' : list (list N)) (l l' c0 : pystr) :
  let Ks := d ++ [l] in
  let Kd := d' ++ [l'] in
  let kb := d ++ [l ++ u ".bak." ++ now w] in
  _safe_target base rs w = (Ok src, w) →
  _safe_target base rd w = (Ok dst, w) →
  can_back_up w src d l c0 →
  sited (files w) (cwd w) dst d' l' → files w !! Kd ≠ Some Dir →
  Kd ≠ Ks → Kd ≠ kb → faults w = [] →
  ∃ w', handle_move_file (rs :: rd :: rest) base w = (Ok tt, w')
    ∧ new_events w w' = [EvCopy Ks kb; EvRename Ks Kd; EvUnlink kb]
    ∧ files w' = <[Kd := File c0]> (delete Ks (files w)).
Proof.
  intros Ks Kd kb Hsrc Hdst Hcb Hsd HKd Hne Hneb Hfaults.
  destruct (backup_made src w d l c0 1 Hcb (no_faults_now _ _ Hfaults))
    as (b & Hsb & Hbk). fold Ks kb in Hbk.
  pose proof Hcb as (Hs & HK & Hkb & Hnow). fold Ks in HK. fold kb in Hkb.
  destruct (bak_name_ne l (now w)) as (Hb1 & Hb2 & Hb3 & Hb4).
  set (fs1 := <[kb := File c0]> (files w)) in *.
  assert (fs_ext (files w) fs1) as Hext1.
  { apply fs_ext_insert_file. by rewrite Hkb. }
  assert (fs1 !! Ks = Some (File c0)) as HK1.
  { unfold fs1. rewrite lookup_insert_ne; [done|]. by apply snoc_ne. }
  assert (fs1 !! Kd ≠ Some Dir) as HKd1.
  { unfold fs1. by rewrite lookup_insert_ne. }
  set (fs2 := <[Kd := File c0]> (delete Ks fs1)).
  assert (fs_ext fs1 fs2) as Hext2 by (by apply fs_ext_rename_file).
  unfold handle_move_file.
  rewrite (bind_ok _ _ _ _ _ Hsrc), (bind_ok _ _ _ _ _ Hdst), bind_get_world.
  rewrite (path_exists_sited _ _ _ _ _ Hs HK). cbn [negb].
  rewrite (bind_ok _ _ _ _ _ (ensure_parent_dir_sited _ _ _ _ Hsd)).
  unfold pop_fault.
  (* the move *)
  assert (shutil_move src dst (step_world w fs1 [EvCopy Ks kb] 2)
          = (Ok tt, step_world w fs2 [EvCopy Ks kb; EvRename Ks Kd] 3)) as Hmv.
  { unfold shutil_move. rewrite bind_get_world.
    erewrite (is_dir_sited_false _ dst d' l'); [|by eapply sited_ext|done].
    rewrite bind_unfold. cbn [mret M_ret ret].
    apply try_except_ok.
    erewrite (path_replace_ok src dst _ Ks Kd c0).
    - by rewrite step_world_step.
    - by apply no_faults_at.
    - eapply sited_locate; [done..|]. cbn [step_world files cwd]. by eapply sited_ext.
    - eapply sited_locate; [done..|]. cbn [step_world files cwd]. by eapply sited_ext.
    - apply snoc_ne_nil.
    - apply snoc_ne_nil.
    - done.
    - done.
    - by rewrite node_at_lookup by apply snoc_ne_nil. }
  (* the backup is dropped *)
  assert (discard_backup (Some b) (step_world w fs2 [EvCopy Ks kb; EvRename Ks Kd] 3)
          = (Ok tt, step_world w (delete kb fs2)
                      [EvCopy Ks kb; EvRename Ks Kd; EvUnlink kb] 4)) as Hdis.
  { erewrite (discard_backup_ok b _ d (l ++ u ".bak." ++ now w) c0).
    - by rewrite step_world_step.
    - cbn [step_world files cwd]. eapply sited_ext; [exact Hsb|].
      by eapply fs_ext_trans.
    - cbn [step_world files]. unfold fs2. fold kb.
      rewrite lookup_insert_ne by done.
      rewrite lookup_delete_ne by (apply snoc_ne; done).
      apply lookup_insert_eq.
    - by apply no_faults_at. }
  apply (bind_ok _ (λ backup, shutil_move src dst;; discard_backup backup)) in Hbk.
  rewrite (bind_ok _ _ _ _ _ Hmv), Hdis in Hbk.
  rewrite (try_except_ok _ _ _ _ _ Hbk).
  eexists. split; [done|]. rewrite new_events_step. split; [done|].
  cbn [step_world files]. apply map_eq. intros k. unfold fs2, fs1.
  destruct (decide (k = kb)) as [->|Hkkb].
  { rewrite lookup_delete_eq, lookup_insert_ne by done.
    rewrite lookup_delete_ne by (apply snoc_ne; done). by rewrite Hkb. }
  rewrite lookup_delete_ne by done.
  destruct (decide (k = Kd)) as [->|HkKd]; [by rewrite !lookup_insert_eq|].
  rewrite !lookup_insert_ne by done.
  destruct (decide (k = Ks)) as [->|HkKs]; [by rewrite !lookup_delete_eq|].
  rewrite !lookup_delete_ne by done. by rewrite lookup_insert_ne.
Qed.

(** [/move_file src.txt f.txt] where both files exist. *)
Lemma move_file_overwrites_witness :
  ∃ w', handle_move_file [u "src.txt"; u "f.txt"] example_base example_world_rm
        = (Ok tt, w')
    ∧ new_events example_world_rm w'
      = [EvCopy [u "conv"; u "src.txt"] [u "conv"; u "src.txt.bak.20240101000000"];
         EvRename [u "conv"; u "src.txt"] [u "conv"; u "f.txt"];
         EvUnlink [u "conv"; u "src.txt.bak.20240101000000"]]
    ∧ files w' = <[ [u "conv"; u "f.txt"] := File (u "/rm -rf
")]> (delete [u "conv"; u "src.txt"] (files example_world_rm)).
Proof.
  apply (move_file_overwrites example_base example_world_rm (u "src.txt") (u "f.txt") []
           (Path true [u "conv"; u "src.txt"]) (Path true [u "conv"; u "f.txt"])
           [u "conv"] [u "conv"] (u "src.txt") (u "f.txt")).
  - by vm_compute.
  - by vm_compute.
  - split; [example_sited|]. repeat split; try (by vm_compute). example_no_slash.
  - example_sited.
  - by vm_compute.
  - by vm_compute.
  - by vm_compute.
  - reflexivity.
Defined.

(** [/copy_file] of a regular file puts its text on the clipboard and
    changes no file. *)
Lemma handle_copy_file_run base w raw rest src c0 :
  _safe_target base raw w = (Ok src, w) → read_path w src = Some c0 →
  fault_at w 0 = None →
  handle_copy_file (raw :: rest) base w
  = (Ok tt, World (files w) (cwd w) (now w) (drop 1 (faults w))
              (Some (universal_newlines c0), Some src) (trace w)).
Proof.
  intros Hsafe Hc Hf. unfold handle_copy_file.
  rewrite (bind_ok _ _ _ _ _ Hsafe), bind_get_world.
  assert (path_exists w src = true ∧ is_file w src = true) as [-> ->].
  { unfold path_exists, is_file. unfold read_path in Hc.
    by destruct (stat w src) as [|[]]. }
  cbn [negb orb].
  rewrite (try_except_ok _ _ _ tt (World (files w) (cwd w) (now w) (drop 1 (faults w))
              (Some (universal_newlines c0), Some src) (trace w))); [done|].
  rewrite (bind_ok _ _ _ _ _ (read_text_ok _ _ _ Hf Hc)).
  unfold set_clipboard, pop_fault, step_world. simpl. by rewrite app_nil_r.
Qed.

(** [/paste_file] onto a path that does not exist and has an allowed
    suffix writes the clipboard there. *)
Lemma handle_paste_file_fresh base w raw rest dst d l c cs :
  (clipboard w).1 = Some (c :: cs) →
  _safe_target base raw w = (Ok dst, w) →
  can_create w dst d l → path_suffix dst ∈ ALLOWED_FILE_EXTENSIONS →
  has_surrogate (c :: cs) = false → faults w = [] →
  handle_paste_file (raw :: rest) base w
  = (Ok tt, step_world w (<[d ++ [l] := File (c :: cs)]> (files w))
              [EvWrite (d ++ [l ++ u ".tmp"]) (c :: cs);
               EvRename (d ++ [l ++ u ".tmp"]) (d ++ [l])] 4).
Proof.
  intros Hclip Hsafe (Hs & HK & Hkt) Hsuf Hsur Hfaults.
  unfold handle_paste_file. rewrite bind_get_world, Hclip.
  rewrite (bind_ok _ _ _ _ _ Hsafe).
  rewrite (bind_ok _ _ _ _ _ (ensure_parent_dir_sited _ _ _ _ Hs)).
  rewrite bool_decide_eq_true_2 by done. cbn [negb].
  rewrite bind_get_world.
  assert (path_exists (pop_fault w) dst = false) as ->.
  { by eapply (path_exists_sited_false _ _ d l). }
  rewrite bind_unfold. cbn [mret M_ret ret].
  apply try_except_ok. rewrite bind_get_world.
  change (clipboard (pop_fault w)) with (clipboard w). rewrite Hclip. cbn [default].
  unfold pop_fault.
  erewrite (bind_ok _ _ _ _ _ (atomic_write_ok dst (c :: cs) _ d l _ _ _ _ _ Hsur)).
  - cbn [discard_backup mret M_ret ret]. rewrite step_world_step.
    f_equal. apply step_world_files_eq. cbn [step_world files].
    by rewrite delete_id.
  Unshelve.
  + done.
  + cbn [step_world files]. by rewrite HK.
  + cbn [step_world files]. by rewrite Hkt.
  + by apply no_faults_at.
  + by apply no_faults_at.
Qed.

(** [/copy_file src] followed by [/paste_file dst], where [src] is a regular
    file that is not empty and [dst] a path with an allowed suffix that does
    not exist: [dst] then holds the text of [src] as it is read (line ends
    turned into line feeds), and no other file has changed. *)
Theorem copy_then_paste (base : PurePath) (w : world) (rs rd : pystr)
    (rest rest' : list pystr) (src dst : PurePath) (d : list (list N)) (l c0 : pystr) :
  let w1 := (handle_copy_file (rs :: rest) base w).2 in
  _safe_target base rs w = (Ok src, w) → read_path w src = Some c0 →
  c0 ≠ [] → has_surrogate c0 = false →
  _safe_target base rd w1 = (Ok dst, w1) →
  can_create w dst d l → path_suffix dst ∈ ALLOWED_FILE_EXTENSIONS →
  faults w = [] →
  ∃ w2, handle_paste_file (rd :: rest') base w1 = (Ok tt, w2)
    ∧ files w2 = <[d ++ [l] := File (universal_newlines c0)]> (files w).
Proof.
  intros w1 Hsrc Hc Hne Hsur Hdst Hcr Hsuf Hfaults.
  assert (w1 = World (files w) (cwd w) (now w) (drop 1 (faults w))
                 (Some (universal_newlines c0), Some src) (trace w)) as Hw1.
  { unfold w1. by rewrite (handle_copy_file_run _ _ _ _ _ _ Hsrc Hc
                             (no_faults_now _ _ Hfaults)). }
  clearbody w1. subst w1.
  destruct (universal_newlines c0) as [|c cs] eqn:Eu.
  { destruct c0 as [|x c0]; [done|]. simpl in Eu. by destruct (x =? CR)%N. }
  assert (has_surrogate (c :: cs) = false) as Hsur'.
  { rewrite <- Eu. apply has_surrogate_Forall.
    apply universal_newlines_Forall; [done|]. by apply has_surrogate_Forall. }
  erewrite (handle_paste_file_fresh base _ rd rest' dst d l c cs); try done.
  - eexists. split; [done|]. done.
  - simpl. by rewrite Hfaults.
Qed.

(** [/copy_file f.txt] then [/paste_file g.txt] in the example world. *)
Lemma copy_then_paste_witness :
  let w1 := (handle_copy_file [u "f.txt"] example_base example_world).2 in
  ∃ w2, handle_paste_file [u "g.txt"] example_base w1 = (Ok tt, w2)
    ∧ files w2 = <[ [u "conv"; u "g.txt"] := File (u "a
b
c
")]> (files example_world).
Proof.
  apply (copy_then_paste example_base example_world (u "f.txt") (u "g.txt") [] []
           (Path true [u "conv"; u "f.txt"]) (Path true [u "conv"; u "g.txt"])
           [u "conv"] (u "g.txt") (u "a
b
c
")).
  - by vm_compute.
  - by vm_compute.
  - done.
  - by vm_compute.
  - by vm_compute.
  - split; [example_sited|]. by split; vm_compute.
  - apply (bool_decide_unpack _). by vm_compute.
  - reflexivity.
Defined.

(** ** What the sandbox accepts, and a write it does not see *)

Lemma normalize_from_app a b : ∀ cur,
  normalize_from cur (a ++ b) = normalize_from (normalize_from cur a) b.
Proof.
  induction a as [|c a IH]; intros cur; simpl; [done|].
  destruct (decide (c = DOTDOT)); apply IH.
Qed.

Lemma lstrip_chars_head cs s c :
  head (lstrip_chars cs s) = Some c → c ∉ cs.
Proof.
  unfold lstrip_chars. induction s as [|x s IH]; simpl; [done|].
  destruct (mem_char cs x) eqn:E; [done|]. simpl. intros [= <-].
  unfold mem_char in E. by apply bool_decide_eq_false in E.
Qed.

Lemma startswith_slash_head s :
  startswith [SLASH] s = true ↔ head s = Some SLASH.
Proof.
  destruct s as [|c s]; [done|].
  change (startswith [SLASH] (c :: s)) with ((SLASH =? c)%N && true).
  change (head (c :: s)) with (Some c).
  destruct (N.eqb_spec SLASH c) as [Heq|Hne]; [by rewrite <- Heq|].
  split; [done|]. intros [= Hc]. by rewrite Hc in Hne.
Qed.

Lemma sandbox_relative_not_anchored raw :
  anchored (parse_path (sandbox_relative raw)) = false.
Proof.
  unfold sandbox_relative, parse_path. cbn zeta. cbn [anchored].
  set (p := str_replace _ _ _).
  destruct (startswith [SLASH] p) eqn:E; cbn [negb]; [|done].
  apply not_true_is_false. intros H%startswith_slash_head.
  apply lstrip_chars_head in H. apply H. by left.
Qed.

Lemma sandbox_candidate_parts base raw :
  sandbox_candidate base raw
  = Path (anchored base) (parts base ++ parts (parse_path (sandbox_relative raw))).
Proof.
  pose proof (sandbox_relative_not_anchored raw) as Hrel.
  unfold sandbox_candidate, sandbox_relative in *. cbn zeta in *.
  set (p := str_replace _ _ _) in *.
  destruct (startswith [SLASH] p); cbn [negb] in *; unfold joinpath; by rewrite Hrel.
Qed.

Lemma fs_encodable_app a b : fs_encodable (a ++ b) = fs_encodable a && fs_encodable b.
Proof. unfold fs_encodable. apply forallb_app. Qed.

Lemma abs_parts_candidate w base extra :
  abs_parts w (Path (anchored base) (parts base ++ extra)) = abs_parts w base ++ extra.
Proof. unfold abs_parts. simpl. destruct (anchored base); [done|]. by rewrite app_assoc. Qed.

(** Whatever the base directory and the world, an input none of whose
    components is a double dot, absolute or not, is accepted when the file
    system can encode the base directory and the components of the input (no
    null character, no surrogate it cannot encode), and the path returned
    resolves to the resolved base directory followed by the components of
    the input; when it cannot encode a component the input is refused. *)
Theorem safe_target_accepts_without_dotdot (base : PurePath) (raw : pystr) (w : world) :
  DOTDOT ∉ parts (parse_path (sandbox_relative raw)) →
  (fs_encodable (abs_parts w base) = true →
   fs_encodable (parts (parse_path (sandbox_relative raw))) = true →
   ∃ c, _safe_target base raw w = (Ok c, w)
     ∧ resolve w c
       = Path true (parts (resolve w base) ++ parts (parse_path (sandbox_relative raw))))
  ∧ (fs_encodable (parts (parse_path (sandbox_relative raw))) = false →
     _safe_target base raw w = (Raise (PermissionError raw), w)).
Proof.
  intros Hdd. rewrite safe_target_spec. cbn zeta.
  rewrite sandbox_candidate_parts.
  set (extra := parts (parse_path (sandbox_relative raw))) in *.
  set (cand := Path (anchored base) (parts base ++ extra)).
  assert (fs_encodable (abs_parts w cand)
          = fs_encodable (abs_parts w base) && fs_encodable extra) as Henc.
  { unfold cand. by rewrite abs_parts_candidate, fs_encodable_app. }
  split.
  - intros Hb He.
    assert (resolve w cand = Path true (parts (resolve w base) ++ extra)) as Hres.
    { unfold resolve, cand. rewrite abs_parts_candidate. unfold abs_parts.
      destruct (anchored base); simpl; f_equal.
      all: by rewrite normalize_from_app, normalize_from_id. }
    assert (path_in_sandbox w cand base = true) as ->.
    { unfold path_in_sandbox. rewrite Henc, Hb, He, Hres. unfold is_relative_to. simpl.
      apply bool_decide_eq_true_2. by apply prefix_app_r. }
    eexists. split; [done|].
    destruct (path_exists w cand); [by rewrite resolve_idempotent|done].
  - intros He.
    assert (path_in_sandbox w cand base = false) as ->; [|done].
    unfold path_in_sandbox. by rewrite Henc, He, andb_false_r.
Qed.

(** The absolute input [/etc/passwd], in quotes, ends below the base. *)
Lemma safe_target_accepts_without_dotdot_witness :
  ∃ c, _safe_target example_base (u "'/etc/passwd'") example_world
       = (Ok c, example_world)
    ∧ resolve example_world c = Path true [u "conv"; u "etc"; u "passwd"].
Proof.
  apply (proj1 (safe_target_accepts_without_dotdot example_base (u "'/etc/passwd'")
                  example_world
                  ltac:(apply (proj1 (bool_decide_eq_false _)); by vm_compute))).
  - by vm_compute.
  - by vm_compute.
Defined.

(** *** The temporary file of a write to a directory *)

(** Copying a directory fails before anything is written. *)
Lemma shutil_copy_dir src dst w ks :
  locate w src = inr ks → node_at (files w) ks = Some Dir →
  shutil_copy src dst w = (Raise (OSError EISDIR), pop_fault w).
Proof.
  intros Hs Hn. unfold shutil_copy.
  rewrite bind_unfold, io_fault_step, bind_get_world.
  assert (locate (pop_fault w) src = locate w src) as -> by done.
  assert (stat (pop_fault w) src = stat w src) as -> by done.
  unfold stat. by rewrite Hs, Hn.
Qed.

(** No backup of a directory is made. *)
Lemma make_timestamped_backup_dir target w d l :
  sited (files w) (cwd w) target d l → files w !! (d ++ [l]) = Some Dir →
  SLASH ∉ now w →
  make_timestamped_backup target w = (Ok None, pop_fault w).
Proof.
  intros Hs HK Hnow.
  destruct (with_name_sited _ _ _ _ _ (now w) Hs Hnow) as (b & Hb & Hsb).
  unfold make_timestamped_backup.
  rewrite bind_get_world. rewrite (path_exists_sited _ _ _ _ _ Hs HK). cbn [negb].
  unfold lift. rewrite bind_unfold, Hb.
  erewrite (try_except_raise _ _ _ _ _
              (bind_raise _ _ _ _ _ (shutil_copy_dir target b w (d ++ [l]) _ _))).
  - done.
  Unshelve.
  + by eapply sited_locate.
  + by rewrite node_at_lookup by apply snoc_ne_nil.
Qed.

(** Renaming a regular file onto a directory fails. *)
Lemma path_replace_onto_dir src dst w ks kd c :
  locate w src = inr ks → locate w dst = inr kd →
  ks ≠ [] → kd ≠ [] → ks ≠ kd →
  files w !! ks = Some (File c) → files w !! kd = Some Dir →
  path_replace src dst w = (Raise (OSError EISDIR), pop_fault w).
Proof.
  intros Hs Hd Hks Hkd Hne Hc Hn. unfold path_replace.
  rewrite bind_unfold, io_fault_step, bind_get_world.
  assert (locate (pop_fault w) src = locate w src) as -> by done.
  assert (locate (pop_fault w) dst = locate w dst) as -> by done.
  change (files (pop_fault w)) with (files w).
  rewrite Hs, Hd, !node_at_lookup, Hc, Hn by done.
  rewrite decide_False by done. rewrite decide_False by (intros [?|?]; done).
  done.
Qed.

Lemma walk_dirs_no_dotdot fs comps : ∀ cur d,
  DOTDOT ∉ cur → walk_dirs fs cur comps = inr d → DOTDOT ∉ d.
Proof.
  induction comps as [|c comps IH]; intros cur d Hcur; simpl.
  - by intros [= <-].
  - destruct (decide (c = DOTDOT)) as [->|Hc].
    + apply IH. intros H. apply Hcur.
      destruct cur as [|a cur] using rev_ind; [done|].
      rewrite removelast_last in H. apply elem_of_app. by left.
    + destruct (fs !! (cur ++ [c])) as [[|]|]; try done.
      apply IH. intros [H|H%list_elem_of_singleton]%elem_of_app; done.
Qed.

Section SetOnDirectory.
Context `{UD : UnicodeData}.

(** [/set] with content on a path that is a directory: no backup is made,
    the content is written to the temporary sibling of the directory, the
    rename fails, and the temporary file stays.  When the directory is the
    base directory itself, which [_safe_target] accepts, that file lies
    outside the sandbox. *)
Theorem set_on_directory_leaves_temp_file (base : PurePath) (w : world) (raw : pystr)
    (rest : list pystr) (target : PurePath) (d : list (list N)) (l : pystr) :
  let new := sanitize (content_of_args rest) in
  let kt := d ++ [l ++ u ".tmp"] in
  raw ≠ u "line" → new ≠ [] → has_surrogate new = false →
  _safe_target base raw w = (Ok target, w) →
  sited (files w) (cwd w) target d l → files w !! (d ++ [l]) = Some Dir →
  files w !! kt = None → SLASH ∉ now w → faults w = [] →
  ∃ w', handle_set (raw :: rest) base w = (Ok tt, w')
    ∧ new_events w w' = [EvWrite kt new]
    ∧ files w' = <[kt := File new]> (files w)
    ∧ (resolve w base = Path true (d ++ [l]) →
       path_in_sandbox w' (Path true kt) base = false).
Proof.
  intros new kt Hline Hne Hsur Hsafe Hs HK Hkt Hnow Hfaults.
  destruct (tmp_name_ne l) as (Ht1 & Ht2 & Ht3).
  destruct (with_suffix_sited _ _ _ _ _ Hs) as (tmp & Htmp & Hst).
  (* the write step *)
  assert (atomic_write target new (step_world w (files w) [] 2)
          = (Raise (OSError EISDIR),
             step_world w (<[kt := File new]> (files w)) [EvWrite kt new] 5)) as Haw.
  { unfold atomic_write.
    rewrite (bind_ok _ _ _ _ _ (ensure_parent_dir_sited target d l
                                   (step_world w (files w) [] 2) Hs)).
    cbn [negb ATOMIC_WRITE]. unfold lift at 1. rewrite bind_unfold, Htmp.
    rewrite pop_fault_step.
    assert (write_text tmp new (step_world w (files w) [] (2 + 1))
            = (Ok tt, step_world w (<[kt := File new]> (files w)) [EvWrite kt new] 4))
      as Hw.
    { erewrite (write_text_ok tmp new _ kt (l ++ u ".tmp")); try done.
      - by rewrite step_world_step.
      - by apply no_faults_at.
      - by eapply sited_locate.
      - by eapply sited_last.
      - rewrite node_at_lookup by apply snoc_ne_nil. cbn [step_world files].
        fold kt. by rewrite Hkt. }
    rewrite (bind_ok _ _ _ _ _ Hw).
    assert (fs_ext (files w) (<[kt := File new]> (files w))) as Hext.
    { apply fs_ext_insert_file. fold kt. by rewrite Hkt. }
    erewrite (path_replace_onto_dir tmp target _ kt (d ++ [l]) new).
    - by rewrite pop_fault_step.
    - eapply sited_locate; [done..|]. by eapply sited_ext.
    - eapply sited_locate; [done..|]. by eapply sited_ext.
    - apply snoc_ne_nil.
    - apply snoc_ne_nil.
    - by apply snoc_ne.
    - apply lookup_insert_eq.
    - cbn [step_world files]. rewrite lookup_insert_ne by (by apply snoc_ne). done. }
  exists (step_world w (<[kt := File new]> (files w)) [EvWrite kt new] 5).
  split; [|split; [by rewrite new_events_step|split; [done|]]].
  - unfold handle_set. rewrite bool_decide_eq_false_2 by done.
    rewrite (bind_ok _ _ _ _ _ Hsafe).
    rewrite (bind_ok _ _ _ _ _ (ensure_parent_dir_sited _ _ _ _ Hs)).
    rewrite bind_get_world.
    assert (path_exists (pop_fault w) target = true) as ->.
    { by eapply (path_exists_sited _ _ d l). }
    rewrite (bind_ok _ _ _ _ _ (make_timestamped_backup_dir target (pop_fault w) d l
                                   Hs HK Hnow)).
    rewrite bind_get_world. fold new.
    rewrite bool_decide_eq_false_2 by done. cbn [andb].
    assert (pop_fault (pop_fault w) = step_world w (files w) [] 2) as ->.
    { unfold pop_fault. by rewrite step_world_step. }
    by rewrite (try_except_raise _ _ _ _ _ (bind_raise _ _ _ _ _ Haw)).
  - intros Hbase. unfold path_in_sandbox.
    assert (resolve (step_world w (<[kt := File new]> (files w)) [EvWrite kt new] 5) base
            = resolve w base) as -> by done.
    rewrite Hbase. unfold resolve, abs_parts, is_relative_to. cbn [anchored parts].
    assert (DOTDOT ∉ kt) as Hdd.
    { destruct Hs as (ps & _ & _ & _ & _ & Hwalk).
      apply walk_dirs_no_dotdot in Hwalk; [|by intros ?%elem_of_nil].
      intros [H|H%list_elem_of_singleton]%elem_of_app; done. }
    rewrite (normalize_from_id _ []) by done. rewrite app_nil_l.
    apply andb_false_intro2.
    apply bool_decide_eq_false_2. intros [k Hk]. unfold kt in Hk.
    assert (k = []) as ->.
    { apply (f_equal length) in Hk. rewrite !length_app in Hk. simpl in Hk.
      destruct k; [done|]. simpl in Hk. lia. }
    rewrite app_nil_r in Hk. apply app_inv_head in Hk. injection Hk as Hk.
    by apply Ht3.
Qed.

End SetOnDirectory.

(** [/set . x] in the example world writes [/conv.tmp]. *)
Lemma set_on_directory_leaves_temp_file_witness :
  ∃ w', handle_set (UD := ascii_tables) [u "."; u "x"] example_base example_world
        = (Ok tt, w')
    ∧ new_events example_world w' = [EvWrite [u "conv.tmp"] (u "x")]
    ∧ files w' = <[ [u "conv.tmp"] := File (u "x")]> (files example_world)
    ∧ path_in_sandbox w' (Path true [u "conv.tmp"]) example_base = false.
Proof.
  destruct (set_on_directory_leaves_temp_file (UD := ascii_tables) example_base
              example_world (u ".") [u "x"] (Path true [u "conv"]) [] (u "conv"))
    as (w' & Hrun & Hev & Hfiles & Hout).
  - by vm_compute.
  - by vm_compute.
  - by vm_compute.
  - by vm_compute.
  - exists []. repeat split; try (by vm_compute). example_no_slash.
  - by vm_compute.
  - by vm_compute.
  - example_no_slash.
  - reflexivity.
  - exists w'. split; [exact Hrun|]. split; [exact Hev|]. split; [exact Hfiles|].
    apply Hout. by vm_compute.
Defined.

(** ** A message that changes is processed again from its start *)

Section ReprocessingFacts.
Context `{UD : UnicodeData}.
Context {Msg : Type} (extract : Msg → pystr * pystr).
Context (sha : pystr → list N) (registry : list pystr).

Local Abbreviation step := (process_message extract sha registry).
Local Abbreviation run := (process_messages extract sha registry).
Local Abbreviation tasks_of := (process_assistant_message_text registry).
Local Abbreviation process := (process_updates_for_file extract sha registry).

Lemma process_messages_app base a b : ∀ idx acc,
  run base idx (a ++ b) acc = run base (idx + length a) b (run base idx a acc).
Proof.
  induction a as [|m a IH]; intros idx acc; cbn [process_messages app length].
  - by rewrite Nat.add_0_r.
  - rewrite IH. f_equal. lia.
Qed.

Lemma process_messages_upper_key base msgs : ∀ idx acc j,
  idx + length msgs ≤ j → (run base idx msgs acc).1.1 !! pretty j = acc.1.1 !! pretty j.
Proof.
  induction msgs as [|msg msgs IH]; intros idx [[hs upd] q] j Hj;
    cbn [process_messages]; [done|].
  simpl in Hj. rewrite IH by lia. apply process_message_other_key. lia.
Qed.

Lemma fingerprints_recorded_app_l hs idx a b :
  fingerprints_recorded extract sha hs idx (a ++ b) →
  fingerprints_recorded extract sha hs idx a.
Proof. intros H k m Hk. apply H. by apply lookup_app_l_Some. Qed.

(** The second run, from the digests [hs] the first run left for the
    messages before the changed one. *)
Lemma process_messages_changed_last base pre m2 hs q other :
  (extract m2).1 ∈ ASSISTANT_ROLES →
  run base 0 pre (hs, false, q) = (hs, false, q) →
  hs !! pretty (length pre) = other → other ≠ Some (sha (extract m2).2) →
  (run base 0 (pre ++ [m2]) (hs, false, q)).2 = q ++ tasks_of (extract m2).2 base
  ∧ (run base 0 (pre ++ [m2]) (hs, false, q)).1.2 = true.
Proof.
  intros Hrole Hpre Hother Hne.
  rewrite process_messages_app, Hpre. cbn [process_messages Nat.add].
  rewrite process_message_spec. cbn zeta.
  rewrite bool_decide_eq_true_2 by done.
  rewrite bool_decide_eq_false_2 by (by rewrite Hother). done.
Qed.

(** When the last message of a conversation changes (its digest differs
    from the one of the text processed before) and it has an assistant-like
    role, the next run puts every command of the new text on the queue, after
    all that was queued before: the commands the old text shared with the new
    one are queued a second time. *)
Theorem changed_message_enqueued_again (key : list (list N)) (pre : list Msg)
    (m1 m2 : Msg) (base : PurePath) (mtime mtime' : N) (s : pstate) :
  (extract m2).1 ∈ ASSISTANT_ROLES →
  sha (extract m1).2 ≠ sha (extract m2).2 →
  let s1 := process key (Some (pre ++ [m1])) base mtime s in
  queue (process key (Some (pre ++ [m2])) base mtime' s1)
  = queue s1 ++ tasks_of (extract m2).2 base.
Proof.
  intros Hrole Hsha s1.
  set (hs := match state s !! key with Some e => hashes e | None => ∅ end).
  pose proof (process_messages_records extract sha registry base (pre ++ [m1]) 0
                (hs, false, queue s)) as Hrec.
  destruct (process_messages_queue extract sha registry base (pre ++ [m1]) 0 hs false
              (queue s)) as (hs1 & b & ts & E & Hts).
  rewrite E in Hrec. simpl in Hrec, E.
  assert (run base 0 pre (hs1, false, queue s ++ ts) = (hs1, false, queue s ++ ts))
    as Hpre1.
  { apply process_messages_recorded. by eapply fingerprints_recorded_app_l. }
  assert (hs1 !! pretty (length pre) = Some (sha (extract m1).2)) as Hlast.
  { apply (Hrec (length pre) m1). by rewrite lookup_app_r, Nat.sub_diag by lia. }
  assert (∀ st sv, state st !! key = Some (Entry hs1 sv) → queue st = queue s ++ ts →
            queue (process key (Some (pre ++ [m2])) base mtime' st)
            = queue st ++ tasks_of (extract m2).2 base) as Hstored.
  { intros st sv Hst Hq. unfold process_updates_for_file. rewrite Hst. cbn [hashes].
    rewrite Hq.
    destruct (process_messages_changed_last base pre m2 hs1 (queue s ++ ts) _
                Hrole Hpre1 Hlast) as [H2 H3]; [congruence|].
    destruct (run base 0 (pre ++ [m2]) (hs1, false, queue s ++ ts)) as [[hs2 u2] q2].
    simpl in H2, H3. subst u2 q2. done. }
  destruct b.
  - assert (s1 = PState (<[key := Entry hs1 mtime]> (state s))
                        (<[key := Entry hs1 mtime]> (state s)) (queue s ++ ts)) as ->.
    { unfold s1, process_updates_for_file. fold hs. by rewrite E. }
    apply (Hstored _ mtime); [apply lookup_insert_eq|done].
  - rewrite (Hts eq_refl), app_nil_r in *.
    destruct (state s !! key) as [e|] eqn:Ek.
    + assert (s1 = PState (<[key := Entry hs1 (last_mtime e)]> (state s)) (saved s)
                          (queue s)) as ->.
      { unfold s1, process_updates_for_file. rewrite Ek. fold hs. by rewrite E. }
      apply (Hstored _ (last_mtime e)); [apply lookup_insert_eq|done].
    + assert (s1 = PState (state s) (saved s) (queue s)) as ->.
      { unfold s1, process_updates_for_file. rewrite Ek. fold hs. by rewrite E. }
      unfold process_updates_for_file. cbn [state queue]. rewrite Ek. fold hs.
      (* the first run queued nothing, so neither did its pass over [pre] *)
      rewrite process_messages_app in E.
      destruct (process_messages_queue extract sha registry base pre 0 hs false
                  (queue s)) as (hsp & bp & tsp & Ep & Htsp).
      rewrite Ep in E. cbn [process_messages Nat.add orb] in E.
      rewrite process_message_spec in E. cbn zeta in E.
      assert (bp = false ∧ tsp = []) as [-> ->].
      { destruct bp; [|by rewrite Htsp].
        repeat case_bool_decide; by injection E. }
      rewrite app_nil_r in Ep.
      rewrite process_messages_app, Ep. cbn [process_messages Nat.add].
      rewrite process_message_spec. cbn zeta.
      rewrite bool_decide_eq_true_2 by done.
      assert (hsp !! pretty (length pre) = None) as Hnone.
      { pose proof (process_messages_upper_key base pre 0 (hs, false, queue s)
                      (length pre) ltac:(lia)) as Hu.
        rewrite Ep in Hu. simpl in Hu. rewrite Hu. unfold hs. apply lookup_empty. }
      rewrite bool_decide_eq_false_2 by (by rewrite Hnone). done.
Qed.

End ReprocessingFacts.

(** A streamed answer: first [/create_folder a], then the same text followed
    by [/create_folder b]; the second run queues both commands again. *)
Lemma changed_message_enqueued_again_witness :
  let m1 := (u "assistant", u "/create_folder a") in
  let m2 := (u "assistant", u "/create_folder a
/create_folder b") in
  let process := process_updates_for_file (UD := ascii_tables) id id [u "create_folder"]
                   [u "conv.json"] in
  let s1 := process (Some [m1]) example_base 0%N (PState ∅ ∅ []) in
  queue (process (Some [m2]) example_base 1%N s1)
  = [Task (u "create_folder") [u "a"] example_base;
     Task (u "create_folder") [u "a"] example_base;
     Task (u "create_folder") [u "b"] example_base].
Proof.
  intros m1 m2 process s1.
  unfold process, s1.
  rewrite (changed_message_enqueued_again (UD := ascii_tables) id id [u "create_folder"]
             [u "conv.json"] [] m1 m2 example_base 0%N 1%N (PState ∅ ∅ [])).
  - by vm_compute.
  - apply (bool_decide_unpack _). by vm_compute.
  - by vm_compute.
Defined.

(** ** What the whitelist of [/cmd] lets through *)

Lemma startswith_prefix p : ∀ s, startswith p s = true → s = p ++ drop (length p) s.
Proof.
  induction p as [|a p IH]; intros [|b s]; simpl; try done.
  intros [Hab Hp]%andb_prop. apply N.eqb_eq in Hab. subst b. f_equal. by apply IH.
Qed.

Lemma eat_Some lit s r : eat lit s = Some r → s = lit ++ r.
Proof.
  unfold eat. destruct (startswith lit s) eqn:E; [|done].
  intros [= <-]. by apply startswith_prefix.
Qed.

Lemma eat_opt_cases c s : s = eat_opt c s ∨ s = c :: eat_opt c s.
Proof.
  destruct s as [|x s]; [by left|]. simpl.
  destruct (N.eqb_spec x c) as [->|]; [by right|by left].
Qed.

Lemma takewhile_dropwhile f s : takewhile f s ++ dropwhile f s = s.
Proof. induction s as [|c s IH]; simpl; [done|]. destruct (f c); simpl; by f_equal. Qed.

Lemma takewhile_forallb f s : forallb f (takewhile f s) = true.
Proof. induction s as [|c s IH]; simpl; [done|]. destruct (f c) eqn:E; simpl; by rewrite ?E. Qed.

Lemma takewhile_drop f s : s = takewhile f s ++ drop (length (takewhile f s)) s.
Proof. induction s as [|c s IH]; simpl; [done|]. destruct (f c); simpl; by f_equal. Qed.

Lemma eat_spaces_Some s r :
  eat_spaces s = Some r →
  ∃ ws, s = ws ++ r ∧ ws ≠ [] ∧ forallb isspace ws = true.
Proof.
  destruct s as [|c s]; simpl; [done|]. destruct (isspace c) eqn:E; [|done].
  intros [= <-]. exists (c :: takewhile isspace s). unfold lstrip.
  split; [simpl; by rewrite takewhile_dropwhile|]. split; [done|].
  simpl. by rewrite E, takewhile_forallb.
Qed.

(** A property of the ASCII characters, checked on each of them. *)
Lemma below_128 (P : N → bool) :
  forallb P (N.of_nat <$> seq 0 128) = true → ∀ ch, (ch < 128)%N → P ch = true.
Proof.
  intros H ch Hch. rewrite forallb_forall in H. apply H.
  apply list_elem_of_In, list_elem_of_fmap. exists (N.to_nat ch).
  split; [by rewrite N2Nat.id|]. apply elem_of_seq. lia.
Qed.

Lemma spec_char_ascii ch : spec_char ch = true → (ch < 128)%N.
Proof.
  unfold spec_char, pkg_char, ver_char, ascii_alpha, ascii_digit, in_range.
  unfold UNDERSCORE, DOT, MINUS, PLUS.
  rewrite !orb_true_iff, !andb_true_iff, !N.leb_le, !N.eqb_eq. lia.
Qed.

(** The characters of a package specification are no whitespace. *)
Lemma spec_char_no_space ch : spec_char ch = true → isspace ch = false.
Proof.
  intros H. pose proof (spec_char_ascii ch H) as Hlt.
  pose proof (below_128 (λ c, implb (spec_char c) (negb (isspace c))) eq_refl ch Hlt) as Hc.
  simpl in Hc. rewrite H in Hc. simpl in Hc. by apply negb_true_iff.
Qed.

Lemma match_package_Some s :
  match_package s = true →
  ∃ spec tail, s = spec ++ tail ∧ spec ≠ [] ∧ forallb spec_char spec = true
               ∧ (tail = [] ∨ tail = [LF]).
Proof.
  unfold match_package. cbn zeta.
  pose proof (takewhile_drop pkg_char s) as Hs.
  pose proof (takewhile_forallb pkg_char s) as Hname.
  set (name := takewhile pkg_char s) in *.
  set (rest := drop (length name) s) in *.
  assert (forallb spec_char name = true) as Hname'.
  { rewrite forallb_forall in *. intros x Hx. unfold spec_char. by rewrite (Hname x Hx). }
  destruct name as [|n0 name']; [done|].
  intros [Hend|Hver]%orb_prop.
  - exists (n0 :: name'), rest. split; [done|]. split; [done|]. split; [done|].
    unfold at_end in Hend.
    apply orb_prop in Hend as [H%bool_decide_eq_true|H%bool_decide_eq_true]; auto.
  - destruct (eat [61; 61]%N rest) as [r|] eqn:Er; [|done].
    apply eat_Some in Er.
    pose proof (takewhile_drop ver_char r) as Hr.
    pose proof (takewhile_forallb ver_char r) as Hv.
    set (ver := takewhile ver_char r) in *.
    destruct ver as [|v0 ver']; [done|].
    exists ((n0 :: name') ++ [61; 61]%N ++ v0 :: ver'), (drop (length (v0 :: ver')) r).
    split; [|split; [done|split]].
    + rewrite Hs at 1. rewrite Er, Hr at 1. by rewrite <- !app_assoc.
    + rewrite !forallb_app, Hname'. cbn [andb].
      apply andb_true_intro. split; [done|].
      rewrite forallb_forall in *. intros x Hx. unfold spec_char.
      rewrite (Hv x Hx). by rewrite orb_true_r.
    + unfold at_end in Hver.
      apply orb_prop in Hver as [H%bool_decide_eq_true|H%bool_decide_eq_true]; auto.
Qed.

Lemma strip_last s ch : last (strip s) = Some ch → isspace ch = false.
Proof.
  unfold strip, rstrip, lstrip. rewrite last_reverse.
  set (t := reverse _). induction t as [|x t IH]; simpl; [done|].
  destruct (isspace x) eqn:E; [done|]. simpl. by intros [= <-].
Qed.

Lemma forallb_mono {A} (f g : A → bool) l :
  (∀ x, f x = true → g x = true) → forallb f l = true → forallb g l = true.
Proof. rewrite !forallb_forall. auto. Qed.

Lemma spec_char_cmd_char c : spec_char c = true → cmd_char c = true.
Proof.
  unfold spec_char, cmd_char.
  by destruct (isspace c), (pkg_char c), (ver_char c), (c =? 61)%N.
Qed.

Lemma isspace_cmd_char c : isspace c = true → cmd_char c = true.
Proof. unfold cmd_char. by intros ->. Qed.

(** A command line that [handle_cmd] passes on is [pip] or [pip3], or
    [python] or [python3] with [-m pip], then [install], whitespace, and one
    package specification that holds no whitespace; all its characters are
    whitespace, ASCII letters and digits, or one of [_ . - + = ( ) [ ]]. *)
Theorem cmd_whitelist_shape (args : list pystr) (c : pystr) :
  handle_cmd args = Some c →
  forallb cmd_char c = true
  ∧ ∃ pre ws spec,
      c = pre ++ u "install" ++ ws ++ spec
      ∧ cmd_head pre
      ∧ ws ≠ [] ∧ forallb isspace ws = true
      ∧ spec ≠ [] ∧ forallb spec_char spec = true
      ∧ forallb (λ ch, negb (isspace ch)) spec = true.
Proof.
  unfold handle_cmd. destruct args as [|a args]; [done|].
  set (cl := strip _). destruct (cmd_allowed cl) eqn:Hal; [|done].
  intros [= <-].
  assert (∀ pre rest, cl = pre ++ rest → match_package rest = true →
            ∃ spec, cl = pre ++ spec ∧ spec ≠ [] ∧ forallb spec_char spec = true)
    as Hpkg.
  { intros pre rest Hcl (spec & tail & -> & Hne & Hspec & [->| ->])%match_package_Some.
    - exists spec. by rewrite app_nil_r in Hcl.
    - exfalso. pose proof (strip_last (join [SPACE] (a :: args)) LF) as Hl.
      fold cl in Hl. rewrite Hcl, !app_assoc, last_snoc in Hl. by specialize (Hl eq_refl). }
  assert (∀ pre ws spec, cl = pre ++ u "install" ++ ws ++ spec →
            forallb cmd_char pre = true → cmd_head pre →
            ws ≠ [] → forallb isspace ws = true →
            spec ≠ [] → forallb spec_char spec = true →
            forallb cmd_char cl = true
            ∧ ∃ pre ws spec,
                cl = pre ++ u "install" ++ ws ++ spec
                ∧ cmd_head pre
                ∧ ws ≠ [] ∧ forallb isspace ws = true
                ∧ spec ≠ [] ∧ forallb spec_char spec = true
                ∧ forallb (λ ch, negb (isspace ch)) spec = true) as Hfin.
  { intros pre ws spec Hcl Hpre Hhead Hws1 Hws2 Hsp1 Hsp2. split.
    - rewrite Hcl, !forallb_app, Hpre.
      rewrite (forallb_mono _ _ _ isspace_cmd_char Hws2).
      by rewrite (forallb_mono _ _ _ spec_char_cmd_char Hsp2).
    - exists pre, ws, spec. repeat split; try done.
      eapply forallb_mono; [|exact Hsp2].
      intros x Hx. by rewrite (spec_char_no_space x Hx). }
  unfold cmd_allowed in Hal. apply orb_prop in Hal as [Hal|Hal].
  - unfold match_pip in Hal.
    destruct (eat (u "pip") cl) as [r0|] eqn:E0; [|done]. apply eat_Some in E0.
    destruct (eat_spaces (eat_opt 51 r0)) as [r1|] eqn:E1; [|done].
    apply eat_spaces_Some in E1 as (w1 & E1 & Hw1 & Hw1').
    destruct (eat (u "install") r1) as [r2|] eqn:E2; [|done]. apply eat_Some in E2.
    destruct (eat_spaces r2) as [r3|] eqn:E3; [|done].
    apply eat_spaces_Some in E3 as (ws & E3 & Hws & Hws').
    assert (∃ three, (three = [] ∨ three = [51%N]) ∧ r0 = three ++ w1 ++ r1)
      as (three & Hthree & Hr0).
    { destruct (eat_opt_cases 51 r0) as [H|H].
      - exists []. split; [by left|]. by rewrite H, E1.
      - exists [51%N]. split; [by right|]. rewrite H, E1. done. }
    destruct (Hpkg (u "pip" ++ three ++ w1 ++ u "install" ++ ws) r3)
      as (spec & Hcl & Hsp1 & Hsp2); [|done|].
    { rewrite E0, Hr0, E2, E3. by rewrite <- !app_assoc. }
    apply (Hfin (u "pip" ++ three ++ w1) ws spec).
    + rewrite Hcl. by rewrite <- !app_assoc.
    + rewrite !forallb_app. rewrite (forallb_mono _ _ _ isspace_cmd_char Hw1').
      destruct Hthree as [-> | ->]; done.
    + exists three, w1. repeat split; try done. by left.
    + done.
    + done.
    + done.
    + done.
  - unfold match_python_pip in Hal.
    destruct (eat (u "python") cl) as [r0|] eqn:E0; [|done]. apply eat_Some in E0.
    destruct (eat_spaces (eat_opt 51 r0)) as [r1|] eqn:E1; [|done].
    apply eat_spaces_Some in E1 as (w1 & E1 & Hw1 & Hw1').
    destruct (eat (u "-m") r1) as [r2|] eqn:E2; [|done]. apply eat_Some in E2.
    destruct (eat_spaces r2) as [r3|] eqn:E3; [|done].
    apply eat_spaces_Some in E3 as (w2 & E3 & Hw2 & Hw2').
    destruct (eat (u "pip") r3) as [r4|] eqn:E4; [|done]. apply eat_Some in E4.
    destruct (eat_spaces r4) as [r5|] eqn:E5; [|done].
    apply eat_spaces_Some in E5 as (w3 & E5 & Hw3 & Hw3').
    destruct (eat (u "install") r5) as [r6|] eqn:E6; [|done]. apply eat_Some in E6.
    destruct (eat_spaces r6) as [r7|] eqn:E7; [|done].
    apply eat_spaces_Some in E7 as (ws & E7 & Hws & Hws').
    assert (∃ three, (three = [] ∨ three = [51%N]) ∧ r0 = three ++ w1 ++ r1)
      as (three & Hthree & Hr0).
    { destruct (eat_opt_cases 51 r0) as [H|H].
      - exists []. split; [by left|]. by rewrite H, E1.
      - exists [51%N]. split; [by right|]. rewrite H, E1. done. }
    set (pre := u "python" ++ three ++ w1 ++ u "-m" ++ w2 ++ u "pip" ++ w3).
    destruct (Hpkg (pre ++ u "install" ++ ws) r7) as (spec & Hcl & Hsp1 & Hsp2); [|done|].
    { rewrite E0, Hr0, E2, E3, E4, E5, E6, E7. unfold pre. by rewrite <- !app_assoc. }
    apply (Hfin pre ws spec).
    + rewrite Hcl. by rewrite <- !app_assoc.
    + unfold pre. rewrite !forallb_app.
      rewrite (forallb_mono _ _ _ isspace_cmd_char Hw1').
      rewrite (forallb_mono _ _ _ isspace_cmd_char Hw2').
      rewrite (forallb_mono _ _ _ isspace_cmd_char Hw3').
      destruct Hthree as [-> | ->]; done.
    + exists three, w1. repeat split; try done. right. by exists w2, w3.
    + done.
    + done.
    + done.
    + done.
Qed.

(** The arguments [pip3], [install], [requests==2.31.0]. *)
Lemma cmd_whitelist_shape_witness :
  handle_cmd [u "pip3"; u "install"; u "requests==2.31.0"]
  = Some (u "pip3 install requests==2.31.0")
  ∧ forallb cmd_char (u "pip3 install requests==2.31.0") = true.
Proof.
  split; [by vm_compute|].
  apply (cmd_whitelist_shape [u "pip3"; u "install"; u "requests==2.31.0"]).
  by vm_compute.
Defined.

(** ** Plugins cannot replace a command *)

Section PluginFacts.
Context {H : Type}.
Implicit Types (hs : gmap (list N) H).

Lemma register_items_keeps items : ∀ hs k h,
  hs !! k = Some h → register_items items hs !! k = Some h.
Proof.
  unfold register_items.
  induction items as [|[k' v] items IH]; intros hs k h Hk; simpl; [done|].
  apply IH. destruct v as [h'|]; [|done].
  case_bool_decide as Hin; [done|].
  rewrite lookup_insert_ne; [done|]. intros ->. apply Hin. by eexists.
Qed.

Lemma load_plugins_keeps plugins : ∀ hs k h,
  hs !! k = Some h → load_plugins plugins hs !! k = Some h.
Proof.
  unfold load_plugins.
  induction plugins as [|p plugins IH]; intros hs k h Hk; simpl; [done|].
  apply IH. destruct p as [items|]; [|done]. by apply register_items_keeps.
Qed.

Lemma register_items_registers items : ∀ hs k h,
  (k, Some h) ∈ items → is_Some (register_items items hs !! k).
Proof.
  unfold register_items.
  induction items as [|[k' v] items IH]; intros hs k h Hin; [by apply elem_of_nil in Hin|].
  apply elem_of_cons in Hin as [[= <- <-]|Hin]; [|by eapply IH].
  simpl. case_bool_decide as Hk.
  - destruct Hk as [h0 Hk]. exists h0. by apply (register_items_keeps items).
  - exists h. apply (register_items_keeps items). apply lookup_insert_eq.
Qed.

(** Loading plugins never replaces a handler: a command that is registered,
    built in or by a plugin loaded earlier, keeps its handler whatever the
    plugins loaded afterwards register; and every name a plugin registers
    with a callable is a command afterwards. *)
Theorem load_plugins_never_replaces
    (before after : list (option (list (pystr * option H))))
    (hs : gmap (list N) H) (k : pystr) :
  (∀ h, load_plugins before hs !! k = Some h →
        load_plugins (before ++ after) hs !! k = Some h)
  ∧ (∀ items h, Some items ∈ before → (k, Some h) ∈ items →
        is_Some (load_plugins (before ++ after) hs !! k)).
Proof.
  assert (∀ a b hs', load_plugins (a ++ b) hs' = load_plugins b (load_plugins a hs'))
    as Happ.
  { intros a b hs'. unfold load_plugins. apply foldl_app. }
  split.
  - intros h Hk. rewrite Happ. by apply load_plugins_keeps.
  - intros items h Hin Hk.
    apply list_elem_of_split in Hin as (l1 & l2 & ->).
    rewrite <- app_assoc, Happ. cbn [app].
    change (load_plugins (Some items :: l2 ++ after) ?x)
      with (load_plugins (l2 ++ after) (register_items items x)).
    destruct (register_items_registers items (load_plugins l1 hs) k h Hk) as [h0 Hh0].
    exists h0. by apply load_plugins_keeps.
Qed.

End PluginFacts.

(** A plugin that registers [set] and [say_hello] next to the built-in
    [set]. *)
Lemma load_plugins_never_replaces_witness :
  let hs : gmap (list N) nat := {[ u "set" := 0 ]} in
  let plugin := Some [(u "set", Some 1); (u "say_hello", Some 2)] in
  load_plugins ([] ++ [plugin]) hs !! u "set" = Some 0.
Proof.
  intros hs plugin.
  apply (proj1 (load_plugins_never_replaces [] [plugin] hs (u "set"))).
  by vm_compute.
Defined.

(** ** Renaming a directory *)

Section RenameTree.
Context (src dst : list (list N)) (fs : gmap (list (list N)) node).

Local Abbreviation inside := (filter (λ kv : list (list N) * node, src `prefix_of` kv.1) fs).
Local Abbreviation moved :=
  ((λ kv : list (list N) * node, (dst ++ drop (length src) kv.1, kv.2))
     <$> map_to_list inside).

Lemma inside_lookup k : inside !! k = if decide (src `prefix_of` k) then fs !! k else None.
Proof.
  destruct (decide (src `prefix_of` k)) as [Hp|Hp].
  - destruct (fs !! k) as [n|] eqn:E.
    + by apply map_lookup_filter_Some.
    + apply map_lookup_filter_None. by left.
  - apply map_lookup_filter_None. right. intros n _. done.
Qed.

Lemma moved_elem k n :
  (k, n) ∈ moved ↔ ∃ rest, k = dst ++ rest ∧ fs !! (src ++ rest) = Some n.
Proof.
  rewrite list_elem_of_fmap. split.
  - intros ([k0 n0] & [= -> ->] & Hin). apply elem_of_map_to_list in Hin.
    rewrite inside_lookup in Hin. simpl.
    destruct (decide (src `prefix_of` k0)) as [[rest ->]|]; [|done].
    exists rest. by rewrite drop_app_length.
  - intros (rest & -> & Hn). exists (src ++ rest, n). simpl.
    rewrite drop_app_length. split; [done|]. apply elem_of_map_to_list.
    rewrite inside_lookup. rewrite decide_True by (by eexists). done.
Qed.

Lemma moved_NoDup : NoDup moved.*1.
Proof.
  rewrite <- list_fmap_compose.
  apply NoDup_fmap_2_strong; [|apply NoDup_map_to_list].
  intros [k1 n1] [k2 n2] H1 H2. simpl. intros Heq%app_inv_head.
  apply elem_of_map_to_list in H1, H2. rewrite inside_lookup in H1, H2.
  destruct (decide (src `prefix_of` k1)) as [[r1 ->]|]; [|done].
  destruct (decide (src `prefix_of` k2)) as [[r2 ->]|]; [|done].
  rewrite !drop_app_length in Heq. subst r2. congruence.
Qed.

Lemma moved_lookup k :
  (list_to_map moved : gmap _ _) !! k
  = match decide (dst `prefix_of` k) with
    | left _ => fs !! (src ++ drop (length dst) k)
    | right _ => None
    end.
Proof.
  destruct (decide (dst `prefix_of` k)) as [[rest ->]|Hp].
  - rewrite drop_app_length. destruct (fs !! (src ++ rest)) as [n|] eqn:E.
    + apply elem_of_list_to_map_1; [apply moved_NoDup|].
      apply moved_elem. by exists rest.
    + apply not_elem_of_list_to_map_1. intros ([k n] & Hk & Hin)%list_elem_of_fmap.
      simpl in Hk. subst k. apply moved_elem in Hin as (r & ->%app_inv_head & Hn).
      congruence.
  - apply not_elem_of_list_to_map_1. intros ([k0 n] & Hk & Hin)%list_elem_of_fmap.
    simpl in Hk. subst k0. apply moved_elem in Hin as (r & -> & _).
    apply Hp. by eexists.
Qed.

(** What was below [src] is below [dst], at the same place. *)
Lemma rename_tree_moved rest :
  rename_tree src dst fs !! (dst ++ rest) = fs !! (src ++ rest).
Proof.
  unfold rename_tree. cbn zeta.
  destruct (fs !! (src ++ rest)) as [n|] eqn:E.
  - apply lookup_union_Some_l. rewrite moved_lookup.
    rewrite decide_True by (by eexists). by rewrite drop_app_length.
  - apply lookup_union_None. split.
    + rewrite moved_lookup. rewrite decide_True by (by eexists).
      by rewrite drop_app_length.
    + apply map_lookup_filter_None. right. intros n _ [_ H]. apply H. by eexists.
Qed.

(** Nothing is left below [src]. *)
Lemma rename_tree_src_gone k :
  src `prefix_of` k → ¬ dst `prefix_of` k → rename_tree src dst fs !! k = None.
Proof.
  intros Hs Hd. unfold rename_tree. cbn zeta. apply lookup_union_None. split.
  - rewrite moved_lookup. by rewrite decide_False.
  - apply map_lookup_filter_None. right. intros n _ [H _]. done.
Qed.

(** Everything else stays. *)
Lemma rename_tree_other k :
  ¬ src `prefix_of` k → ¬ dst `prefix_of` k → rename_tree src dst fs !! k = fs !! k.
Proof.
  intros Hs Hd. unfold rename_tree. cbn zeta.
  rewrite lookup_union_r by (rewrite moved_lookup; by rewrite decide_False).
  destruct (fs !! k) as [n|] eqn:E.
  - by apply map_lookup_filter_Some.
  - apply map_lookup_filter_None. by left.
Qed.

End RenameTree.

(** Renaming a directory to a path that does not exist and is not below
    it. *)
Lemma path_replace_dir_ok src dst w ks kd :
  fault_at w 0 = None → locate w src = inr ks → locate w dst = inr kd →
  ks ≠ [] → kd ≠ [] → ¬ ks `prefix_of` kd →
  files w !! ks = Some Dir → files w !! kd = None →
  path_replace src dst w
  = (Ok tt, step_world w (rename_tree ks kd (files w)) [EvRename ks kd] 1).
Proof.
  intros Hf Hs Hd Hks Hkd Hpre Hc Hn. unfold path_replace.
  rewrite bind_unfold, io_fault_step, Hf, bind_get_world.
  assert (locate (pop_fault w) src = locate w src) as -> by done.
  assert (locate (pop_fault w) dst = locate w dst) as -> by done.
  change (files (pop_fault w)) with (files w).
  rewrite Hs, Hd, !node_at_lookup, Hc, Hn by done.
  rewrite decide_False by (intros ->; by apply Hpre).
  rewrite decide_False by (intros [?|?]; done).
  unfold under. rewrite bool_decide_eq_false_2 by done.
  unfold failed. rewrite bool_decide_eq_false_2 by (by intros [? ?]).
  unfold pop_fault. rewrite emit_step. simpl apply_event. by rewrite Hc.
Qed.

(** ** A conversation that gets its name *)

Lemma joinpath_plain root n :
  plain_name n → joinpath (Path true root) n = Path true (root ++ [n]).
Proof.
  intros (H1 & H2 & H3 & _). unfold joinpath. by rewrite parse_path_component.
Qed.

Lemma sited_child w root n :
  walk_dirs (files w) [] root = inr root → plain_name n →
  sited (files w) (cwd w) (Path true (root ++ [n])) root n.
Proof.
  intros Hwalk (H1 & H2 & H3 & H4). exists root. by repeat split.
Qed.

Lemma sibling_not_prefix {A} (root : list A) a b rest :
  a ≠ b → ¬ (root ++ [a]) `prefix_of` (root ++ b :: rest).
Proof.
  intros Hab [k Hk]. rewrite <- app_assoc in Hk. apply app_inv_head in Hk.
  simpl in Hk. by injection Hk as -> _.
Qed.

Section ConversationFacts.
Context `{UD : UnicodeData}.

(** A conversation first seen under its temporary name has its directory
    below the working directory; when it then has a name that is not
    temporary and no directory of that name exists, the directory is renamed:
    the function returns the directory of the new name, every entry that was
    below the old directory is below the new one at the same place, nothing
    is left under the old name, and everything else is as before. *)
Theorem conversation_dir_renamed (conv_path : PurePath) (conv_name : pystr) (w : world) :
  let root := cwd w in
  let Kt := root ++ [path_stem conv_path] in
  let Kf := root ++ [conv_name] in
  plain_name (path_stem conv_path) → plain_name conv_name →
  path_stem conv_path ≠ conv_name →
  is_temp_conversation_name conv_name = false →
  walk_dirs (files w) [] root = inr root →
  files w !! Kt = Some Dir → files w !! Kf = None →
  fault_at w 0 = None →
  ∃ w', get_or_create_conversation_dir conv_path conv_name w = (Ok (Path true Kf), w')
    ∧ new_events w w' = [EvRename Kt Kf]
    ∧ (∀ rest, files w' !! (Kf ++ rest) = files w !! (Kt ++ rest))
    ∧ (∀ rest, files w' !! (Kt ++ rest) = None)
    ∧ (∀ k, ¬ Kt `prefix_of` k → ¬ Kf `prefix_of` k → files w' !! k = files w !! k).
Proof.
  intros root Kt Kf Ht Hn Hne Htemp Hwalk HKt HKf Hf.
  pose proof (sited_child w root _ Hwalk Ht) as Hst.
  pose proof (sited_child w root _ Hwalk Hn) as Hsf.
  exists (step_world w (rename_tree Kt Kf (files w)) [EvRename Kt Kf] 1).
  split; [|split; [by rewrite new_events_step|]].
  - unfold get_or_create_conversation_dir. rewrite bind_get_world.
    rewrite !joinpath_plain by done. fold root Kt Kf.
    rewrite (path_exists_sited_false w (Path true Kf) root conv_name Hsf HKf).
    rewrite (path_exists_sited w (Path true Kt) root _ _ Hst HKt), Htemp.
    cbn [andb negb].
    apply try_except_ok.
    erewrite (bind_ok _ _ _ _ _ (path_replace_dir_ok _ _ w Kt Kf Hf _ _ _ _ _ HKt HKf)).
    + done.
    Unshelve.
    * by eapply sited_locate.
    * by eapply sited_locate.
    * apply snoc_ne_nil.
    * apply snoc_ne_nil.
    * unfold Kt, Kf. intros H. by apply (sibling_not_prefix root _ _ [] Hne).
  - cbn [step_world files]. split; [|split].
    + intros rest. apply rename_tree_moved.
    + intros rest. apply rename_tree_src_gone; [by eexists|].
      unfold Kt, Kf. rewrite <- app_assoc. by apply sibling_not_prefix.
    + intros k H1 H2. by apply rename_tree_other.
Qed.

End ConversationFacts.

(** The directory [/conv] of the example world, made for the conversation
    file [conv.json], when the conversation is named [notes]. *)
Lemma conversation_dir_renamed_witness :
  ∃ w', get_or_create_conversation_dir (UD := ascii_tables)
          (Path true [u "conv.json"]) (u "notes") example_world
        = (Ok (Path true [u "notes"]), w')
    ∧ files w' !! [u "notes"; u "f.txt"] = Some (File (u "a
b
c
"))
    ∧ files w' !! [u "conv"; u "f.txt"] = None.
Proof.
  destruct (conversation_dir_renamed (UD := ascii_tables) (Path true [u "conv.json"])
              (u "notes") example_world)
    as (w' & Hrun & _ & Hmoved & Hgone & _).
  - repeat split; try (by vm_compute); example_no_slash.
  - repeat split; try (by vm_compute); example_no_slash.
  - by vm_compute.
  - by vm_compute.
  - by vm_compute.
  - by vm_compute.
  - by vm_compute.
  - by vm_compute.
  - exists w'. split; [exact Hrun|]. split.
    + apply (Hmoved [u "f.txt"]).
    + apply (Hgone [u "f.txt"]).
Defined.

(** ** [Path.mkdir(parents=True, exist_ok=True)] creates what is missing *)

Lemma new_dirs_nil root : new_dirs root [] = [].
Proof. reflexivity. Qed.

Lemma new_dirs_snoc root new x :
  new_dirs root (new ++ [x]) = new_dirs root new ++ [root ++ new ++ [x]].
Proof.
  unfold new_dirs. rewrite length_app. simpl.
  rewrite seq_app, fmap_app. simpl. f_equal.
  - apply list_fmap_ext. intros i k Hk. apply lookup_seq in Hk as [-> Hi].
    f_equal. rewrite take_app_le by lia. done.
  - f_equal. f_equal. rewrite take_ge; [done|]. rewrite length_app. simpl. lia.
Qed.

Lemma new_dirs_length root new k : k ∈ new_dirs root new → length root < length k.
Proof.
  unfold new_dirs. intros (i & -> & Hi)%list_elem_of_fmap.
  apply elem_of_seq in Hi. rewrite length_app, length_take. lia.
Qed.

Lemma new_dirs_bound root new k :
  k ∈ new_dirs root new → length k ≤ length root + length new.
Proof.
  unfold new_dirs. intros (i & -> & Hi)%list_elem_of_fmap.
  rewrite length_app, length_take. lia.
Qed.

Lemma add_dirs_snoc keys k fs : add_dirs (keys ++ [k]) fs = <[k := Dir]> (add_dirs keys fs).
Proof. unfold add_dirs. by rewrite foldl_app. Qed.

Lemma add_dirs_lookup keys : ∀ fs k,
  add_dirs keys fs !! k = if bool_decide (k ∈ keys) then Some Dir else fs !! k.
Proof.
  induction keys as [|a keys IH] using rev_ind; intros fs k.
  - by rewrite bool_decide_eq_false_2 by apply not_elem_of_nil.
  - rewrite add_dirs_snoc. destruct (decide (k = a)) as [->|Hne].
    + rewrite lookup_insert_eq. rewrite bool_decide_eq_true_2; [done|].
      apply elem_of_app. right. by left.
    + rewrite lookup_insert_ne by done. rewrite IH.
      apply (f_equal (λ b : bool, if b then Some Dir else fs !! k)).
      apply bool_decide_ext. rewrite elem_of_app, list_elem_of_singleton. tauto.
Qed.

Lemma add_dirs_ext keys fs : fs_ext fs (add_dirs keys fs).
Proof.
  intros k Hk. rewrite add_dirs_lookup. by case_bool_decide.
Qed.

(** Below [root], the directories that [new] names exist once added. *)
Lemma walk_dirs_added fs root new :
  DOTDOT ∉ new →
  walk_dirs (add_dirs (new_dirs root new) fs) root new = inr (root ++ new).
Proof.
  intros Hdd. set (fs' := add_dirs _ _).
  assert (∀ done todo, new = done ++ todo →
            walk_dirs fs' (root ++ done) todo = inr (root ++ new)) as H.
  { intros done todo. revert done.
    induction todo as [|c todo IH]; intros done Hnew; simpl.
    - by rewrite Hnew, app_nil_r.
    - rewrite decide_False.
      2:{ intros ->. apply Hdd. rewrite Hnew. apply elem_of_app. right. by left. }
      assert (fs' !! ((root ++ done) ++ [c]) = Some Dir) as ->.
      { unfold fs'. rewrite add_dirs_lookup. rewrite bool_decide_eq_true_2; [done|].
        unfold new_dirs. apply list_elem_of_fmap. exists (S (length done)).
        split.
        - rewrite <- app_assoc. f_equal. rewrite Hnew.
          rewrite (cons_middle c done todo), app_assoc.
          replace (S (length done)) with (length (done ++ [c]))
            by (rewrite length_app; simpl; lia).
          by rewrite take_app_length.
        - apply elem_of_seq. rewrite Hnew, length_app. simpl. lia. }
      rewrite <- app_assoc. apply IH. by rewrite <- app_assoc. }
  specialize (H [] new eq_refl). by rewrite app_nil_r in H.
Qed.

Lemma os_mkdir_ok p w k l :
  fault_at w 0 = None → last (abs_parts w p) = Some l → locate w p = inr k →
  l ≠ DOTDOT → node_at (files w) k = None →
  os_mkdir p w = (Ok tt, step_world w (<[k := Dir]> (files w)) [EvMkdir k] 1).
Proof.
  intros Hf Hl Hk Hne Hn. unfold os_mkdir.
  rewrite bind_unfold, io_fault_step, Hf, bind_get_world.
  assert (abs_parts (pop_fault w) p = abs_parts w p) as -> by done.
  assert (locate (pop_fault w) p = locate w p) as -> by done.
  change (files (pop_fault w)) with (files w).
  rewrite Hl, Hk, decide_False, Hn by done.
  unfold failed. rewrite bool_decide_eq_false_2 by (by intros [? ?]).
  unfold pop_fault. by rewrite emit_step.
Qed.

Lemma os_mkdir_enoent p w l :
  last (abs_parts w p) = Some l → locate w p = inl ENOENT →
  os_mkdir p w = (Raise (OSError ENOENT), pop_fault w).
Proof.
  intros Hl Hk. unfold os_mkdir.
  rewrite bind_unfold, io_fault_step, bind_get_world.
  assert (abs_parts (pop_fault w) p = abs_parts w p) as -> by done.
  assert (locate (pop_fault w) p = locate w p) as -> by done.
  by rewrite Hl, Hk.
Qed.

Lemma mkdir_one_ok p w k l :
  fault_at w 0 = None → last (abs_parts w p) = Some l → locate w p = inr k →
  l ≠ DOTDOT → node_at (files w) k = None →
  mkdir_one p w = (Ok tt, step_world w (<[k := Dir]> (files w)) [EvMkdir k] 1).
Proof.
  intros. unfold mkdir_one. apply try_except_ok. by eapply os_mkdir_ok.
Qed.

Section MkdirP.
Context (a : bool) (pp : list pystr) (root : list (list N)).

Local Abbreviation prefix_of_world w := (if a then pp else cwd w ++ pp).

Lemma abs_parts_below w new :
  abs_parts w (Path a (pp ++ new)) = prefix_of_world w ++ new.
Proof. unfold abs_parts. simpl. destruct a; [done|]. by rewrite app_assoc. Qed.

Lemma locate_below fs w new x :
  files w = fs →
  walk_dirs fs [] (prefix_of_world w ++ new) = inr (root ++ new) → x ≠ DOTDOT →
  locate w (Path a (pp ++ new ++ [x])) = inr (root ++ new ++ [x]).
Proof.
  intros <- Hwalk Hx. unfold locate. rewrite abs_parts_below.
  unfold locate_parts. rewrite !app_assoc, last_snoc, removelast_last.
  rewrite Hwalk. by rewrite decide_False.
Qed.

(** Every directory that is missing on the way is created, the nearest
    first. *)
Lemma mkdir_p_creates new : ∀ w fuel,
  faults w = [] → length new ≤ fuel →
  walk_dirs (files w) [] (prefix_of_world w) = inr root →
  DOTDOT ∉ new → Forall (λ k, files w !! k = None) (new_dirs root new) →
  ∃ n, mkdir_p fuel (Path a (pp ++ new)) w
       = (Ok tt, step_world w (add_dirs (new_dirs root new) (files w))
                   (EvMkdir <$> new_dirs root new) n).
Proof.
  induction new as [|x new IH] using rev_ind; intros w fuel Hfaults Hfuel Hwalk Hdd Habs.
  - exists 1. rewrite app_nil_r.
    assert (sited (files w) (cwd w) (Path a (pp ++ [u "x"])) root (u "x")) as Hs.
    { exists pp. repeat split; try done. example_no_slash. }
    pose proof (sited_parent_is_dir _ _ _ _ _ w eq_refl eq_refl Hs) as Hd.
    unfold path_parent in Hd. simpl in Hd. rewrite removelast_last in Hd.
    by rewrite (mkdir_p_existing _ _ _ Hd).
  - set (K := root ++ new ++ [x]).
    assert (x ≠ DOTDOT) as Hx.
    { intros ->. apply Hdd, elem_of_app. right. by left. }
    assert (DOTDOT ∉ new) as Hdd'.
    { intros H. apply Hdd, elem_of_app. by left. }
    rewrite new_dirs_snoc in Habs. apply Forall_app in Habs as [Habs' HK%Forall_inv].
    fold K in HK.
    assert (last (abs_parts w (Path a (pp ++ new ++ [x]))) = Some x) as Hlast.
    { by rewrite abs_parts_below, app_assoc, last_snoc. }
    rewrite new_dirs_snoc, add_dirs_snoc, fmap_app. fold K.
    destruct (decide (new = [])) as [->|Hnew].
    + (* the parent exists *)
      exists 1.
      assert (os_mkdir (Path a (pp ++ [] ++ [x])) w
              = (Ok tt, step_world w (<[K := Dir]> (files w)) [EvMkdir K] 1)) as Hmk.
      { eapply os_mkdir_ok; try done.
        - by apply no_faults_now.
        - apply (locate_below (files w)); try done. by rewrite !app_nil_r.
        - by rewrite node_at_lookup by apply snoc_ne_nil. }
      destruct fuel; simpl; unfold try_except; simpl in Hmk; by rewrite Hmk.
    + (* the parent is missing *)
      assert (locate w (Path a (pp ++ new ++ [x])) = inl ENOENT) as Hloc.
      { unfold locate. rewrite abs_parts_below. unfold locate_parts.
        rewrite !app_assoc, last_snoc, removelast_last.
        rewrite walk_dirs_app, Hwalk.
        destruct new as [|n1 r]; [done|]. cbn [walk_dirs].
        rewrite decide_False.
        2:{ intros ->. apply Hdd'. by left. }
        assert (files w !! (root ++ [n1]) = None) as ->; [|done].
        apply (proj1 (Forall_forall _ _) Habs').
        unfold new_dirs. apply list_elem_of_fmap. exists 1. simpl.
        rewrite take_0. split; [done|]. by left. }
      destruct fuel as [|fuel].
      { rewrite length_app in Hfuel. simpl in Hfuel. lia. }
      cbn [mkdir_p]. rewrite (try_except_raise _ _ _ _ _ (os_mkdir_enoent _ _ _ Hlast Hloc)).
      rewrite decide_False.
      2:{ unfold path_parent. simpl. intros [= H]. rewrite !app_assoc in H.
          rewrite removelast_last in H. apply (f_equal length) in H.
          rewrite !length_app in H. simpl in H. lia. }
      assert (path_parent (Path a (pp ++ new ++ [x])) = Path a (pp ++ new)) as ->.
      { unfold path_parent. simpl. by rewrite !app_assoc, removelast_last. }
      destruct (IH (pop_fault w) fuel) as (n & Hrec); try done.
      { simpl. by rewrite Hfaults. }
      { rewrite length_app in Hfuel. simpl in Hfuel. lia. }
      rewrite (bind_ok _ _ _ _ _ Hrec).
      unfold pop_fault. rewrite step_world_step. cbn [app files step_world].
      set (fs1 := add_dirs (new_dirs root new) (files w)).
      erewrite (mkdir_one_ok _ _ K x).
      * rewrite step_world_step. by eexists.
      * by apply no_faults_at.
      * done.
      * apply (locate_below fs1); try done.
        rewrite walk_dirs_app. cbn [step_world cwd].
        unfold fs1 at 1.
        rewrite (walk_dirs_ext _ _ _ _ _ (add_dirs_ext _ _) Hwalk).
        by apply walk_dirs_added.
      * done.
      * rewrite node_at_lookup by (unfold K; rewrite app_assoc; apply snoc_ne_nil).
        cbn [step_world files]. fold fs1. unfold fs1. rewrite add_dirs_lookup.
        rewrite bool_decide_eq_false_2; [done|].
        intros H%new_dirs_bound. unfold K in H. rewrite !length_app in H.
        simpl in H. lia.
Qed.

End MkdirP.

(** When the target of [/create_folder] lies
    below an existing directory and none of the directories on the way from
    there to the target exists, and no operation fails, the handler
    creates each of them, the outermost first, and changes nothing else; a
    target that exists already is left as it is. *)
Theorem create_folder_creates_missing_dirs
    (raw : pystr) (rest : list pystr) (base target : PurePath) (w : world)
    (pp new : list pystr) (root : list (list N)) :
  _safe_target base raw w = (Ok target, w) →
  dirs_missing w target pp new root →
  faults w = [] →
  ∃ w', handle_create_folder (raw :: rest) base w = (Ok tt, w')
    ∧ files w' = add_dirs (new_dirs root new) (files w)
    ∧ new_events w w' = EvMkdir <$> new_dirs root new.
Proof.
  intros Hsafe (Hparts & Hwalk & Hdd & Habs) Hfaults.
  unfold handle_create_folder. rewrite (bind_ok _ _ _ _ _ Hsafe).
  unfold mkdir_parents. destruct target as [a ps]. cbn [parts anchored] in *.
  subst ps.
  destruct (mkdir_p_creates a pp root new w (length (pp ++ new)))
    as (n & Hrun); try done.
  { rewrite length_app. lia. }
  rewrite Hrun. eexists. split; [done|]. by rewrite new_events_step.
Qed.

(** [/create_folder a/b/c] in the example world. *)
Lemma create_folder_creates_missing_dirs_witness :
  ∃ w', handle_create_folder [u "a/b/c"] example_base example_world = (Ok tt, w')
    ∧ files w'
      = <[ [u "conv"; u "a"; u "b"; u "c"] := Dir ]>
          (<[ [u "conv"; u "a"; u "b"] := Dir ]>
             (<[ [u "conv"; u "a"] := Dir ]> (files example_world)))
    ∧ new_events example_world w'
      = [EvMkdir [u "conv"; u "a"];
         EvMkdir [u "conv"; u "a"; u "b"];
         EvMkdir [u "conv"; u "a"; u "b"; u "c"]].
Proof.
  apply (create_folder_creates_missing_dirs (u "a/b/c") [] example_base
           (Path true [u "conv"; u "a"; u "b"; u "c"]) example_world
           [u "conv"] [u "a"; u "b"; u "c"] [u "conv"]).
  - by vm_compute.
  - repeat split; try (by vm_compute).
    + apply (proj1 (bool_decide_eq_false _)). by vm_compute.
    + repeat constructor; by vm_compute.
  - reflexivity.
Defined.

(** ** [/delete_folder] moves the directory to the trash *)

Lemma joinpath_component p n :
  n ≠ [] → SLASH ∉ n → n ≠ [DOT] → joinpath p n = Path (anchored p) (parts p ++ [n]).
Proof. intros H1 H2 H3. unfold joinpath. by rewrite parse_path_component. Qed.

Lemma is_dir_sited w p d l :
  sited (files w) (cwd w) p d l → files w !! (d ++ [l]) = Some Dir → is_dir w p = true.
Proof.
  intros Hs Hn. unfold is_dir, stat. erewrite sited_locate by done.
  rewrite node_at_lookup by apply snoc_ne_nil. by rewrite Hn.
Qed.

(** [mkdir(exist_ok=True)] on a path that is a directory or does not exist. *)
Lemma mkdir_one_exist_ok p w d l :
  sited (files w) (cwd w) p d l → fault_at w 0 = None →
  files w !! (d ++ [l]) = None ∨ files w !! (d ++ [l]) = Some Dir →
  mkdir_one p w
  = (Ok tt, step_world w (<[d ++ [l] := Dir]> (files w))
              (if files w !! (d ++ [l]) is None then [EvMkdir (d ++ [l])] else []) 1).
Proof.
  intros Hs Hf [Hn|Hd].
  - rewrite Hn. eapply mkdir_one_ok; try done.
    + by eapply sited_last.
    + by eapply sited_locate.
    + by destruct Hs as (? & ? & ? & ?).
    + by rewrite node_at_lookup by apply snoc_ne_nil.
  - rewrite Hd, insert_id by done. unfold mkdir_one.
    erewrite try_except_raise by (apply os_mkdir_exists; by eapply path_exists_sited).
    unfold mkdir_exist_ok. rewrite bind_get_world.
    assert (is_dir (pop_fault w) p = true) as ->; [|done].
    rewrite (is_dir_files w (pop_fault w)) by done. by eapply is_dir_sited.
Qed.

Lemma deleted_name_plain l ts :
  SLASH ∉ l → SLASH ∉ ts →
  l ++ u ".deleted." ++ ts ≠ [] ∧ (SLASH ∉ l ++ u ".deleted." ++ ts)
  ∧ l ++ u ".deleted." ++ ts ≠ [DOT] ∧ l ++ u ".deleted." ++ ts ≠ DOTDOT.
Proof.
  intros H1 H2. repeat split.
  - intros H. apply (f_equal length) in H. rewrite !length_app in H. simpl in H. lia.
  - intros [H|[H|H]%elem_of_app]%elem_of_app; try done.
    revert H. apply (proj1 (bool_decide_eq_false _)). by vm_compute.
  - intros H. apply (f_equal length) in H. rewrite !length_app in H. simpl in H. lia.
  - intros H. apply (f_equal length) in H. rewrite !length_app in H. simpl in H. lia.
Qed.

(** [/delete_folder] on a directory destroys nothing: it makes the trash
    directory [.trash] of the base directory when there is none, and renames
    the directory to [<name>.deleted.<time stamp>] in the trash.  Every entry
    that was below the directory is below that name at the same place, nothing
    is left under the old name, and everything else is as before. *)
Theorem delete_folder_moves_to_trash (base_dir : PurePath) (w : world) (raw : pystr)
    (rest : list pystr) (target : PurePath) (B d : list (list N)) (l : pystr) :
  let K := d ++ [l] in
  let T := B ++ [u ".trash"] in
  let D := T ++ [l ++ u ".deleted." ++ now w] in
  _safe_target base_dir raw w = (Ok target, w) →
  can_trash w base_dir target B d l →
  faults w = [] →
  ∃ w', handle_delete_folder (raw :: rest) base_dir w = (Ok tt, w')
    ∧ new_events w w'
      = (if files w !! T is None then [EvMkdir T] else []) ++ [EvRename K D]
    ∧ (∀ r, files w' !! (D ++ r) = files w !! (K ++ r))
    ∧ (∀ r, files w' !! (K ++ r) = None)
    ∧ files w' !! T = Some Dir
    ∧ (∀ k, ¬ K `prefix_of` k → ¬ D `prefix_of` k → k ≠ T →
            files w' !! k = files w !! k).
Proof.
  intros K T D Hsafe (Hs & HK & HB & Htr & Hpre & HD & Hts) Hfaults.
  set (nm := l ++ u ".deleted." ++ now w) in *.
  assert (SLASH ∉ l) as Hl by (by destruct Hs as (? & ? & ? & ? & ? & ?)).
  destruct (deleted_name_plain l (now w) Hl Hts) as (Hn1 & Hn2 & Hn3 & Hn4).
  fold nm in Hn1, Hn2, Hn3, Hn4.
  assert (files w !! D = None) as HD'.
  { unfold D, T. by rewrite <- app_assoc. }
  fold K in HK, Hpre. fold T in Htr, Hpre.
  assert (¬ K `prefix_of` D) as HKD.
  { intros [r Hr]. destruct r as [|x r _] using rev_ind.
    - rewrite app_nil_r in Hr. rewrite Hr, HK in HD'. done.
    - unfold D in Hr. rewrite app_assoc in Hr.
      apply app_inj_tail in Hr as [Hr _]. apply Hpre. by exists r. }
  assert (¬ D `prefix_of` T) as HDT.
  { intros [r Hr]. apply (f_equal length) in Hr. unfold D in Hr.
    rewrite !length_app in Hr. simpl in Hr. lia. }
  assert (∀ r, ¬ D `prefix_of` K ++ r) as HDK.
  { intros r HDr.
    destruct (prefix_weak_total _ _ _ HDr (prefix_app_r K K r (reflexivity K)))
      as [H|H]; [|done].
    assert (dirs_ok (files w) K) as Hok.
    { apply dirs_ok_snoc; [|done].
      by apply (sited_dirs_ok (files w) (cwd w) target d l w). }
    rewrite (Hok D H) in HD'; [done|]. unfold D. apply snoc_ne_nil. }
  set (trash := Path (anchored base_dir) (parts base_dir ++ [u ".trash"])).
  assert (joinpath base_dir (u ".trash") = trash) as Ejt.
  { apply joinpath_component; try done. example_no_slash. }
  assert (sited (files w) (cwd w) trash B (u ".trash")) as Hst.
  { exists (parts base_dir). repeat split; try done. example_no_slash. }
  set (evs1 := if files w !! T is None then [EvMkdir T] else []).
  set (fs1 := <[T := Dir]> (files w)).
  set (w1 := step_world w fs1 evs1 1).
  assert (mkdir_one trash w = (Ok tt, w1)) as Hmk.
  { apply (mkdir_one_exist_ok trash w B (u ".trash")); try done.
    by apply no_faults_now. }
  assert (fs_ext (files w) fs1) as Hext.
  { intros k Hk. unfold fs1. destruct (decide (k = T)) as [->|Hne].
    - by rewrite lookup_insert_eq.
    - by rewrite lookup_insert_ne. }
  set (dest := Path (anchored base_dir) (parts base_dir ++ [u ".trash"; nm])).
  assert (joinpath trash nm = dest) as Ejd.
  { rewrite joinpath_component by done. unfold trash, dest. cbn [anchored parts].
    by rewrite <- app_assoc. }
  assert (sited fs1 (cwd w) dest T nm) as Hsd.
  { exists (parts base_dir ++ [u ".trash"]). repeat split; try done.
    { cbn [parts dest]. by rewrite <- app_assoc. }
    cbn [anchored dest].
    assert (walk_dirs fs1 []
              ((if anchored base_dir then parts base_dir else cwd w ++ parts base_dir)
               ++ [u ".trash"]) = inr T) as Hw.
    { rewrite walk_dirs_app, (walk_dirs_ext _ _ _ _ _ Hext HB). cbn [walk_dirs].
      rewrite decide_False by done. unfold fs1. fold T. by rewrite lookup_insert_eq. }
    destruct (anchored base_dir); [done|]. by rewrite app_assoc. }
  assert (fs1 !! K = Some Dir) as HK1 by (by apply Hext).
  assert (fs1 !! D = None) as HD1.
  { unfold fs1. rewrite lookup_insert_ne; [done|]. intros H. apply HDT. by rewrite H. }
  exists (step_world w (rename_tree K D fs1) (evs1 ++ [EvRename K D]) 2).
  split; [|split; [by rewrite new_events_step|]].
  - unfold handle_delete_folder. rewrite (bind_ok _ _ _ _ _ Hsafe), bind_get_world.
    rewrite (path_exists_sited _ _ _ _ _ Hs HK), (is_dir_sited _ _ _ _ Hs HK).
    cbn [andb]. rewrite Ejt, (bind_ok _ _ _ _ _ Hmk), bind_get_world.
    change (now w1) with (now w).
    rewrite (sited_name (files w) (cwd w) target d l Hs). fold nm. rewrite Ejd.
    apply try_except_ok. unfold shutil_move. rewrite bind_get_world.
    rewrite (is_dir_sited_false w1 dest T nm Hsd)
      by (cbn [w1 step_world files]; fold D; by rewrite HD1).
    rewrite bind_unfold. cbn [mret M_ret ret].
    apply try_except_ok.
    rewrite (path_replace_dir_ok target dest w1 K D).
    + unfold w1. by rewrite step_world_step.
    + by apply no_faults_at.
    + eapply sited_locate; [done..|]. cbn [step_world files cwd w1].
      by eapply sited_ext.
    + by eapply sited_locate.
    + apply snoc_ne_nil.
    + apply snoc_ne_nil.
    + done.
    + done.
    + done.
  - cbn [step_world files]. split; [|split; [|split]].
    + intros r. rewrite rename_tree_moved. unfold fs1.
      rewrite lookup_insert_ne; [done|]. intros H. apply Hpre. exists r. by rewrite H.
    + intros r. apply rename_tree_src_gone; [by eexists|]. apply HDK.
    + rewrite rename_tree_other by done. unfold fs1. by rewrite lookup_insert_eq.
    + intros k H1 H2 H3. rewrite rename_tree_other by done. unfold fs1.
      by rewrite lookup_insert_ne.
Qed.

(** [/delete_folder old] in the example world with the directory
    [/conv/old]: the file [x.txt] of the directory is in the trash. *)
Lemma delete_folder_moves_to_trash_witness :
  ∃ w', handle_delete_folder [u "old"] example_base example_world_dir = (Ok tt, w')
    ∧ new_events example_world_dir w'
      = [EvMkdir [u "conv"; u ".trash"];
         EvRename [u "conv"; u "old"]
                  [u "conv"; u ".trash"; u "old.deleted.20240101000000"]]
    ∧ files w' !! [u "conv"; u ".trash"; u "old.deleted.20240101000000"; u "x.txt"]
      = Some (File (u "x"))
    ∧ files w' !! [u "conv"; u "old"; u "x.txt"] = None.
Proof.
  destruct (delete_folder_moves_to_trash example_base example_world_dir (u "old") []
              (Path true [u "conv"; u "old"]) [u "conv"] [u "conv"] (u "old"))
    as (w' & Hrun & Hev & Hmoved & Hgone & _).
  - by vm_compute.
  - split; [example_sited|]. repeat split; try (by vm_compute).
    + left. by vm_compute.
    + apply (proj1 (bool_decide_eq_false _)). by vm_compute.
    + example_no_slash.
  - reflexivity.
  - exists w'. split; [exact Hrun|]. split; [exact Hev|]. split.
    + exact (Hmoved [u "x.txt"]).
    + exact (Hgone [u "x.txt"]).
Defined.

(** ** [/append] with nothing to add *)

(** [/append] makes the parent directories of its target before it looks at
    the content: when nothing is left to add, for want of a content argument
    or after the cleaning, and no operation fails, it still creates every
    missing directory on the way to the target, the outermost first, and
    nothing else; the target itself is not created. *)
Theorem append_nothing_creates_parent_dirs (raw : pystr) (rest : list pystr)
    (base_dir target : PurePath) (w : world) (pp new : list pystr)
    (root : list (list N)) :
  _safe_target base_dir raw w = (Ok target, w) →
  sanitize (content_of_args rest) = [] →
  dirs_missing w (path_parent target) pp new root →
  faults w = [] →
  ∃ w', handle_append (raw :: rest) base_dir w = (Ok tt, w')
    ∧ files w' = add_dirs (new_dirs root new) (files w)
    ∧ new_events w w' = EvMkdir <$> new_dirs root new.
Proof.
  intros Hsafe Hnone (Hparts & Hwalk & Hdd & Habs) Hfaults.
  unfold handle_append. rewrite (bind_ok _ _ _ _ _ Hsafe).
  unfold ensure_parent_dir, mkdir_parents.
  destruct (path_parent target) as [a ps] eqn:Ep. cbn [parts anchored] in *.
  subst ps.
  destruct (mkdir_p_creates a pp root new w (length (pp ++ new)))
    as (n & Hrun); try done.
  { rewrite length_app. lia. }
  rewrite (bind_ok _ _ _ _ _ Hrun), Hnone.
  eexists. split; [done|]. by rewrite new_events_step.
Qed.

(** [/append a/b/f.txt] without content in the example world. *)
Lemma append_nothing_creates_parent_dirs_witness :
  ∃ w', handle_append [u "a/b/f.txt"] example_base example_world
        = (Ok tt, w')
    ∧ files w'
      = <[ [u "conv"; u "a"; u "b"] := Dir ]>
          (<[ [u "conv"; u "a"] := Dir ]> (files example_world))
    ∧ new_events example_world w'
      = [EvMkdir [u "conv"; u "a"]; EvMkdir [u "conv"; u "a"; u "b"]].
Proof.
  apply (append_nothing_creates_parent_dirs (u "a/b/f.txt") []
           example_base (Path true [u "conv"; u "a"; u "b"; u "f.txt"]) example_world
           [u "conv"] [u "a"; u "b"] [u "conv"]).
  - by vm_compute.
  - by vm_compute.
  - repeat split; try (by vm_compute).
    + apply (proj1 (bool_decide_eq_false _)). by vm_compute.
    + repeat constructor; by vm_compute.
  - reflexivity.
Defined.

(** ** Temporary conversation names *)

Lemma takewhile_app_stop (f : N → bool) (ds : pystr) x r :
  forallb f ds = true → f x = false → takewhile f (ds ++ x :: r) = ds.
Proof.
  induction ds as [|d ds IH]; simpl; intros Hd Hx; [by rewrite Hx|].
  apply andb_prop in Hd as [-> Hd]. f_equal. by apply IH.
Qed.

Section TempName.
Context `{UD : UnicodeData}.

(** A name is temporary exactly when, without the whitespace around it, it
    is ten or more decimal digits followed by [.conversation]; a line feed
    at its end does not prevent it, anything else after the suffix does. *)
Theorem temp_conversation_name_iff (name : pystr) :
  is_temp_conversation_name name = true
  ↔ ∃ ds, strip name = ds ++ u ".conversation"
          ∧ 10 ≤ length ds ∧ forallb is_decimal ds = true.
Proof.
  split.
  - unfold is_temp_conversation_name. destruct name as [|c name]; [done|].
    set (s := strip _). unfold temp_name_match.
    intros [Hlen Hrest]%andb_prop. apply bool_decide_eq_true in Hlen.
    destruct (eat _ _) as [r|] eqn:Er; [|done].
    apply eat_Some in Er.
    pose proof (takewhile_drop is_decimal s) as Hs. rewrite Er in Hs.
    exists (takewhile is_decimal s).
    split; [|split; [done|apply takewhile_forallb]].
    unfold at_end in Hrest.
    apply orb_prop in Hrest as [H|H]; apply bool_decide_eq_true in H; subst r.
    + by rewrite app_nil_r in Hs.
    + exfalso. assert (last s = Some LF) as Hl.
      { rewrite Hs, !app_assoc. apply last_snoc. }
      by apply strip_last in Hl.
  - intros (ds & Hs & Hlen & Hd). unfold is_temp_conversation_name.
    destruct name as [|c name].
    { apply (f_equal length) in Hs. rewrite length_app in Hs. simpl in Hs. lia. }
    rewrite Hs. unfold temp_name_match.
    assert (takewhile is_decimal (ds ++ u ".conversation") = ds) as ->.
    { change (u ".conversation") with (DOT :: u "conversation").
      by apply takewhile_app_stop. }
    rewrite bool_decide_eq_true_2 by done.
    by rewrite drop_app_length.
Qed.

End TempName.

(** A name of thirteen digits with [.conversation], and a line feed after
    it. *)
Lemma temp_conversation_name_iff_witness :
  is_temp_conversation_name (UD := ascii_tables) (u "1700000000000.conversation
") = true.
Proof.
  apply (proj2 (temp_conversation_name_iff (UD := ascii_tables) _)).
  exists (u "1700000000000"). split; [by vm_compute|]. split; [simpl; lia|by vm_compute].
Defined.

(** ** What append and paste_file write, world by world *)

Lemma emits_emits_from {A} P (m : M A) w : emits P m → emits_from P m w.
Proof. intros H. apply H. Qed.

Lemma emits_from_bind {A B} P (m : M A) (k : A → M B) w :
  emits_from P m w →
  (∀ a w1, m w = (Ok a, w1) → emits_from P (k a) w1) →
  emits_from P (m ≫= k) w.
Proof.
  intros (evs & Ht & Hevs) Hk. unfold emits_from. rewrite bind_unfold.
  destruct (m w) as [[a|e] w1] eqn:E; simpl in *.
  - destruct (Hk a w1 eq_refl) as (evs' & Ht' & Hevs'). exists (evs ++ evs').
    rewrite Ht', Ht, app_assoc. split; [done|]. by apply Forall_app.
  - by exists evs.
Qed.

Lemma emits_from_get_world {A} P (k : world → M A) w :
  emits_from P (k w) w → emits_from P (get_world ≫= k) w.
Proof. done. Qed.

Lemma emits_from_try {A} P (m : M A) (h : exn → M A) w :
  emits_from P m w → (∀ e, emits P (h e)) → emits_from P (try_except m h) w.
Proof.
  intros (evs & Ht & Hevs) Hh. unfold emits_from, try_except.
  destruct (m w) as [[a|e] w1]; simpl in *.
  - by exists evs.
  - destruct (Hh e w1) as (evs' & Ht' & Hevs'). exists (evs ++ evs').
    rewrite Ht', Ht, app_assoc. split; [done|]. by apply Forall_app.
Qed.

Lemma emits_from_events {A} P (m : M A) w :
  emits_from P m w → Forall P (new_events w (m w).2).
Proof. intros (evs & Ht & H). by rewrite (new_events_app _ _ _ Ht). Qed.

Lemma no_write_writes_text t e : no_write e → writes_text t e.
Proof. by destruct e. Qed.

Lemma emits_no_write_text {A} t (m : M A) : emits no_write m → emits (writes_text t) m.
Proof. apply emits_mono, no_write_writes_text. Qed.

Lemma emits_mkdir_text {A} t (m : M A) : emits is_mkdir m → emits (writes_text t) m.
Proof. apply emits_mono. intros e He. by apply no_write_writes_text, is_mkdir_no_write. Qed.

Lemma emits_atomic_write_text p t : emits (writes_text t) (atomic_write p t).
Proof. apply emits_atomic_write; [apply no_write_writes_text|done]. Qed.

(** [_safe_target] leaves the world as it is. *)
Lemma safe_target_world base raw w r w' : _safe_target base raw w = (r, w') → w' = w.
Proof.
  rewrite safe_target_spec. cbn zeta.
  destruct (path_in_sandbox _ _ _); by intros [= _ <-].
Qed.

(** *** The clipboard stays *)

Global Instance same_clipboard_refl : Reflexive same_clipboard.
Proof. by intros w. Qed.

Global Instance same_clipboard_trans : Transitive same_clipboard.
Proof. unfold same_clipboard. intros w1 w2 w3 H12 H23. congruence. Qed.

Lemma world_grows_clipboard w w' : world_grows w w' → same_clipboard w w'.
Proof. by intros (_ & _ & _ & H). Qed.

Lemma io_fault_clipboard : preserves same_clipboard io_fault.
Proof. intros w. by destruct (io_fault_run w) as (f & fl & ->). Qed.

Lemma shutil_copy_clipboard p q : preserves same_clipboard (shutil_copy p q).
Proof.
  unfold shutil_copy. apply preserves_bind; [apply _|apply io_fault_clipboard|].
  intros f. apply preserves_get_world. intros w.
  repeat match goal with
         | |- context [match ?x with _ => _ end] => destruct x
         end; reflexivity.
Qed.

Lemma make_timestamped_backup_clipboard p :
  preserves same_clipboard (make_timestamped_backup p).
Proof.
  unfold make_timestamped_backup. apply preserves_get_world. intros w.
  destruct (negb _); [reflexivity|].
  apply preserves_bind; [apply _|apply preserves_lift; apply _|].
  intros b. apply preserves_try; [apply _| |intros; apply preserves_ret; apply _].
  apply preserves_bind; [apply _|apply shutil_copy_clipboard|].
  intros; apply preserves_ret; apply _.
Qed.

Section WhatIsWritten.
Context `{UD : UnicodeData}.

(** On a regular file, append completes no write but that of the text of
    the file followed by the sanitized content. *)
Lemma handle_append_existing base raw rest w target c0 :
  _safe_target base raw w = (Ok target, w) → read_path w target = Some c0 →
  emits_from (writes_text (universal_newlines c0 ++ sanitize (content_of_args rest)))
    (handle_append (raw :: rest) base) w.
Proof.
  intros Hsafe Hc. unfold handle_append.
  remember (sanitize (content_of_args rest)) as added eqn:Ea.
  apply emits_from_bind; [apply emits_safe_target|].
  intros a w0 Ha. rewrite Hsafe in Ha. injection Ha as <- <-.
  apply emits_from_bind;
    [apply emits_emits_from, emits_mkdir_text, emits_ensure_parent_dir|].
  intros [] w1 H1.
  assert (world_grows w w1) as Hg.
  { pose proof (ensure_parent_dir_grows target w) as H. by rewrite H1 in H. }
  pose proof (read_path_grows _ _ _ _ Hg Hc) as Hc1.
  destruct added as [|x s]; [apply emits_ret|].
  apply emits_from_try; [|intros; apply emits_ret].
  apply emits_from_get_world.
  assert (path_exists w1 target = true) as ->.
  { unfold path_exists. unfold read_path in Hc1. by destruct (stat w1 target). }
  apply emits_from_bind; [apply emits_read_text|].
  intros text w2 Hrt.
  destruct (read_text_run target w1 c0 Hc1) as (r & w2' & Hrt' & _ & _ & Hr).
  rewrite Hrt in Hrt'. injection Hrt' as <- <-. rewrite (Hr _ eq_refl).
  apply emits_emits_from, emits_atomic_write_text.
Qed.

(** On a name that its directory does not hold, append completes no write
    but that of the sanitized content. *)
Lemma handle_append_new base raw rest w target d l :
  _safe_target base raw w = (Ok target, w) →
  sited (files w) (cwd w) target d l → files w !! (d ++ [l]) = None →
  emits_from (writes_text (sanitize (content_of_args rest)))
    (handle_append (raw :: rest) base) w.
Proof.
  intros Hsafe Hs HK. unfold handle_append.
  remember (sanitize (content_of_args rest)) as added eqn:Ea.
  apply emits_from_bind; [apply emits_safe_target|].
  intros a w0 Ha. rewrite Hsafe in Ha. injection Ha as <- <-.
  apply emits_from_bind;
    [apply emits_emits_from, emits_mkdir_text, emits_ensure_parent_dir|].
  intros [] w1 H1. rewrite (ensure_parent_dir_sited _ _ _ _ Hs) in H1.
  injection H1 as <-.
  destruct added as [|x s]; [apply emits_ret|].
  apply emits_from_try; [|intros; apply emits_ret].
  apply emits_from_get_world.
  rewrite (path_exists_files w (pop_fault w)) by done.
  rewrite (path_exists_sited_false _ _ _ _ Hs HK).
  apply emits_from_bind; [apply emits_ret|].
  intros text w2 [= <- <-]. apply emits_emits_from, emits_atomic_write_text.
Qed.

(** Paste_file completes no write but that of the text on the clipboard. *)
Lemma handle_paste_file_writes base raw rest w c cs :
  (clipboard w).1 = Some (c :: cs) →
  emits_from (writes_text (c :: cs)) (handle_paste_file (raw :: rest) base) w.
Proof.
  intros Hclip. unfold handle_paste_file.
  apply emits_from_get_world. rewrite Hclip.
  apply emits_from_bind; [apply emits_safe_target|].
  intros dst w0 Hd. apply safe_target_world in Hd as ->.
  apply emits_from_bind;
    [apply emits_emits_from, emits_mkdir_text, emits_ensure_parent_dir|].
  intros [] w1 H1.
  assert (same_clipboard w w1) as Hc1.
  { apply world_grows_clipboard.
    pose proof (ensure_parent_dir_grows dst w) as H. by rewrite H1 in H. }
  destruct (negb _); [apply emits_ret|].
  apply emits_from_get_world.
  apply emits_from_bind.
  { destruct (path_exists w1 dst); [|apply emits_ret].
    apply emits_emits_from, emits_no_write_text, emits_make_timestamped_backup. }
  intros backup w2 H2.
  assert (same_clipboard w1 w2) as Hc2.
  { destruct (path_exists w1 dst).
    - pose proof (make_timestamped_backup_clipboard dst w1) as H. by rewrite H2 in H.
    - by injection H2 as _ <-. }
  apply emits_from_try;
    [|intros; apply emits_no_write_text, emits_restore_backup].
  apply emits_from_get_world.
  unfold same_clipboard in *. rewrite Hc2, Hc1, Hclip. simpl default.
  apply emits_emits_from, emits_bind; [apply emits_atomic_write_text|].
  intros; apply emits_no_write_text, emits_discard_backup.
Qed.

(** C2 (as amended): create_file, whole-file set, replace and patch complete
    no write whose text holds a command line, in any world and whatever
    fails.  Append completes no write but one that ends with its sanitized
    content: on a regular file that of the text of the file followed by the
    sanitized content, on a name its directory does not hold that of the
    sanitized content alone.  Paste_file completes no write but that of the
    text on the clipboard, as it is.  Sanitized content holds no command
    line; so [/create_file n.txt] with the lines [hello], [/rm -rf], [bye]
    leaves a file with [hello] and [bye]. *)
Theorem content_writes_sanitized :
  (∀ args base, emits clean_write (handle_create_file args base))
  ∧ (∀ args base, head args ≠ Some (u "line") → emits clean_write (handle_set args base))
  ∧ (∀ args base, emits clean_write (handle_replace args base))
  ∧ (∀ args base, emits clean_write (handle_patch args base))
  ∧ (∀ path_arg rest base,
       emits (appends (sanitize (content_of_args rest)))
             (handle_append (path_arg :: rest) base))
  ∧ (∀ base raw rest w target c0,
       _safe_target base raw w = (Ok target, w) → read_path w target = Some c0 →
       Forall (writes_text (universal_newlines c0 ++ sanitize (content_of_args rest)))
              (new_events w (handle_append (raw :: rest) base w).2))
  ∧ (∀ base raw rest w target d l,
       _safe_target base raw w = (Ok target, w) →
       sited (files w) (cwd w) target d l → files w !! (d ++ [l]) = None →
       Forall (writes_text (sanitize (content_of_args rest)))
              (new_events w (handle_append (raw :: rest) base w).2))
  ∧ (∀ base raw rest w c cs,
       (clipboard w).1 = Some (c :: cs) →
       Forall (writes_text (c :: cs))
              (new_events w (handle_paste_file (raw :: rest) base w).2))
  ∧ (∀ c, _content_has_command_lines (Some (sanitize c)) = false)
  ∧ file_content
      (handle_create_file [u "n.txt"; u "hello
/rm -rf
bye"] example_base example_world).2 [u "conv"; u "n.txt"]
    = Some (u "hello
bye").
Proof.
  split; [apply handle_create_file_clean|].
  split; [apply handle_set_whole_clean|].
  split; [apply handle_replace_clean|].
  split; [apply handle_patch_clean|].
  split; [apply handle_append_appends|].
  split. { intros. by eapply emits_from_events, handle_append_existing. }
  split. { intros. by eapply emits_from_events, handle_append_new. }
  split. { intros. by eapply emits_from_events, handle_paste_file_writes. }
  split; [apply sanitize_clean|]. by vm_compute.
Qed.

End WhatIsWritten.

(** Instances of the theorem in the example world: whole-file set with a
    content that holds the line [/rm -rf], append to the file [f.txt], and
    paste_file after a copy. *)
Lemma content_writes_sanitized_witness :
  (head [u "f.txt"; u "keep
/rm -rf
me"] ≠ Some (u "line")
   ∧ emits clean_write (handle_set (UD := ascii_tables) [u "f.txt"; u "keep
/rm -rf
me"] example_base))
  ∧ Forall (writes_text (u "a
b
c
x"))
      (new_events example_world
         (handle_append [u "f.txt"; u "x"] example_base example_world).2)
  ∧ (let w1 := (handle_copy_file [u "src.txt"] example_base example_world_rm).2 in
     Forall (writes_text (u "/rm -rf
"))
       (new_events w1 (handle_paste_file [u "dst.txt"] example_base w1).2)).
Proof.
  pose proof (content_writes_sanitized (UD := ascii_tables))
    as (_ & Hset & _ & _ & _ & Happ & _ & Hpaste & _).
  split; [|split].
  - split; [by vm_compute|]. apply Hset. by vm_compute.
  - apply (Happ example_base (u "f.txt") [u "x"] example_world
             (Path true [u "conv"; u "f.txt"]) (u "a
b
c
")); by vm_compute.
  - apply (Hpaste example_base (u "dst.txt") []). by vm_compute.
Defined.

(** C2 (as stated) fails for paste_file and for the line form of set.
    After copy_file of a file that holds the line [/rm -rf], paste_file
    writes that line into its target; and [/set line 1 f.txt "/rm -rf"]
    writes it as the first line of [f.txt]. *)
Lemma paste_file_writes_command_line :
  let w1 := (handle_copy_file [u "src.txt"] example_base example_world_rm).2 in
  let w2 := (handle_paste_file [u "dst.txt"] example_base w1).2 in
  let w3 := (handle_set (UD := ascii_tables) [u "line"; u "1"; u "f.txt"; u "/rm -rf"]
               example_base example_world).2 in
  (file_content w2 [u "conv"; u "dst.txt"] = Some (u "/rm -rf
")
   ∧ _content_has_command_lines (Some (u "/rm -rf
")) = true
   ∧ ¬ Forall clean_write (new_events w1 w2))
  ∧ (file_content w3 [u "conv"; u "f.txt"] = Some (u "/rm -rf
b
c")
     ∧ _content_has_command_lines (Some (u "/rm -rf
b
c")) = true
     ∧ ¬ Forall clean_write (new_events example_world w3)).
Proof.
  vm_compute. split; (split; [done|]); (split; [done|]).
  - intros H. apply Forall_inv in H. discriminate H.
  - intros H. apply Forall_inv_tail, Forall_inv in H. discriminate H.
Qed.

(** ** The arguments stop at the first slash outside a fence or a quote *)






Section ScanArgs.
Context `{UD : UnicodeData}.




End ScanArgs.

(** ** [/patch]: removals by the old line numbers, insertions at their
    numbers *)












(** *** The log *)







Section PatchOrder.
Context `{UD : UnicodeData}.




End PatchOrder.


